(** * Fleet simulation core: robots, missions, registries, scheduler

    A shallow embedding of the simulation core of the delivery-robot fleet
    dashboard (core/robot.ts, core/mission.ts, core/fleet-manager.ts,
    core/simulation-engine.ts, utils/time-utils.ts, types/index.ts) and the
    properties of its state machines and registries.

    Conventions of the embedding:
    - a [Date] is its epoch-millisecond value ([Date.getTime()]), a [Z];
      every [new Date()] / [Date.now()] read during one synchronous call is
      the argument [now] of that call;
    - an optional or nullable field is an [option];
    - a method of a mutable object is a function from the state before the
      call to the result, the state after it and the events emitted during
      it; a [throw] is the result [Throw];
    - [Logger] calls only write to the console and are left out. *)

From Stdlib Require Import ZArith String Ascii List Lia DecimalString DecimalNat.
From Stdlib Require QArith Qround.
From stdpp Require Import base option list gmap strings.

Local Open Scope string_scope.

(** ** Error values *)

(** The taxonomy of faults of the design document. *)
Inductive ErrorKind := NotFound | InvalidTransition | AlreadyRunning | NotRunning.

(** The status enums of types/index.ts. *)
Inductive RobotStatus := IDLE | ASSIGNED | EN_ROUTE | DELIVERING | COMPLETED.
Inductive MissionStatus := created | assigned | in_progress | completed | cancelled.

#[global] Instance RobotStatus_eq_dec : EqDecision RobotStatus.
Proof. solve_decision. Defined.
#[global] Instance MissionStatus_eq_dec : EqDecision MissionStatus.
Proof. solve_decision. Defined.

(** The string value of a [MissionStatus], as interpolated in messages. *)
Definition missionStatusText (s : MissionStatus) : string :=
  match s with
  | created => "created" | assigned => "assigned" | in_progress => "in_progress"
  | completed => "completed" | cancelled => "cancelled"
  end.

(** Every [throw new Error(...)] of the core, one constructor per message
    template. *)
Inductive Error :=
  | RobotNotAssigned (robotId : string)
  | RobotNotEnRoute (robotId : string)
  | RobotNotDelivering (robotId : string)
  | RobotNotCompleted (robotId : string)
  | MissionNotFound (missionId : string)
  | MissionCannotBeAssigned (missionId : string) (current : MissionStatus)
  | MissionCannotBeStarted (missionId : string) (current : MissionStatus)
  | MissionCannotBeCompleted (missionId : string) (current : MissionStatus)
  | SimulationAlreadyRunning.

Definition message (e : Error) : string :=
  match e with
  | RobotNotAssigned r => "Cannot start mission - robot " ++ r ++ " is not assigned"
  | RobotNotEnRoute r => "Cannot start delivering - robot " ++ r ++ " is not en route"
  | RobotNotDelivering r => "Cannot complete mission - robot " ++ r ++ " is not delivering"
  | RobotNotCompleted r => "Cannot return to idle - robot " ++ r ++ " is not completed"
  | MissionNotFound m => "Mission " ++ m ++ " not found"
  | MissionCannotBeAssigned m s =>
      "Mission " ++ m ++ " cannot be assigned - current status: " ++ missionStatusText s
  | MissionCannotBeStarted m s =>
      "Mission " ++ m ++ " cannot be started - current status: " ++ missionStatusText s
  | MissionCannotBeCompleted m s =>
      "Mission " ++ m ++ " cannot be completed - current status: " ++ missionStatusText s
  | SimulationAlreadyRunning => "Simulation is already running"
  end.

(** Which fault of the taxonomy each thrown error is. *)
Definition kind (e : Error) : ErrorKind :=
  match e with
  | RobotNotAssigned _ | RobotNotEnRoute _ | RobotNotDelivering _
  | RobotNotCompleted _ => InvalidTransition
  | MissionNotFound _ => NotFound
  | MissionCannotBeAssigned _ _ | MissionCannotBeStarted _ _
  | MissionCannotBeCompleted _ _ => InvalidTransition
  | SimulationAlreadyRunning => AlreadyRunning
  end.

(** The outcome of a call: a returned value or a thrown error. *)
Inductive Result (A : Type) :=
  | Return (a : A)
  | Throw (e : Error).
Arguments Return {A} a.
Arguments Throw {A} e.

Definition raises {A} (r : Result A) : bool :=
  match r with Return _ => false | Throw _ => true end.

Definition Time := Z.
Bind Scope Z_scope with Time.

(** ** Missions (types/index.ts) *)

Module Mission.
Record t := mk {
  id : string;
  status : MissionStatus;
  createdAt : Time;
  assignedAt : option Time;
  startedAt : option Time;
  completedAt : option Time;
  cancelledAt : option Time;
  robotId : option string;
  estimatedDuration : Z
}.

(** Field assignments [mission.f = v] on a mission object. *)
Definition setStatus (s : MissionStatus) (m : t) : t :=
  mk (id m) s (createdAt m) (assignedAt m) (startedAt m) (completedAt m)
     (cancelledAt m) (robotId m) (estimatedDuration m).
Definition setAssignedAt (now : Time) (m : t) : t :=
  mk (id m) (status m) (createdAt m) (Some now) (startedAt m) (completedAt m)
     (cancelledAt m) (robotId m) (estimatedDuration m).
Definition setStartedAt (now : Time) (m : t) : t :=
  mk (id m) (status m) (createdAt m) (assignedAt m) (Some now) (completedAt m)
     (cancelledAt m) (robotId m) (estimatedDuration m).
Definition setCompletedAt (now : Time) (m : t) : t :=
  mk (id m) (status m) (createdAt m) (assignedAt m) (startedAt m) (Some now)
     (cancelledAt m) (robotId m) (estimatedDuration m).
Definition setCancelledAt (now : Time) (m : t) : t :=
  mk (id m) (status m) (createdAt m) (assignedAt m) (startedAt m) (completedAt m)
     (Some now) (robotId m) (estimatedDuration m).
Definition setRobotId (r : string) (m : t) : t :=
  mk (id m) (status m) (createdAt m) (assignedAt m) (startedAt m) (completedAt m)
     (cancelledAt m) (Some r) (estimatedDuration m).
End Mission.

(** ** Snapshot records (types/index.ts) *)

Module RobotData.
Record t := mk {
  id : string;
  status : RobotStatus;
  currentMissionId : option string;
  createdAt : Time;
  lastUpdated : Time
}.
End RobotData.

Module FleetStatistics.
Record t := mk {
  total : nat;
  idle : nat;
  assigned : nat;
  en_route : nat;
  delivering : nat;
  completed : nat
}.
End FleetStatistics.

(** ** Robot (core/robot.ts) *)

Module Robot.
Record t := mk {
  id : string;
  status : RobotStatus;
  currentMissionId : option string;
  createdAt : Time;
  lastUpdated : Time
}.

(** The payloads of [emit('statusChanged', ...)] and
    [emit('missionCancelled', ...)]. *)
Inductive Event :=
  | statusChanged (robotId : string) (status : RobotStatus) (missionId : option string)
  | missionCancelled (robotId : string) (missionId : option string).

Definition constructor (id : string) (now : Time) : t :=
  {| id := id; status := IDLE; currentMissionId := None;
     createdAt := now; lastUpdated := now |}.

Definition getId (r : t) : string := id r.
Definition getStatus (r : t) : RobotStatus := status r.
Definition getCurrentMissionId (r : t) : option string := currentMissionId r.

Definition setStatus (s : RobotStatus) (r : t) : t :=
  {| id := id r; status := s; currentMissionId := currentMissionId r;
     createdAt := createdAt r; lastUpdated := lastUpdated r |}.

Definition setCurrentMissionId (m : option string) (r : t) : t :=
  {| id := id r; status := status r; currentMissionId := m;
     createdAt := createdAt r; lastUpdated := lastUpdated r |}.

Definition updateTimestamp (now : Time) (r : t) : t :=
  {| id := id r; status := status r; currentMissionId := currentMissionId r;
     createdAt := createdAt r; lastUpdated := now |}.

(** What a method leaves behind: its result, the robot after the call and
    the events it emitted, oldest first. *)
Definition Step (A : Type) : Type := Result A * t * list Event.

Definition assignMission (mission : Mission.t) (now : Time) (r : t) : Step bool :=
  if decide (status r ≠ IDLE) then (Return false, r, [])
  else
    let r1 := setStatus ASSIGNED r in
    let r2 := setCurrentMissionId (Some (Mission.id mission)) r1 in
    let r3 := updateTimestamp now r2 in
    (Return true, r3,
     [statusChanged (id r3) (status r3) (Some (Mission.id mission))]).

Definition startMission (now : Time) (r : t) : Step unit :=
  if decide (status r ≠ ASSIGNED) then (Throw (RobotNotAssigned (id r)), r, [])
  else
    let r2 := updateTimestamp now (setStatus EN_ROUTE r) in
    (Return tt, r2, [statusChanged (id r2) (status r2) (currentMissionId r2)]).

Definition startDelivering (now : Time) (r : t) : Step unit :=
  if decide (status r ≠ EN_ROUTE) then (Throw (RobotNotEnRoute (id r)), r, [])
  else
    let r2 := updateTimestamp now (setStatus DELIVERING r) in
    (Return tt, r2, [statusChanged (id r2) (status r2) (currentMissionId r2)]).

Definition completeMission (now : Time) (r : t) : Step unit :=
  if decide (status r ≠ DELIVERING) then (Throw (RobotNotDelivering (id r)), r, [])
  else
    let r2 := updateTimestamp now (setStatus COMPLETED r) in
    (Return tt, r2, [statusChanged (id r2) (status r2) (currentMissionId r2)]).

Definition returnToIdle (now : Time) (r : t) : Step unit :=
  if decide (status r ≠ COMPLETED) then (Throw (RobotNotCompleted (id r)), r, [])
  else
    let r1 := setStatus IDLE r in
    let r2 := setCurrentMissionId None r1 in
    let r3 := updateTimestamp now r2 in
    (Return tt, r3, [statusChanged (id r3) (status r3) None]).

Definition cancelCurrentMission (now : Time) (r : t) : Step unit :=
  if decide (status r = IDLE) then (Return tt, r, [])
  else
    let cancelledMissionId := currentMissionId r in
    let r1 := setStatus IDLE r in
    let r2 := setCurrentMissionId None r1 in
    let r3 := updateTimestamp now r2 in
    (Return tt, r3,
     [missionCancelled (id r3) cancelledMissionId;
      statusChanged (id r3) (status r3) None]).

(** A call of one of the six state-machine methods. *)
Inductive Call :=
  | AssignMission (mission : Mission.t)
  | StartMission
  | StartDelivering
  | CompleteMission
  | ReturnToIdle
  | CancelCurrentMission.

(** The robot and the events after a call, whatever it returned or threw. *)
Definition exec (c : Call) (now : Time) (r : t) : t * list Event :=
  match c with
  | AssignMission m => let '(_, r', ev) := assignMission m now r in (r', ev)
  | StartMission => let '(_, r', ev) := startMission now r in (r', ev)
  | StartDelivering => let '(_, r', ev) := startDelivering now r in (r', ev)
  | CompleteMission => let '(_, r', ev) := completeMission now r in (r', ev)
  | ReturnToIdle => let '(_, r', ev) := returnToIdle now r in (r', ev)
  | CancelCurrentMission => let '(_, r', ev) := cancelCurrentMission now r in (r', ev)
  end.

(** A robot after a sequence of timed calls. *)
Definition run (calls : list (Time * Call)) (r : t) : t :=
  fold_left (fun r '(now, c) => (exec c now r).1) calls r.

Definition getCreatedAt (r : t) : Time := createdAt r.
Definition getLastUpdated (r : t) : Time := lastUpdated r.

Definition toData (r : t) : RobotData.t :=
  {| RobotData.id := id r;
     RobotData.status := status r;
     RobotData.currentMissionId := currentMissionId r;
     RobotData.createdAt := createdAt r;
     RobotData.lastUpdated := lastUpdated r |}.
End Robot.

(** ** Time utilities (utils/time-utils.ts) *)

Module TimeUtils.
(** [Math.floor(Math.random() * (max - min + 1)) + min], where [rnd] is
    the outcome of [Math.random()]. *)
Definition getRandomDuration (rnd : QArith_base.Q) (min max : Z) : Z :=
  (Qround.Qfloor (QArith_base.Qmult rnd (QArith_base.inject_Z (max - min + 1))) + min)%Z.

(** [new Date(date.getTime() + minutes * 60000)], for a whole number of
    minutes. *)
Definition addMinutes (date : Time) (minutes : Z) : Time := (date + minutes * 60000)%Z.

(** [Date.now() - date.getTime() > durationMs]. *)
Definition isExpired (date : Time) (durationMs : Z) (now : Time) : bool :=
  bool_decide (now - date > durationMs)%Z.
End TimeUtils.

(** ** Mission registry (core/mission.ts) *)

Module MissionManager.
(** [private missions: Map<string, Mission>]; no operation of the registry
    depends on the iteration order of the map. *)
Abbreviation t := (gmap string Mission.t).

Definition MISSION_DURATION_RANGE_MIN : Z := 3 * 60 * 1000.
Definition MISSION_DURATION_RANGE_MAX : Z := 8 * 60 * 1000.

Definition constructor : t := ∅.

(** [createMission()]: [uuid] is the string returned by the uuid
    package's [v4()] and [rnd] the outcome of [Math.random()].
    [uuidv4().slice(0, 8)] keeps the first eight characters. *)
Definition createMission (uuid : string) (rnd : QArith_base.Q) (now : Time) (mm : t)
  : Mission.t * t :=
  let mission :=
    {| Mission.id := "mission-" ++ substring 0 8 uuid;
       Mission.status := created;
       Mission.createdAt := now;
       Mission.assignedAt := None;
       Mission.startedAt := None;
       Mission.completedAt := None;
       Mission.cancelledAt := None;
       Mission.robotId := None;
       Mission.estimatedDuration :=
         TimeUtils.getRandomDuration rnd MISSION_DURATION_RANGE_MIN
                                     MISSION_DURATION_RANGE_MAX |} in
  (mission, <[Mission.id mission := mission]> mm).

Definition getMission (missionId : string) (mm : t) : option Mission.t :=
  mm !! missionId.

Definition assignMission (missionId robotId : string) (now : Time) (mm : t)
  : Result unit * t :=
  match mm !! missionId with
  | None => (Throw (MissionNotFound missionId), mm)
  | Some mission =>
      if decide (Mission.status mission ≠ created)
      then (Throw (MissionCannotBeAssigned missionId (Mission.status mission)), mm)
      else
        let mission' :=
          Mission.setRobotId robotId
            (Mission.setAssignedAt now (Mission.setStatus assigned mission)) in
        (Return tt, <[missionId := mission']> mm)
  end.

Definition startMission (missionId : string) (now : Time) (mm : t) : Result unit * t :=
  match mm !! missionId with
  | None => (Throw (MissionNotFound missionId), mm)
  | Some mission =>
      if decide (Mission.status mission ≠ assigned)
      then (Throw (MissionCannotBeStarted missionId (Mission.status mission)), mm)
      else
        let mission' := Mission.setStartedAt now (Mission.setStatus in_progress mission) in
        (Return tt, <[missionId := mission']> mm)
  end.

Definition completeMission (missionId : string) (now : Time) (mm : t) : Result unit * t :=
  match mm !! missionId with
  | None => (Throw (MissionNotFound missionId), mm)
  | Some mission =>
      if decide (Mission.status mission ≠ in_progress)
      then (Throw (MissionCannotBeCompleted missionId (Mission.status mission)), mm)
      else
        let mission' := Mission.setCompletedAt now (Mission.setStatus completed mission) in
        (Return tt, <[missionId := mission']> mm)
  end.

Definition cancelMission (missionId : string) (now : Time) (mm : t) : Result unit * t :=
  match mm !! missionId with
  | None => (Throw (MissionNotFound missionId), mm)
  | Some mission =>
      if decide (Mission.status mission = completed ∨ Mission.status mission = cancelled)
      then (Return tt, mm)
      else
        let mission' := Mission.setCancelledAt now (Mission.setStatus cancelled mission) in
        (Return tt, <[missionId := mission']> mm)
  end.

(** The test of the cleanup loop on one entry. *)
Definition expired (cutoffTime : Z) (mission : Mission.t) : Prop :=
  (Mission.status mission = completed ∨ Mission.status mission = cancelled)
  ∧ (Mission.createdAt mission < cutoffTime)%Z.

#[global] Instance expired_dec cutoffTime mission : Decision (expired cutoffTime mission).
Proof. unfold expired. apply _. Defined.

Definition DEFAULT_OLDER_THAN_MS : Z := 24 * 60 * 60 * 1000.

(** [cleanupCompletedMissions(olderThanMs = 24h)]: the loop over
    [this.missions.entries()] deletes from the map it walks, which a JS
    [Map] allows: every entry present at the start is visited once. *)
Definition cleanupBody (cutoffTime : Z) (missionId : string) (mission : Mission.t)
    (st : nat * t) : nat * t :=
  let '(cleanedCount, missions) := st in
  if decide (expired cutoffTime mission)
  then (S cleanedCount, delete missionId missions)
  else (cleanedCount, missions).

Definition cleanupCompletedMissions (olderThanMs : option Z) (now : Time) (mm : t)
  : nat * t :=
  let cutoffTime := (now - default DEFAULT_OLDER_THAN_MS olderThanMs)%Z in
  map_fold (cleanupBody cutoffTime) (0, mm) mm.

(** A call of one of the mutating operations of the registry. *)
Inductive Call :=
  | CreateMission (uuid : string) (rnd : QArith_base.Q)
  | AssignMission (missionId robotId : string)
  | StartMission (missionId : string)
  | CompleteMission (missionId : string)
  | CancelMission (missionId : string)
  | CleanupCompletedMissions (olderThanMs : option Z).

(** The registry after a call, whatever it returned or threw. *)
Definition exec (c : Call) (now : Time) (mm : t) : t :=
  match c with
  | CreateMission uuid rnd => (createMission uuid rnd now mm).2
  | AssignMission m r => (assignMission m r now mm).2
  | StartMission m => (startMission m now mm).2
  | CompleteMission m => (completeMission m now mm).2
  | CancelMission m => (cancelMission m now mm).2
  | CleanupCompletedMissions o => (cleanupCompletedMissions o now mm).2
  end.

Definition run (calls : list (Time * Call)) (mm : t) : t :=
  fold_left (fun mm '(now, c) => exec c now mm) calls mm.

(** [Array.from(this.missions.values())]: the missions of the registry.
    The order of the array (the insertion order of the map) is not
    represented; only what the array contains is. *)
Definition getAllMissions (mm : t) : list Mission.t := (map_to_list mm).*2.

Definition getActiveMissions (mm : t) : list Mission.t :=
  filter (fun mission => Mission.status mission = assigned
                         ∨ Mission.status mission = in_progress)
         (getAllMissions mm).
End MissionManager.

(** ** JavaScript [Map] with string keys

    A [Map] iterates in insertion order, and [set] on a key that is already
    present replaces the value in its slot without moving it. *)

Module JsMap.
Section JsMap.
Context {V : Type}.

Fixpoint get (k : string) (m : list (string * V)) : option V :=
  match m with
  | [] => None
  | (k', v) :: rest => if decide (k' = k) then Some v else get k rest
  end.

Fixpoint set (k : string) (v : V) (m : list (string * V)) : list (string * V) :=
  match m with
  | [] => [(k, v)]
  | (k', v') :: rest =>
      if decide (k' = k) then (k, v) :: rest else (k', v') :: set k v rest
  end.

Definition keys (m : list (string * V)) : list string := m.*1.
Definition values (m : list (string * V)) : list V := m.*2.
Definition size (m : list (string * V)) : nat := length m.

End JsMap.
End JsMap.

(** ** Fleet registry (core/fleet-manager.ts) *)

Module FleetManager.
(** [private robots: Map<string, Robot>], in insertion order. *)
Abbreviation t := (list (string * Robot.t)).

(** The events the registry re-emits for the two listeners that
    [initializeFleet] installs on every robot it creates. *)
Inductive Event :=
  | robotStatusChanged (robotId : string) (status : RobotStatus) (missionId : option string)
  | robotMissionCancelled (robotId : string) (missionId : option string).

Definition forward (e : Robot.Event) : Event :=
  match e with
  | Robot.statusChanged r s m => robotStatusChanged r s m
  | Robot.missionCancelled r m => robotMissionCancelled r m
  end.

Definition constructor : t := [].

(** [i.toString()] for a counter [i]. *)
Definition toString (i : nat) : string := NilEmpty.string_of_uint (Nat.to_uint i).

(** [s.padStart(targetLength, c)] for a one-character pad string. *)
Fixpoint replicate (n : nat) (c : ascii) : string :=
  match n with
  | O => EmptyString
  | S n' => String c (replicate n' c)
  end.

Definition padStart (targetLength : nat) (c : ascii) (s : string) : string :=
  replicate (targetLength - String.length s) c ++ s.

Definition robotIdOf (i : nat) : string := "robot-" ++ padStart 3 "0" (toString i).

(** The body of the loop of [initializeFleet] for counter value [i]. *)
Definition addRobot (now : Time) (robots : t) (i : nat) : t :=
  let robotId := robotIdOf i in
  let robot := Robot.constructor robotId now in
  JsMap.set robotId robot robots.

(** [for (let i = 1; i <= robotCount; i++)]. *)
Definition initializeFleet (robotCount : nat) (now : Time) (fm : t) : t :=
  fold_left (addRobot now) (seq 1 robotCount) fm.

Definition getAllRobots (fm : t) : list Robot.t := JsMap.values fm.

Definition getRobot (robotId : string) (fm : t) : option Robot.t := JsMap.get robotId fm.

Definition getAvailableRobots (fm : t) : list Robot.t :=
  filter (fun robot => Robot.getStatus robot = IDLE) (JsMap.values fm).

Definition getRobotsByStatus (status : RobotStatus) (fm : t) : list Robot.t :=
  filter (fun robot => Robot.getStatus robot = status) (JsMap.values fm).

Definition getActiveRobots (fm : t) : list Robot.t :=
  filter (fun robot => Robot.getStatus robot ≠ IDLE) (JsMap.values fm).

(** [assignMissionToAvailableRobot(mission)]. [availableRobots[0]] is the
    robot object held by the first slot of the map whose robot is IDLE
    ([list_find] yields that slot, and nothing exactly when the filtered
    array is empty); [selectedRobot.assignMission] mutates the object in
    that slot. *)
Definition assignMissionToAvailableRobot (mission : Mission.t) (now : Time) (fm : t)
  : Result (option Robot.t) * t * list Event :=
  match list_find (fun entry => Robot.getStatus entry.2 = IDLE) fm with
  | None => (Return None, fm, [])
  | Some (slot, (key, selectedRobot)) =>
      let '(res, robot', evs) := Robot.assignMission mission now selectedRobot in
      let fm' := <[slot := (key, robot')]> fm in
      match res with
      | Return true => (Return (Some robot'), fm', forward <$> evs)
      | Return false => (Return None, fm', forward <$> evs)
      | Throw e => (Throw e, fm', forward <$> evs)
      end
  end.

Definition cancelRobotMission (robotId : string) (now : Time) (fm : t)
  : Result bool * t * list Event :=
  match JsMap.get robotId fm with
  | None => (Return false, fm, [])
  | Some robot =>
      let '(res, robot', evs) := Robot.cancelCurrentMission now robot in
      let fm' := JsMap.set robotId robot' fm in
      match res with
      | Return _ => (Return true, fm', forward <$> evs)
      | Throw e => (Throw e, fm', forward <$> evs)
      end
  end.

(** A call of a state-machine method on the object [getRobot(robotId)]
    returns, if there is one. *)
Definition onRobot (robotId : string) (c : Robot.Call) (now : Time) (fm : t)
  : t * list Event :=
  match JsMap.get robotId fm with
  | None => (fm, [])
  | Some robot =>
      let '(robot', evs) := Robot.exec c now robot in
      (JsMap.set robotId robot' fm, forward <$> evs)
  end.

(** The calls a client of the registry can make. *)
Inductive Call :=
  | InitializeFleet (robotCount : nat)
  | AssignMissionToAvailableRobot (mission : Mission.t)
  | CancelRobotMission (robotId : string)
  | OnRobot (robotId : string) (c : Robot.Call).

(** The registry and the events after a call. *)
Definition exec (c : Call) (now : Time) (fm : t) : t * list Event :=
  match c with
  | InitializeFleet n => (initializeFleet n now fm, [])
  | AssignMissionToAvailableRobot mission =>
      let '(_, fm', evs) := assignMissionToAvailableRobot mission now fm in (fm', evs)
  | CancelRobotMission robotId =>
      let '(_, fm', evs) := cancelRobotMission robotId now fm in (fm', evs)
  | OnRobot robotId c => onRobot robotId c now fm
  end.

Definition run (calls : list (Time * Call)) (fm : t) : t :=
  fold_left (fun fm '(now, c) => (exec c now fm).1) calls fm.

(** The robots returned by assigning a list of missions one after the
    other, with the registry after the last call. *)
Fixpoint assignEach (missions : list (Time * Mission.t)) (fm : t)
  : list (option Robot.t) * t :=
  match missions with
  | [] => ([], fm)
  | (now, mission) :: rest =>
      let '(res, fm', _) := assignMissionToAvailableRobot mission now fm in
      let '(results, fm'') := assignEach rest fm' in
      (match res with Return o => o | Throw _ => None end :: results, fm'')
  end.

(** One turn of the loop of [getFleetStatistics]: the [switch] on the
    status of the robot. *)
Definition countRobot (stats : FleetStatistics.t) (robot : Robot.t) : FleetStatistics.t :=
  let '(FleetStatistics.mk n i a e d c) := stats in
  match Robot.getStatus robot with
  | IDLE => FleetStatistics.mk n (S i) a e d c
  | ASSIGNED => FleetStatistics.mk n i (S a) e d c
  | EN_ROUTE => FleetStatistics.mk n i a (S e) d c
  | DELIVERING => FleetStatistics.mk n i a e (S d) c
  | COMPLETED => FleetStatistics.mk n i a e d (S c)
  end.

Definition getFleetStatistics (fm : t) : FleetStatistics.t :=
  fold_left countRobot (JsMap.values fm)
    (FleetStatistics.mk (JsMap.size fm) 0 0 0 0 0).
End FleetManager.

(** ** Scheduler (core/simulation-engine.ts): construction and lifecycle *)

Module SimulationEngine.
Inductive Event :=
  | robotStatusChanged (robotId : string) (status : RobotStatus) (missionId : option string)
  | missionCancelled (robotId : string) (missionId : option string)
  | simulationStarted
  | simulationStopped.

(** The engine with the two registries it holds references to. A timer
    field holds the period of the armed interval, or [None] for [null].
    [emitted] lists the events the engine has emitted, oldest first. *)
Record t := mk {
  fleetManager : list (string * Robot.t);
  missionManager : gmap string Mission.t;
  isSimulationRunning : bool;
  missionGenerationTimer : option Z;
  stateTransitionTimer : option Z;
  cleanupTimer : option Z;
  emitted : list Event
}.

Definition MISSION_GENERATION_INTERVAL : Z := 60 * 1000.
Definition STATE_TRANSITION_INTERVAL : Z := 10 * 1000.
Definition CLEANUP_INTERVAL : Z := 5 * 60 * 1000.

Definition constructor (fleetManager : list (string * Robot.t))
    (missionManager : gmap string Mission.t) : t :=
  mk fleetManager missionManager false None None None [].

Definition setFleetManager (fm : list (string * Robot.t)) (e : t) : t :=
  mk fm (missionManager e) (isSimulationRunning e) (missionGenerationTimer e)
     (stateTransitionTimer e) (cleanupTimer e) (emitted e).

Definition setMissionManager (mm : gmap string Mission.t) (e : t) : t :=
  mk (fleetManager e) mm (isSimulationRunning e) (missionGenerationTimer e)
     (stateTransitionTimer e) (cleanupTimer e) (emitted e).

Definition emit (ev : Event) (e : t) : t :=
  mk (fleetManager e) (missionManager e) (isSimulationRunning e)
     (missionGenerationTimer e) (stateTransitionTimer e) (cleanupTimer e)
     (emitted e ++ [ev]).

(** The listener the constructor registers for 'robotStatusChanged'. *)
Definition onRobotStatusChanged (robotId : string) (status : RobotStatus)
    (missionId : option string) (e : t) : Result unit * t :=
  (Return tt, emit (robotStatusChanged robotId status missionId) e).

(** The listener the constructor registers for 'robotMissionCancelled':
    [this.missionManager.cancelMission(data.missionId)], then the engine's
    own 'missionCancelled'. A [null] mission ID is no key of the map. *)
Definition onRobotMissionCancelled (robotId : string) (missionId : option string)
    (now : Time) (e : t) : Result unit * t :=
  match missionId with
  | None => (Throw (MissionNotFound "null"), e)
  | Some m =>
      match MissionManager.cancelMission m now (missionManager e) with
      | (Throw err, mm') => (Throw err, setMissionManager mm' e)
      | (Return _, mm') =>
          (Return tt, emit (missionCancelled robotId missionId) (setMissionManager mm' e))
      end
  end.

(** Modelled from the spec: utils/event-emitter is not among the sources.
    The design document describes named events emitted by robots and
    registries and consumed by the registries and the scheduler; here
    [emit] calls the registered listeners synchronously, in the order of
    emission, and an exception thrown by a listener propagates to the
    emitter and ends the dispatch. [fleetEmit] delivers the events of one
    call on the fleet registry to the listeners of the engine. *)
Fixpoint fleetEmit (evs : list FleetManager.Event) (now : Time) (e : t) : Result unit * t :=
  match evs with
  | [] => (Return tt, e)
  | ev :: rest =>
      let '(res, e') :=
        match ev with
        | FleetManager.robotStatusChanged r s m => onRobotStatusChanged r s m e
        | FleetManager.robotMissionCancelled r m => onRobotMissionCancelled r m now e
        end in
      match res with
      | Throw err => (Throw err, e')
      | Return _ => fleetEmit rest now e'
      end
  end.

(** [fleetManager.cancelRobotMission(robotId)] on the fleet registry an
    engine has been constructed over. *)
Definition cancelRobotMission (robotId : string) (now : Time) (e : t) : Result bool * t :=
  let '(res, fm', evs) := FleetManager.cancelRobotMission robotId now (fleetManager e) in
  match fleetEmit evs now (setFleetManager fm' e) with
  | (Throw err, e') => (Throw err, e')
  | (Return _, e') => (res, e')
  end.

Definition start (e : t) : Result unit * t :=
  if isSimulationRunning e then (Throw SimulationAlreadyRunning, e)
  else
    (Return tt,
     emit simulationStarted
       (mk (fleetManager e) (missionManager e) true
           (Some MISSION_GENERATION_INTERVAL) (Some STATE_TRANSITION_INTERVAL)
           (Some CLEANUP_INTERVAL) (emitted e))).

Definition stop (e : t) : Result unit * t :=
  if negb (isSimulationRunning e) then (Return tt, e)
  else
    (Return tt,
     emit simulationStopped
       (mk (fleetManager e) (missionManager e) false None None None (emitted e))).

Definition isRunning (e : t) : bool := isSimulationRunning e.

(** The calls a client can make on an engine and on the two registries it
    was constructed over. The timer callbacks of a running engine act on
    the registries through calls of these kinds only. *)
Inductive Call :=
  | OnFleet (c : FleetManager.Call)
  | OnMissions (c : MissionManager.Call)
  | Start
  | Stop.

Definition exec (c : Call) (now : Time) (e : t) : t :=
  match c with
  | OnFleet c =>
      let '(fm', evs) := FleetManager.exec c now (fleetManager e) in
      (fleetEmit evs now (setFleetManager fm' e)).2
  | OnMissions c => setMissionManager (MissionManager.exec c now (missionManager e)) e
  | Start => (start e).2
  | Stop => (stop e).2
  end.

Definition run (calls : list (Time * Call)) (e : t) : t :=
  fold_left (fun e '(now, c) => exec c now e) calls e.

(** *** The timer callbacks *)

(** [STATE_DURATIONS]: the bounds (min, max) of the dwell time of each
    transition, in milliseconds. *)
Definition ASSIGNED_TO_EN_ROUTE : Z * Z := (30000, 60000)%Z.
Definition EN_ROUTE_TO_DELIVERING : Z * Z := (60000, 120000)%Z.
Definition DELIVERING_TO_COMPLETED : Z * Z := (120000, 300000)%Z.
Definition COMPLETED_TO_IDLE : Z * Z := (10000, 30000)%Z.

(** One turn of the loop of [generateMissions]; [uuid] and [rnd] are the
    outcomes of [uuidv4()] and [Math.random()] inside [createMission]. It
    yields the payload (missionId, robotId) of the 'missionAssigned' event
    it emits, if any. *)
Definition generateMission (uuid : string) (rnd : QArith_base.Q) (now : Time) (e : t)
  : Result (option (string * string)) * t :=
  let '(mission, mm1) := MissionManager.createMission uuid rnd now (missionManager e) in
  let e1 := setMissionManager mm1 e in
  let '(res, fm', evs) :=
    FleetManager.assignMissionToAvailableRobot mission now (fleetManager e1) in
  match fleetEmit evs now (setFleetManager fm' e1) with
  | (Throw err, e2) => (Throw err, e2)
  | (Return _, e2) =>
      match res with
      | Throw err => (Throw err, e2)
      | Return None => (Return None, e2)
      | Return (Some robot) =>
          match MissionManager.assignMission (Mission.id mission) (Robot.getId robot) now
                  (missionManager e2) with
          | (Throw err, mm') => (Throw err, setMissionManager mm' e2)
          | (Return _, mm') =>
              (Return (Some (Mission.id mission, Robot.getId robot)),
               setMissionManager mm' e2)
          end
      end
  end.

(** [generateMissions()]: two turns inside [try]; an exception ends the
    loop and is logged. The result is the logged error, if any, the engine
    afterwards and the 'missionAssigned' payloads emitted, oldest first. *)
Definition generateMissions (first second : string * QArith_base.Q) (now : Time) (e : t)
  : option Error * t * list (string * string) :=
  match generateMission first.1 first.2 now e with
  | (Throw err, e1) => (Some err, e1, [])
  | (Return a1, e1) =>
      match generateMission second.1 second.2 now e1 with
      | (Throw err, e2) => (Some err, e2, option_list a1)
      | (Return a2, e2) => (None, e2, (option_list a1 ++ option_list a2)%list)
      end
  end.

(** The positions, in the order of the map, of the robots
    [getRobotsByStatus(status)] returns: the array holds these robot
    objects, which the loops below read and mutate in place. *)
Fixpoint slotsFrom (i : nat) (status : RobotStatus) (fm : list (string * Robot.t))
  : list nat :=
  match fm with
  | [] => []
  | (_, robot) :: rest =>
      if decide (Robot.getStatus robot = status)
      then i :: slotsFrom (S i) status rest
      else slotsFrom (S i) status rest
  end.

Definition slotsByStatus (status : RobotStatus) (fm : list (string * Robot.t)) : list nat :=
  slotsFrom 0 status fm.

(** A state-machine method called on the robot object in [slot], with the
    delivery of its events to the listeners of the engine. *)
Definition callRobot (slot : nat) (method : Robot.t → Robot.Step unit) (now : Time) (e : t)
  : Result unit * t :=
  match fleetManager e !! slot with
  | None => (Return tt, e)
  | Some (key, robot) =>
      let '(res, robot', evs) := method robot in
      let e1 := setFleetManager (<[slot := (key, robot')]> (fleetManager e)) e in
      match res with
      | Throw err => (Throw err, e1)
      | Return _ => fleetEmit (FleetManager.forward <$> evs) now e1
      end
  end.

(** [timeInState >= transitionDelay], where the delay is drawn between the
    bounds of [range] with the outcome [rnd] of [Math.random()]. *)
Definition due (range : Z * Z) (rnd : QArith_base.Q) (since now : Time) : bool :=
  let timeInState := (now - since)%Z in
  let transitionDelay := TimeUtils.getRandomDuration rnd range.1 range.2 in
  bool_decide (timeInState >= transitionDelay)%Z.

(** The common body of the four loops, for the robot in [slot]: skip the
    robot when its mission ID is null or empty, when the registry has no
    such mission, or when the mission lacks the timestamp [since] the loop
    measures from; otherwise draw a delay and, when it has elapsed, perform
    [advance]. *)
Definition sweepRobot (since : Mission.t → option Time) (range : Z * Z)
    (advance : string → nat → Time → t → Result unit * t)
    (rnd : QArith_base.Q) (now : Time) (slot : nat) (e : t) : Result unit * t :=
  match fleetManager e !! slot with
  | None => (Return tt, e)
  | Some (_, robot) =>
      match Robot.getCurrentMissionId robot with
      | None => (Return tt, e)
      | Some missionId =>
          if decide (missionId = "") then (Return tt, e)
          else
            match MissionManager.getMission missionId (missionManager e) with
            | None => (Return tt, e)
            | Some mission =>
                match since mission with
                | None => (Return tt, e)
                | Some stamp =>
                    if due range rnd stamp now then advance missionId slot now e
                    else (Return tt, e)
                end
            end
      end
  end.

(** A [for ... of] loop over the robots in [slots]; an exception thrown by
    the body leaves the loop. [rnd slot] is the outcome of [Math.random()]
    in the turn of the robot in [slot]. *)
Fixpoint forEachRobot (body : QArith_base.Q → Time → nat → t → Result unit * t)
    (rnd : nat → QArith_base.Q) (now : Time) (slots : list nat) (e : t) : Result unit * t :=
  match slots with
  | [] => (Return tt, e)
  | slot :: rest =>
      match body (rnd slot) now slot e with
      | (Throw err, e') => (Throw err, e')
      | (Return _, e') => forEachRobot body rnd now rest e'
      end
  end.

(** [robot.startMission(); this.missionManager.startMission(missionId)]. *)
Definition startBoth (missionId : string) (slot : nat) (now : Time) (e : t)
  : Result unit * t :=
  match callRobot slot (Robot.startMission now) now e with
  | (Throw err, e') => (Throw err, e')
  | (Return _, e') =>
      let '(res, mm') := MissionManager.startMission missionId now (missionManager e') in
      (res, setMissionManager mm' e')
  end.

(** [robot.completeMission(); this.missionManager.completeMission(missionId)]. *)
Definition completeBoth (missionId : string) (slot : nat) (now : Time) (e : t)
  : Result unit * t :=
  match callRobot slot (Robot.completeMission now) now e with
  | (Throw err, e') => (Throw err, e')
  | (Return _, e') =>
      let '(res, mm') := MissionManager.completeMission missionId now (missionManager e') in
      (res, setMissionManager mm' e')
  end.

Definition processAssignedRobots (rnd : nat → QArith_base.Q) (now : Time) (e : t)
  : Result unit * t :=
  forEachRobot (sweepRobot Mission.assignedAt ASSIGNED_TO_EN_ROUTE startBoth)
    rnd now (slotsByStatus ASSIGNED (fleetManager e)) e.

Definition processEnRouteRobots (rnd : nat → QArith_base.Q) (now : Time) (e : t)
  : Result unit * t :=
  forEachRobot
    (sweepRobot Mission.startedAt EN_ROUTE_TO_DELIVERING
       (fun _ slot now e => callRobot slot (Robot.startDelivering now) now e))
    rnd now (slotsByStatus EN_ROUTE (fleetManager e)) e.

Definition processDeliveringRobots (rnd : nat → QArith_base.Q) (now : Time) (e : t)
  : Result unit * t :=
  forEachRobot (sweepRobot Mission.startedAt DELIVERING_TO_COMPLETED completeBoth)
    rnd now (slotsByStatus DELIVERING (fleetManager e)) e.

Definition processCompletedRobots (rnd : nat → QArith_base.Q) (now : Time) (e : t)
  : Result unit * t :=
  forEachRobot
    (sweepRobot Mission.completedAt COMPLETED_TO_IDLE
       (fun _ slot now e => callRobot slot (Robot.returnToIdle now) now e))
    rnd now (slotsByStatus COMPLETED (fleetManager e)) e.

(** [processStateTransitions()]: the four loops inside [try]; the first
    exception ends the sweep and is logged. [draws status slot] is the
    outcome of [Math.random()] for the robot in [slot] in the loop over the
    robots of that status. The result is the logged error, if any, and the
    engine afterwards. *)
Definition processStateTransitions (draws : RobotStatus → nat → QArith_base.Q)
    (now : Time) (e : t) : option Error * t :=
  match processAssignedRobots (draws ASSIGNED) now e with
  | (Throw err, e1) => (Some err, e1)
  | (Return _, e1) =>
      match processEnRouteRobots (draws EN_ROUTE) now e1 with
      | (Throw err, e2) => (Some err, e2)
      | (Return _, e2) =>
          match processDeliveringRobots (draws DELIVERING) now e2 with
          | (Throw err, e3) => (Some err, e3)
          | (Return _, e3) =>
              match processCompletedRobots (draws COMPLETED) now e3 with
              | (Throw err, e4) => (Some err, e4)
              | (Return _, e4) => (None, e4)
              end
          end
      end
  end.

(** [performCleanup()]: the sweep of the mission registry with a retention
    of one hour; the number of missions removed is only logged. *)
Definition performCleanup (now : Time) (e : t) : t :=
  setMissionManager
    (MissionManager.cleanupCompletedMissions (Some (60 * 60 * 1000)%Z) now
       (missionManager e)).2 e.

(** What happens to an engine: a call by a client, or the firing of one of
    its three interval timers, which fire only while armed. *)
Inductive Tick :=
  | ClientCall (c : Call)
  | MissionGenerationTimer (first second : string * QArith_base.Q)
  | StateTransitionTimer (draws : RobotStatus → nat → QArith_base.Q)
  | CleanupTimer.

Definition tick (k : Tick) (now : Time) (e : t) : t :=
  match k with
  | ClientCall c => exec c now e
  | MissionGenerationTimer first second =>
      match missionGenerationTimer e with
      | Some _ => (generateMissions first second now e).1.2
      | None => e
      end
  | StateTransitionTimer draws =>
      match stateTransitionTimer e with
      | Some _ => (processStateTransitions draws now e).2
      | None => e
      end
  | CleanupTimer =>
      match cleanupTimer e with
      | Some _ => performCleanup now e
      | None => e
      end
  end.

Definition runTicks (ticks : list (Time * Tick)) (e : t) : t :=
  fold_left (fun e '(now, k) => tick k now e) ticks e.
End SimulationEngine.

(** ** Dashboard aggregator (services/dashboard-service.ts): the queries *)

Module DashboardData.
Record t := mk {
  robots : list RobotData.t;
  fleetStats : FleetStatistics.t;
  activeMissions : list Mission.t;
  lastUpdated : Time
}.
End DashboardData.

Module DashboardService.
Definition getDashboardData (now : Time) (fm : list (string * Robot.t))
    (mm : gmap string Mission.t) : DashboardData.t :=
  {| DashboardData.robots := Robot.toData <$> FleetManager.getAllRobots fm;
     DashboardData.fleetStats := FleetManager.getFleetStatistics fm;
     DashboardData.activeMissions := MissionManager.getActiveMissions mm;
     DashboardData.lastUpdated := now |}.

(** The [mission] field of the object [getRobotDetails] returns: [null]
    when the robot has no mission ID (or an empty one), otherwise what
    [getMission] returns, a mission or [undefined]. *)
Inductive MissionData :=
  | Null
  | Undefined
  | Found (mission : Mission.t).

Definition getRobotDetails (robotId : string) (fm : list (string * Robot.t))
    (mm : gmap string Mission.t) : option (RobotData.t * MissionData) :=
  match FleetManager.getRobot robotId fm with
  | None => None
  | Some robot =>
      let robotData := Robot.toData robot in
      let missionData :=
        match RobotData.currentMissionId robotData with
        | None => Null
        | Some missionId =>
            if decide (missionId = "") then Null
            else match MissionManager.getMission missionId mm with
                 | None => Undefined
                 | Some mission => Found mission
                 end
        end in
      Some (robotData, missionData)
  end.
End DashboardService.

(** ** Invariants and example data *)

(** The robot invariant: idle exactly when no mission is bound. *)
Definition robot_inv (r : Robot.t) : Prop :=
  Robot.status r = IDLE ↔ Robot.currentMissionId r = None.

(** The part of the mission invariant that the registry maintains. *)
Definition mission_inv (m : Mission.t) : Prop :=
  (Mission.status m = assigned ∨ Mission.status m = in_progress →
     Mission.robotId m ≠ None)
  ∧ (Mission.robotId m ≠ None →
     Mission.status m ≠ created ∧ Mission.assignedAt m ≠ None)
  ∧ (Mission.status m = cancelled → Mission.cancelledAt m ≠ None).

(** A registry used in the examples: one mission, created at time 1000 and
    driven through the registry's own operations. *)
Definition uuidA : string := "3f2a9c1e-1111-4aaa-8bbb-000000000001".
Definition uuidB : string := "3f2a9c1e-2222-4ccc-9ddd-000000000002".
Definition half : QArith_base.Q := QArith_base.Qmake 1 2.

Definition completed_registry : gmap string Mission.t :=
  MissionManager.run
    [(1000, MissionManager.CreateMission uuidA half);
     (1010, MissionManager.AssignMission "mission-3f2a9c1e" "robot-001");
     (1020, MissionManager.StartMission "mission-3f2a9c1e");
     (1030, MissionManager.CompleteMission "mission-3f2a9c1e")]%Z
    MissionManager.constructor.

Definition completed_mission : Mission.t :=
  {| Mission.id := "mission-3f2a9c1e"; Mission.status := completed;
     Mission.createdAt := 1000%Z; Mission.assignedAt := Some 1010%Z;
     Mission.startedAt := Some 1020%Z; Mission.completedAt := Some 1030%Z;
     Mission.cancelledAt := None; Mission.robotId := Some "robot-001";
     Mission.estimatedDuration := 330000%Z |}.

Definition created_registry : gmap string Mission.t :=
  (MissionManager.createMission uuidA half 1000%Z MissionManager.constructor).2.

(** A mission created and cancelled within one millisecond. *)
Definition fresh_cancelled_registry : gmap string Mission.t :=
  MissionManager.run
    [(1000, MissionManager.CreateMission uuidA half);
     (1000, MissionManager.CancelMission "mission-3f2a9c1e")]%Z
    MissionManager.constructor.

(** The shape of the strings the uuid package's [v4()] returns: 36
    characters, lower-case hexadecimal digits in groups of 8-4-4-4-12
    separated by hyphens, version digit 4 and variant digit 8, 9, a or b. *)
Definition isHexDigit (c : ascii) : bool :=
  let n := nat_of_ascii c in
  (Nat.leb 48 n && Nat.leb n 57) || (Nat.leb 97 n && Nat.leb n 102).

Definition isVariantDigit (c : ascii) : bool :=
  let n := nat_of_ascii c in
  Nat.eqb n 56 || Nat.eqb n 57 || Nat.eqb n 97 || Nat.eqb n 98.

Fixpoint uuidShapeFrom (i : nat) (s : string) : bool :=
  match s with
  | EmptyString => Nat.eqb i 36
  | String c rest =>
      (if Nat.eqb i 8 || Nat.eqb i 13 || Nat.eqb i 18 || Nat.eqb i 23
       then Nat.eqb (nat_of_ascii c) 45
       else if Nat.eqb i 14 then Nat.eqb (nat_of_ascii c) 52
       else if Nat.eqb i 19 then isVariantDigit c
       else isHexDigit c)
      && uuidShapeFrom (S i) rest
  end.

Definition isUuidV4 (s : string) : bool := uuidShapeFrom 0 s.

(** The shape of every fleet registry: the keys are the IDs of the counters
    1, 2, ..., in that order, and every robot is stored under its own ID. *)
Definition fleet_inv (fm : list (string * Robot.t)) : Prop :=
  JsMap.keys fm = FleetManager.robotIdOf <$> seq 1 (length fm)
  ∧ Forall (fun entry => Robot.id entry.2 = entry.1) fm.

(** The robot stored under [robotId] is IDLE. *)
Definition idle_in (robotId : string) (fm : list (string * Robot.t)) : Prop :=
  ∃ robot, FleetManager.getRobot robotId fm = Some robot ∧ Robot.status robot = IDLE.

(** An IDLE robot after a successful [assignMission(mission)] at [now]. *)
Definition assigned_to (mission : Mission.t) (now : Time) (idle : Robot.t) : Robot.t :=
  Robot.updateTimestamp now
    (Robot.setCurrentMissionId (Some (Mission.id mission)) (Robot.setStatus ASSIGNED idle)).

(** Example fleets: three robots created at time 1, and the mission of
    [created_registry]. *)
Definition mission1 : Mission.t :=
  (MissionManager.createMission uuidA half 1000 MissionManager.constructor).1.

Definition fleet3 : list (string * Robot.t) :=
  FleetManager.run [(1%Z, FleetManager.InitializeFleet 3)] FleetManager.constructor.

(** Example engines. [delivering_engine]: an engine over two fresh
    registries, a fleet of two robots, one mission assigned to robot-001 and
    advanced, robot and mission in step, until the robot is DELIVERING.
    [desynchronised_engine]: the same, after a client has also called
    completeMission on the mission registry directly. *)
Definition delivering_calls : list (Time * SimulationEngine.Call) :=
  [(900, SimulationEngine.OnFleet (FleetManager.InitializeFleet 2));
   (1000, SimulationEngine.OnMissions (MissionManager.CreateMission uuidA half));
   (1001, SimulationEngine.OnFleet (FleetManager.AssignMissionToAvailableRobot mission1));
   (1002, SimulationEngine.OnMissions
            (MissionManager.AssignMission "mission-3f2a9c1e" "robot-001"));
   (1003, SimulationEngine.OnFleet (FleetManager.OnRobot "robot-001" Robot.StartMission));
   (1004, SimulationEngine.OnMissions (MissionManager.StartMission "mission-3f2a9c1e"));
   (1005, SimulationEngine.OnFleet
            (FleetManager.OnRobot "robot-001" Robot.StartDelivering))]%Z.

Definition engine0 : SimulationEngine.t :=
  SimulationEngine.constructor
    (FleetManager.run [] FleetManager.constructor)
    (MissionManager.run [] MissionManager.constructor).

Definition delivering_engine : SimulationEngine.t :=
  SimulationEngine.run delivering_calls engine0.

Definition desynchronised_calls : list (Time * SimulationEngine.Call) :=
  (delivering_calls ++
   [(1500%Z, SimulationEngine.OnMissions
               (MissionManager.CompleteMission "mission-3f2a9c1e"))])%list.

Definition desynchronised_engine : SimulationEngine.t :=
  SimulationEngine.run desynchronised_calls engine0.

(** Every string of the list is below the next one in the order of
    [String.compare] (the order of JavaScript's [<] on these ASCII strings). *)
Fixpoint strictlyIncreasing (l : list string) : bool :=
  match l with
  | [] => true
  | x :: rest =>
      match rest with
      | [] => true
      | y :: _ => String.ltb x y && strictlyIncreasing rest
      end
  end.

(** The edges of the robot state machine. *)
Definition robot_edge (s s' : RobotStatus) : Prop :=
  match s, s' with
  | IDLE, ASSIGNED | ASSIGNED, EN_ROUTE | EN_ROUTE, DELIVERING
  | DELIVERING, COMPLETED | COMPLETED, IDLE => True
  | ASSIGNED, IDLE | EN_ROUTE, IDLE | DELIVERING, IDLE => True
  | _, _ => False
  end.

(** The status a forward method requires and the one it leads to. *)
Definition forward_methods
  : list ((Time → Robot.t → Robot.Step unit) * RobotStatus * RobotStatus) :=
  [(Robot.startMission, ASSIGNED, EN_ROUTE);
   (Robot.startDelivering, EN_ROUTE, DELIVERING);
   (Robot.completeMission, DELIVERING, COMPLETED);
   (Robot.returnToIdle, COMPLETED, IDLE)].

(** The edges of the mission state machine. *)
Definition mission_edge (s s' : MissionStatus) : Prop :=
  match s, s' with
  | created, assigned | assigned, in_progress | in_progress, completed => True
  | created, cancelled | assigned, cancelled | in_progress, cancelled => True
  | _, _ => False
  end.

(** Which optional fields a mission of each status carries. *)
Definition mission_stamps (m : Mission.t) : Prop :=
  match Mission.status m with
  | created =>
      Mission.assignedAt m = None ∧ Mission.startedAt m = None
      ∧ Mission.completedAt m = None ∧ Mission.cancelledAt m = None
      ∧ Mission.robotId m = None
  | assigned =>
      is_Some (Mission.assignedAt m) ∧ Mission.startedAt m = None
      ∧ Mission.completedAt m = None ∧ Mission.cancelledAt m = None
      ∧ is_Some (Mission.robotId m)
  | in_progress =>
      is_Some (Mission.assignedAt m) ∧ is_Some (Mission.startedAt m)
      ∧ Mission.completedAt m = None ∧ Mission.cancelledAt m = None
      ∧ is_Some (Mission.robotId m)
  | completed =>
      is_Some (Mission.assignedAt m) ∧ is_Some (Mission.startedAt m)
      ∧ is_Some (Mission.completedAt m) ∧ Mission.cancelledAt m = None
      ∧ is_Some (Mission.robotId m)
  | cancelled =>
      is_Some (Mission.cancelledAt m) ∧ Mission.completedAt m = None
      ∧ (is_Some (Mission.startedAt m) → is_Some (Mission.assignedAt m))
      ∧ (is_Some (Mission.assignedAt m) ↔ is_Some (Mission.robotId m))
  end.

(** [a] is not after [b], when both are set. *)
Definition not_after (a b : option Time) : Prop :=
  ∀ x y, a = Some x → b = Some y → (x ≤ y)%Z.

(** The timestamps of a mission are in the order of its life, and none is
    later than [now]. *)
Definition mission_ordered (now : Time) (m : Mission.t) : Prop :=
  (Mission.createdAt m ≤ now)%Z
  ∧ not_after (Some (Mission.createdAt m)) (Mission.assignedAt m)
  ∧ not_after (Mission.assignedAt m) (Mission.startedAt m)
  ∧ not_after (Mission.startedAt m) (Mission.completedAt m)
  ∧ not_after (Some (Mission.createdAt m)) (Mission.cancelledAt m)
  ∧ not_after (Mission.assignedAt m) (Mission.cancelledAt m)
  ∧ not_after (Mission.startedAt m) (Mission.cancelledAt m)
  ∧ not_after (Mission.assignedAt m) (Some now)
  ∧ not_after (Mission.startedAt m) (Some now)
  ∧ not_after (Mission.completedAt m) (Some now)
  ∧ not_after (Mission.cancelledAt m) (Some now).

(** The clock does not go back: each time of the list is at least [from]
    and at least the one before it. *)
Fixpoint nondecreasing (from : Time) (times : list Time) : bool :=
  match times with
  | [] => true
  | t :: rest => bool_decide (from ≤ t)%Z && nondecreasing t rest
  end.

(** The mission ID a call of the registry addresses; cleanup addresses
    none in particular. *)
Definition addressed (c : MissionManager.Call) : option string :=
  match c with
  | MissionManager.CreateMission uuid _ => Some ("mission-" ++ substring 0 8 uuid)
  | MissionManager.AssignMission m _ => Some m
  | MissionManager.StartMission m => Some m
  | MissionManager.CompleteMission m => Some m
  | MissionManager.CancelMission m => Some m
  | MissionManager.CleanupCompletedMissions _ => None
  end.

Definition isCreate (c : MissionManager.Call) : bool :=
  match c with MissionManager.CreateMission _ _ => true | _ => false end.

(** An outcome of [Math.random()]: a number from 0 inclusive to 1
    exclusive. *)
Definition unit_interval (rnd : QArith_base.Q) : Prop :=
  QArith_base.Qle (QArith_base.inject_Z 0) rnd
  ∧ QArith_base.Qlt rnd (QArith_base.inject_Z 1).

(** The number of robots of a list that have a given status. *)
Definition countStatus (status : RobotStatus) (robots : list Robot.t) : nat :=
  length (filter (fun robot => Robot.getStatus robot = status) robots).

(** A registry as [initializeFleet(n)] at [now] leaves it when it starts
    from an empty one. *)
Definition freshFleet (n : nat) (now : Time) : list (string * Robot.t) :=
  (fun i => (FleetManager.robotIdOf i, Robot.constructor (FleetManager.robotIdOf i) now))
    <$> seq 1 n.

(** The running flag of an engine with its three timers. *)
Definition lifecycle (e : SimulationEngine.t) : bool * option Z * option Z * option Z :=
  (SimulationEngine.isSimulationRunning e, SimulationEngine.missionGenerationTimer e,
   SimulationEngine.stateTransitionTimer e, SimulationEngine.cleanupTimer e).

(** The timestamp of the mission and the bounds of the dwell time that
    decide when a robot of a given status is advanced by the sweep. *)
Definition dwell_stamp (status : RobotStatus) (mission : Mission.t) : option Time :=
  match status with
  | IDLE => None
  | ASSIGNED => Mission.assignedAt mission
  | EN_ROUTE => Mission.startedAt mission
  | DELIVERING => Mission.startedAt mission
  | COMPLETED => Mission.completedAt mission
  end.

Definition dwell_range (status : RobotStatus) : Z * Z :=
  match status with
  | IDLE => (0, 0)%Z
  | ASSIGNED => SimulationEngine.ASSIGNED_TO_EN_ROUTE
  | EN_ROUTE => SimulationEngine.EN_ROUTE_TO_DELIVERING
  | DELIVERING => SimulationEngine.DELIVERING_TO_COMPLETED
  | COMPLETED => SimulationEngine.COMPLETED_TO_IDLE
  end.

(** No robot has stayed in its status for the minimum dwell time yet:
    whenever a robot is bound to a mission of the registry that carries the
    timestamp its status is measured from, less than the minimum of the
    range has elapsed since. *)
Definition nothing_due (now : Time) (e : SimulationEngine.t) : Prop :=
  ∀ slot key robot missionId mission stamp,
    SimulationEngine.fleetManager e !! slot = Some (key, robot) →
    Robot.currentMissionId robot = Some missionId →
    SimulationEngine.missionManager e !! missionId = Some mission →
    dwell_stamp (Robot.status robot) mission = Some stamp →
    (now - stamp < (dwell_range (Robot.status robot)).1)%Z.

(** The elementary changes the engine and its listeners make to the two
    registries: a method call on the robot object of a slot, a call on the
    fleet registry, a call on the mission registry. *)
Inductive registry_step
  : list (string * Robot.t) * gmap string Mission.t →
    list (string * Robot.t) * gmap string Mission.t → Prop :=
  | step_robot fm mm slot key robot c now :
      fm !! slot = Some (key, robot) →
      registry_step (fm, mm) (<[slot := (key, (Robot.exec c now robot).1)]> fm, mm)
  | step_fleet fm mm c now :
      registry_step (fm, mm) ((FleetManager.exec c now fm).1, mm)
  | step_missions fm mm c now :
      registry_step (fm, mm) (fm, MissionManager.exec c now mm).

Definition registries (e : SimulationEngine.t)
  : list (string * Robot.t) * gmap string Mission.t :=
  (SimulationEngine.fleetManager e, SimulationEngine.missionManager e).

(** The registries are well formed: the fleet has the usual shape, every
    robot is IDLE exactly when it has no mission, and every mission is
    stored under its ID with the optional fields of its status. *)
Definition registries_wf (s : list (string * Robot.t) * gmap string Mission.t) : Prop :=
  fleet_inv s.1
  ∧ Forall (fun entry => robot_inv entry.2) s.1
  ∧ map_Forall (fun k m => Mission.id m = k ∧ mission_stamps m) s.2.

(** [method] is the method of the state machine that the call [c]
    stands for. *)
Definition is_method (method : Robot.t → Robot.Step unit) (c : Robot.Call) (now : Time)
  : Prop :=
  ∀ r, (method r).1.2 = (Robot.exec c now r).1 ∧ (method r).2 = (Robot.exec c now r).2.

(** The events of the engine's own life cycle, among those it emits. *)
Definition isLifecycleEvent (ev : SimulationEngine.Event) : Prop :=
  match ev with
  | SimulationEngine.simulationStarted | SimulationEngine.simulationStopped => True
  | _ => False
  end.

#[global] Instance isLifecycleEvent_dec ev : Decision (isLifecycleEvent ev).
Proof. destruct ev; apply _. Defined.

Definition lifecycleEvents (e : SimulationEngine.t) : list SimulationEngine.Event :=
  filter isLifecycleEvent (SimulationEngine.emitted e).

(** The life-cycle events of [n] complete runs, followed by the start of
    one more when the engine is [running]. *)
Definition runsSoFar (n : nat) (running : bool) : list SimulationEngine.Event :=
  (concat (replicate n [SimulationEngine.simulationStarted;
                        SimulationEngine.simulationStopped])
   ++ if running then [SimulationEngine.simulationStarted] else [])%list.

(** What the timer callbacks and the calls on the registries leave alone:
    the running flag, the timers and the life-cycle events emitted. *)
Definition control (e : SimulationEngine.t)
  : bool * option Z * option Z * option Z * list SimulationEngine.Event :=
  (lifecycle e, lifecycleEvents e).

(** The mission object [createMission()] builds at [now] from the outcomes
    [uuid] and [rnd]; it does not depend on the registry. *)
Definition newMission (uuid : string) (rnd : QArith_base.Q) (now : Time) : Mission.t :=
  (MissionManager.createMission uuid rnd now MissionManager.constructor).1.

(** A mission after the three assignments of a successful
    [assignMission(missionId, robotId)] at [now]. *)
Definition assignedMission (robotId : string) (now : Time) (m : Mission.t) : Mission.t :=
  Mission.setRobotId robotId (Mission.setAssignedAt now (Mission.setStatus assigned m)).

(** A third UUID, whose first eight characters differ from those of
    [uuidA]. *)
Definition uuidC : string := "7b6d4e20-3333-4eee-afff-000000000003".

(** The count of the statistics for a status. *)
Definition statOf (status : RobotStatus) (stats : FleetStatistics.t) : nat :=
  match status with
  | IDLE => FleetStatistics.idle stats
  | ASSIGNED => FleetStatistics.assigned stats
  | EN_ROUTE => FleetStatistics.en_route stats
  | DELIVERING => FleetStatistics.delivering stats
  | COMPLETED => FleetStatistics.completed stats
  end.

(** A tick that is no call of a client on a registry and creates no
    mission with the ID [missionId]: a timer firing, or a start or stop of
    the engine. *)
Definition leavesAlone (missionId : string) (now : Time) (k : SimulationEngine.Tick) : Prop :=
  match k with
  | SimulationEngine.ClientCall SimulationEngine.Start
  | SimulationEngine.ClientCall SimulationEngine.Stop => True
  | SimulationEngine.ClientCall _ => False
  | SimulationEngine.MissionGenerationTimer first second =>
      Mission.id (newMission first.1 first.2 now) ≠ missionId
      ∧ Mission.id (newMission second.1 second.2 now) ≠ missionId
  | SimulationEngine.StateTransitionTimer _ | SimulationEngine.CleanupTimer => True
  end.

(** The robot in [slot] is [robot], and the registry has no mission
    [missionId]. *)
Definition orphaned (slot : nat) (key : string) (robot : Robot.t) (missionId : string)
    (e : SimulationEngine.t) : Prop :=
  SimulationEngine.fleetManager e !! slot = Some (key, robot)
  ∧ SimulationEngine.missionManager e !! missionId = None.

(** An engine whose robot-001 was handed, through the fleet registry, a
    mission that the mission registry does not hold; and a sequence of
    timer firings. *)
Definition orphan_engine : SimulationEngine.t :=
  SimulationEngine.run
    [(900, SimulationEngine.OnFleet (FleetManager.InitializeFleet 2));
     (1001, SimulationEngine.OnFleet (FleetManager.AssignMissionToAvailableRobot mission1));
     (1002, SimulationEngine.Start)]%Z
    engine0.

Definition orphan_ticks : list (Time * SimulationEngine.Tick) :=
  [(100000, SimulationEngine.StateTransitionTimer (fun _ _ => half));
   (400000, SimulationEngine.CleanupTimer);
   (500000, SimulationEngine.MissionGenerationTimer (uuidC, half) (uuidC, half));
   (600000, SimulationEngine.StateTransitionTimer (fun _ _ => half))]%Z.

(** The status of the mission of a busy robot while robot and mission are
    advanced together. *)
Definition stepOf (status : RobotStatus) : MissionStatus :=
  match status with
  | IDLE => created
  | ASSIGNED => assigned
  | EN_ROUTE | DELIVERING => in_progress
  | COMPLETED => completed
  end.

Definition active (m : Mission.t) : Prop :=
  Mission.status m = assigned ∨ Mission.status m = in_progress.

(** A robot is in step with the registry: it is IDLE exactly when it has
    no mission; the mission of a busy robot is in the registry, in the
    status that goes with the robot's and assigned to this robot, except
    that the mission of a COMPLETED robot may have been cleaned up. *)
Definition in_step (mm : gmap string Mission.t) (robot : Robot.t) : Prop :=
  match Robot.currentMissionId robot with
  | None => Robot.status robot = IDLE
  | Some missionId =>
      Robot.status robot ≠ IDLE
      ∧ match mm !! missionId with
        | Some m => Mission.status m = stepOf (Robot.status robot)
                    ∧ Mission.robotId m = Some (Robot.id robot)
        | None => Robot.status robot = COMPLETED
        end
  end.

(** The two registries are in step: every robot is, no two robots are
    bound to the same mission, and every assigned or in_progress mission is
    the mission of some robot. *)
Definition in_sync (fm : list (string * Robot.t)) (mm : gmap string Mission.t) : Prop :=
  (∀ slot key robot, fm !! slot = Some (key, robot) → in_step mm robot)
  ∧ (∀ s1 s2 k1 k2 r1 r2 missionId,
       fm !! s1 = Some (k1, r1) → fm !! s2 = Some (k2, r2) →
       Robot.currentMissionId r1 = Some missionId →
       Robot.currentMissionId r2 = Some missionId → s1 = s2)
  ∧ (∀ missionId m, mm !! missionId = Some m → active m →
       ∃ slot key robot, fm !! slot = Some (key, robot)
                         ∧ Robot.currentMissionId robot = Some missionId).

(** No mission of the registry and no robot of the fleet carries the
    mission ID. *)
Definition fresh (missionId : string) (e : SimulationEngine.t) : bool :=
  match SimulationEngine.missionManager e !! missionId with
  | None => true
  | Some _ => false
  end
  && forallb (fun entry : string * Robot.t =>
                negb (bool_decide (Robot.currentMissionId entry.2 = Some missionId)))
       (SimulationEngine.fleetManager e).

(** Normal operation: the registries are driven by the engine alone. The
    clients start and stop the engine and cancel the missions of robots;
    the timers fire; and the missions generated get IDs that differ from
    each other and are in use nowhere. *)
Definition allowed (now : Time) (k : SimulationEngine.Tick) (e : SimulationEngine.t) : bool :=
  match k with
  | SimulationEngine.ClientCall SimulationEngine.Start
  | SimulationEngine.ClientCall SimulationEngine.Stop
  | SimulationEngine.ClientCall
      (SimulationEngine.OnFleet (FleetManager.CancelRobotMission _)) => true
  | SimulationEngine.ClientCall _ => false
  | SimulationEngine.MissionGenerationTimer first second =>
      let id1 := Mission.id (newMission first.1 first.2 now) in
      let id2 := Mission.id (newMission second.1 second.2 now) in
      negb (bool_decide (id1 = id2)) && fresh id1 e && fresh id2 e
  | SimulationEngine.StateTransitionTimer _ | SimulationEngine.CleanupTimer => true
  end.

Fixpoint normalOperation (ticks : list (Time * SimulationEngine.Tick))
    (e : SimulationEngine.t) : bool :=
  match ticks with
  | [] => true
  | (now, k) :: rest =>
      allowed now k e && normalOperation rest (SimulationEngine.tick k now e)
  end.

(** What the body of a loop of the sweep does for a robot of the status
    of the loop: it returns, the registries stay in step, and the robots
    of the other slots are not touched. *)
Definition advances (phase : RobotStatus)
    (advance : string → nat → Time → SimulationEngine.t → Result unit * SimulationEngine.t)
  : Prop :=
  ∀ mid slot now e key robot m,
    in_sync (SimulationEngine.fleetManager e) (SimulationEngine.missionManager e) →
    SimulationEngine.fleetManager e !! slot = Some (key, robot) →
    Robot.status robot = phase →
    Robot.currentMissionId robot = Some mid →
    SimulationEngine.missionManager e !! mid = Some m →
    ∃ e', advance mid slot now e = (Return tt, e')
          ∧ in_sync (SimulationEngine.fleetManager e') (SimulationEngine.missionManager e')
          ∧ ∀ s, s ≠ slot →
                 SimulationEngine.fleetManager e' !! s
                 = SimulationEngine.fleetManager e !! s.

(** A run in normal operation of an engine over two robots: two missions
    are generated, one robot is driven through its mission and the mission
    of the other is cancelled; then the missions are cleaned up. *)
Definition normal_ticks : list (Time * SimulationEngine.Tick) :=
  [(1000, SimulationEngine.ClientCall SimulationEngine.Start);
   (61000, SimulationEngine.MissionGenerationTimer (uuidA, half) (uuidC, half));
   (121000, SimulationEngine.StateTransitionTimer (fun _ _ => half));
   (131000, SimulationEngine.ClientCall
              (SimulationEngine.OnFleet (FleetManager.CancelRobotMission "robot-002")));
   (231000, SimulationEngine.StateTransitionTimer (fun _ _ => half));
   (531000, SimulationEngine.StateTransitionTimer (fun _ _ => half));
   (4000000, SimulationEngine.CleanupTimer)]%Z.

(** * Properties *)

#[local] Set Warnings "-clear-no-such-hyp".

Section RobotInvariant.

Lemma robot_inv_constructor id now : robot_inv (Robot.constructor id now).
Proof. by split. Qed.

Lemma robot_inv_exec c now r :
  robot_inv r → robot_inv (Robot.exec c now r).1.
Proof.
  intros Hr. unfold robot_inv in *. destruct r as [i s m c0 l].
  destruct c; cbn;
    [unfold Robot.assignMission | unfold Robot.startMission
    | unfold Robot.startDelivering | unfold Robot.completeMission
    | unfold Robot.returnToIdle | unfold Robot.cancelCurrentMission];
    cbn in *; case_decide; cbn; subst; try done;
    destruct Hr as [H1 H2]; split; intros ?; try done;
    match goal with H : ?m = None |- _ => specialize (H2 H); done end.
Qed.

Lemma robot_inv_run calls : ∀ r, robot_inv r → robot_inv (Robot.run calls r).
Proof.
  induction calls as [|[now c] calls IH]; intros r Hr; [done|].
  cbn. apply IH. by apply robot_inv_exec.
Qed.

End RobotInvariant.

(** C1. Every robot reached from a freshly constructed one by any sequence
    of assignMission, startMission, startDelivering, completeMission,
    returnToIdle and cancelCurrentMission calls has status IDLE if and only
    if its currentMissionId is null. *)
Theorem robot_idle_iff_no_mission (id : string) (t0 : Time) (calls : list (Time * Robot.Call)) :
  let r := Robot.run calls (Robot.constructor id t0) in
  Robot.status r = IDLE ↔ Robot.currentMissionId r = None.
Proof. apply robot_inv_run, robot_inv_constructor. Qed.

(** ** The mission registry *)

Section MissionRegistry.
Implicit Types (mm : gmap string Mission.t) (m : Mission.t).

(** What the cleanup loop computes, for any map [acc] it deletes from
    while walking [mm]. *)
Lemma cleanup_loop cutoffTime (acc : gmap string Mission.t) mm :
  let r := map_fold (MissionManager.cleanupBody cutoffTime) (0, acc) mm in
  r.1 = size (filter (fun kv => MissionManager.expired cutoffTime kv.2) mm)
  ∧ ∀ k, r.2 !! k =
         match mm !! k with
         | Some m => if decide (MissionManager.expired cutoffTime m)
                     then None else acc !! k
         | None => acc !! k
         end.
Proof.
  cbv zeta. revert mm.
  apply (map_fold_weak_ind
    (fun (r : nat * gmap string Mission.t) (mm : gmap string Mission.t) =>
       r.1 = size (filter (fun kv => MissionManager.expired cutoffTime kv.2) mm)
       ∧ ∀ k, r.2 !! k =
              match mm !! k with
              | Some m => if decide (MissionManager.expired cutoffTime m)
                          then None else acc !! k
              | None => acc !! k
              end)).
  - cbn. split; [by rewrite map_filter_empty, map_size_empty|].
    intros k. by rewrite lookup_empty.
  - intros i x mm [c cur] Hi [Hc Hl]. cbn in Hc, Hl.
    unfold MissionManager.cleanupBody. case_decide as Hx; cbn.
    + split.
      * rewrite map_filter_insert_True by done.
        rewrite map_size_insert_None; [by rewrite Hc|].
        apply map_lookup_filter_None. left. done.
      * intros k. destruct (decide (i = k)) as [->|Hne].
        -- rewrite lookup_delete_eq, lookup_insert_eq. by rewrite decide_True.
        -- rewrite lookup_delete_ne, lookup_insert_ne by done. apply Hl.
    + split.
      * rewrite map_filter_insert_False by done.
        by rewrite delete_id.
      * intros k. destruct (decide (i = k)) as [->|Hne].
        -- rewrite lookup_insert_eq, decide_False by done.
           specialize (Hl k). by rewrite Hi in Hl.
        -- rewrite lookup_insert_ne by done. apply Hl.
Qed.

Lemma cleanup_lookup olderThanMs now mm k :
  let cutoffTime := (now - default MissionManager.DEFAULT_OLDER_THAN_MS olderThanMs)%Z in
  (MissionManager.cleanupCompletedMissions olderThanMs now mm).2 !! k =
    match mm !! k with
    | Some m => if decide (MissionManager.expired cutoffTime m) then None else Some m
    | None => None
    end.
Proof.
  cbv zeta. unfold MissionManager.cleanupCompletedMissions.
  destruct (cleanup_loop
    (now - default MissionManager.DEFAULT_OLDER_THAN_MS olderThanMs) mm mm) as [_ Hl].
  cbv zeta in Hl. rewrite Hl. destruct (mm !! k) eqn:E; [|done].
  by case_decide.
Qed.

Lemma cleanup_kept olderThanMs now mm :
  let cutoffTime := (now - default MissionManager.DEFAULT_OLDER_THAN_MS olderThanMs)%Z in
  (MissionManager.cleanupCompletedMissions olderThanMs now mm).2 =
    filter (fun kv => ¬ MissionManager.expired cutoffTime kv.2) mm.
Proof.
  cbv zeta. apply map_eq. intros k. rewrite cleanup_lookup. cbv zeta.
  rewrite map_lookup_filter. destruct (mm !! k) as [m|]; cbn; [|done].
  case_decide.
  - by rewrite option_guard_False by tauto.
  - by rewrite option_guard_True.
Qed.

Lemma cleanup_count olderThanMs now mm :
  let cutoffTime := (now - default MissionManager.DEFAULT_OLDER_THAN_MS olderThanMs)%Z in
  (MissionManager.cleanupCompletedMissions olderThanMs now mm).1 =
    size (filter (fun kv => MissionManager.expired cutoffTime kv.2) mm).
Proof.
  cbv zeta. unfold MissionManager.cleanupCompletedMissions.
  by destruct (cleanup_loop
    (now - default MissionManager.DEFAULT_OLDER_THAN_MS olderThanMs) mm mm) as [-> _].
Qed.

Lemma mission_inv_exec c now mm :
  map_Forall (fun _ m => mission_inv m) mm →
  map_Forall (fun _ m => mission_inv m) (MissionManager.exec c now mm).
Proof.
  intros Hmm. destruct c as [uuid rnd|mid rid|mid|mid|mid|o]; cbn.
  - apply map_Forall_insert_2; [|done]. repeat split; cbn; naive_solver.
  - unfold MissionManager.assignMission.
    destruct (mm !! mid) as [m|] eqn:E; [|done].
    case_decide; [done|]. cbn.
    apply map_Forall_insert_2; [|done]. repeat split; cbn; naive_solver.
  - unfold MissionManager.startMission.
    destruct (mm !! mid) as [m|] eqn:E; [|done].
    case_decide as Hs; [done|]. cbn.
    apply map_Forall_insert_2; [|done].
    destruct (Hmm _ _ E) as (H1 & H2 & H3).
    assert (Mission.status m = assigned) as Hst by (by destruct (Mission.status m)).
    repeat split; cbn; naive_solver.
  - unfold MissionManager.completeMission.
    destruct (mm !! mid) as [m|] eqn:E; [|done].
    case_decide as Hs; [done|]. cbn.
    apply map_Forall_insert_2; [|done].
    destruct (Hmm _ _ E) as (H1 & H2 & H3).
    assert (Mission.status m = in_progress) as Hst by (by destruct (Mission.status m)).
    repeat split; cbn; naive_solver.
  - unfold MissionManager.cancelMission.
    destruct (mm !! mid) as [m|] eqn:E; [|done].
    case_decide as Hs; [done|]. cbn.
    apply map_Forall_insert_2; [|done].
    destruct (Hmm _ _ E) as (H1 & H2 & H3).
    repeat split; cbn; naive_solver.
  - intros k m Hk. rewrite cleanup_lookup in Hk. cbv zeta in Hk.
    destruct (mm !! k) as [m'|] eqn:E; [|done].
    case_decide; simplify_eq. by apply (Hmm k).
Qed.

Lemma mission_inv_run calls : ∀ mm,
  map_Forall (fun _ m => mission_inv m) mm →
  map_Forall (fun _ m => mission_inv m) (MissionManager.run calls mm).
Proof.
  induction calls as [|[now c] calls IH]; intros mm Hmm; [done|].
  cbn. apply IH. by apply mission_inv_exec.
Qed.

End MissionRegistry.

Lemma completed_registry_lookup :
  completed_registry !! "mission-3f2a9c1e" = Some completed_mission.
Proof. by vm_compute. Qed.

(** C3, as amended. In every registry reached from the empty one by
    createMission, assignMission, startMission, completeMission,
    cancelMission (and cleanup) calls, a mission whose status is ASSIGNED or
    IN_PROGRESS has a robotId, and a mission that has a robotId has left
    the 'created' status and has its assignedAt set. The converse of the
    first part is not maintained: no operation clears robotId, so completed
    and cancelled missions keep it. *)
Theorem mission_active_has_robot
    (calls : list (Time * MissionManager.Call)) (missionId : string) (m : Mission.t) :
  MissionManager.run calls MissionManager.constructor !! missionId = Some m →
  (Mission.status m = assigned ∨ Mission.status m = in_progress →
     Mission.robotId m ≠ None)
  ∧ (Mission.robotId m ≠ None →
     Mission.status m ≠ created ∧ Mission.assignedAt m ≠ None).
Proof.
  intros Hm.
  pose proof (mission_inv_run calls MissionManager.constructor) as Hinv.
  destruct (Hinv (map_Forall_empty _) _ _ Hm) as (H1 & H2 & _). by split.
Qed.

Lemma mission_active_has_robot_witness :
  (Mission.status completed_mission = assigned
   ∨ Mission.status completed_mission = in_progress →
   Mission.robotId completed_mission ≠ None)
  ∧ (Mission.robotId completed_mission ≠ None →
     Mission.status completed_mission ≠ created
     ∧ Mission.assignedAt completed_mission ≠ None).
Proof.
  exact (mission_active_has_robot
    [(1000, MissionManager.CreateMission uuidA half);
     (1010, MissionManager.AssignMission "mission-3f2a9c1e" "robot-001");
     (1020, MissionManager.StartMission "mission-3f2a9c1e");
     (1030, MissionManager.CompleteMission "mission-3f2a9c1e")]%Z
    "mission-3f2a9c1e" completed_mission completed_registry_lookup).
Defined.

(** C3 as stated fails: after create, assign, start and complete, the
    mission is 'completed' and still carries the robot it was assigned to. *)
Lemma completed_mission_keeps_robot :
  completed_registry !! "mission-3f2a9c1e" = Some completed_mission
  ∧ ¬ ((Mission.status completed_mission = assigned
        ∨ Mission.status completed_mission = in_progress)
       ↔ Mission.robotId completed_mission ≠ None).
Proof.
  split; [apply completed_registry_lookup|].
  intros [_ H]. destruct H as [H|H]; [done|discriminate H|discriminate H].
Qed.

(** C4. cancelCurrentMission on an IDLE robot returns normally, emits
    nothing and leaves the robot as it was; cancelMission on a mission of
    the registry that is completed or cancelled returns normally and leaves
    the whole registry, that mission included, as it was. *)
Theorem cancel_is_noop_when_settled :
  (∀ (now : Time) (r : Robot.t),
     Robot.status r = IDLE →
     Robot.cancelCurrentMission now r = (Return tt, r, []))
  ∧ (∀ (now : Time) (mm : gmap string Mission.t) (missionId : string) (m : Mission.t),
       mm !! missionId = Some m →
       Mission.status m = completed ∨ Mission.status m = cancelled →
       MissionManager.cancelMission missionId now mm = (Return tt, mm)).
Proof.
  split.
  - intros now r Hr. unfold Robot.cancelCurrentMission. by rewrite decide_True.
  - intros now mm missionId m Hm Hs. unfold MissionManager.cancelMission.
    rewrite Hm. by rewrite decide_True.
Qed.

Lemma cancel_is_noop_when_settled_witness :
  Robot.cancelCurrentMission 2000 (Robot.constructor "robot-001" 1000)
    = (Return tt, Robot.constructor "robot-001" 1000, [])
  ∧ MissionManager.cancelMission "mission-3f2a9c1e" 2000 completed_registry
    = (Return tt, completed_registry).
Proof.
  destruct cancel_is_noop_when_settled as [Hr Hm]. split.
  - apply Hr. reflexivity.
  - apply (Hm _ _ _ completed_mission completed_registry_lookup). left. reflexivity.
Defined.

(** C6. completeMission on a mission whose status is 'created' throws, the
    fault is an InvalidTransition, and the registry is unchanged; each of
    assignMission, startMission, completeMission and cancelMission called
    with an ID that is not in the registry throws "Mission [id] not found",
    a NotFound fault, and leaves the registry unchanged. *)
Theorem mission_transition_rejection
    (now : Time) (mm : gmap string Mission.t) (missionId robotId : string) :
  (∀ m, mm !! missionId = Some m → Mission.status m = created →
     MissionManager.completeMission missionId now mm
       = (Throw (MissionCannotBeCompleted missionId created), mm)
     ∧ kind (MissionCannotBeCompleted missionId created) = InvalidTransition)
  ∧ (mm !! missionId = None →
     MissionManager.assignMission missionId robotId now mm
       = (Throw (MissionNotFound missionId), mm)
     ∧ MissionManager.startMission missionId now mm
       = (Throw (MissionNotFound missionId), mm)
     ∧ MissionManager.completeMission missionId now mm
       = (Throw (MissionNotFound missionId), mm)
     ∧ MissionManager.cancelMission missionId now mm
       = (Throw (MissionNotFound missionId), mm)
     ∧ kind (MissionNotFound missionId) = NotFound).
Proof.
  split.
  - intros m Hm Hs.
    unfold MissionManager.completeMission. rewrite Hm, Hs. by rewrite decide_True.
  - intros Hm.
    unfold MissionManager.assignMission, MissionManager.startMission,
      MissionManager.completeMission, MissionManager.cancelMission.
    by rewrite Hm.
Qed.

Lemma mission_transition_rejection_witness :
  (MissionManager.completeMission "mission-3f2a9c1e" 1500 created_registry
     = (Throw (MissionCannotBeCompleted "mission-3f2a9c1e" created), created_registry)
   ∧ kind (MissionCannotBeCompleted "mission-3f2a9c1e" created) = InvalidTransition)
  ∧ MissionManager.startMission "invalid-id" 1500 created_registry
    = (Throw (MissionNotFound "invalid-id"), created_registry).
Proof.
  split.
  - destruct (mission_transition_rejection 1500 created_registry
                "mission-3f2a9c1e" "robot-001") as [H _].
    eapply H; by vm_compute.
  - destruct (mission_transition_rejection 1500 created_registry
                "invalid-id" "robot-001") as [_ H].
    apply H. by vm_compute.
Defined.

(** C7, as amended. For every registry and every maxAgeMs,
    cleanupCompletedMissions(maxAgeMs) removes exactly the missions whose
    status is completed or cancelled and whose createdAt is strictly before
    now - maxAgeMs, leaves every other mission present and unchanged, and
    returns the number of missions removed. With maxAgeMs = 0 it removes the
    terminal missions created strictly before now; a terminal mission
    created at the very instant of the call stays. *)
Theorem cleanup_removes_expired
    (mm : gmap string Mission.t) (maxAgeMs : Z) (now : Time) :
  let cutoffTime := (now - maxAgeMs)%Z in
  let r := MissionManager.cleanupCompletedMissions (Some maxAgeMs) now mm in
  (∀ k, r.2 !! k =
        match mm !! k with
        | Some m =>
            if decide ((Mission.status m = completed ∨ Mission.status m = cancelled)
                       ∧ (Mission.createdAt m < cutoffTime)%Z)
            then None else Some m
        | None => None
        end)
  ∧ r.1 = size (filter (fun kv => MissionManager.expired cutoffTime kv.2) mm)
  ∧ size mm = r.1 + size r.2
  ∧ (∀ k, (MissionManager.cleanupCompletedMissions (Some 0%Z) now mm).2 !! k =
          match mm !! k with
          | Some m =>
              if decide ((Mission.status m = completed ∨ Mission.status m = cancelled)
                         ∧ (Mission.createdAt m < now)%Z)
              then None else Some m
          | None => None
          end).
Proof.
  cbv zeta. repeat split.
  - intros k. rewrite cleanup_lookup. cbn. destruct (mm !! k); [|done].
    unfold MissionManager.expired. by repeat case_decide.
  - apply cleanup_count.
  - rewrite cleanup_count, cleanup_kept. cbn.
    rewrite <- map_size_disj_union by apply map_disjoint_filter_complement.
    by rewrite map_filter_union_complement.
  - intros k. rewrite cleanup_lookup. cbn. destruct (mm !! k) as [m|]; [|done].
    unfold MissionManager.expired. rewrite Z.sub_0_r. by repeat case_decide.
Qed.

(** C7 as stated fails in its last part: called with maxAgeMs = 0 in the
    millisecond in which a mission was created and cancelled, the cleanup
    removes nothing and the cancelled mission is still registered. *)
Lemma cleanup_zero_keeps_mission_of_same_instant :
  let r := MissionManager.cleanupCompletedMissions (Some 0%Z) 1000 fresh_cancelled_registry in
  r.1 = 0
  ∧ ∃ m, r.2 !! "mission-3f2a9c1e" = Some m
         ∧ Mission.status m = cancelled ∧ Mission.createdAt m = 1000%Z.
Proof. cbv zeta. split; [by vm_compute|]. eexists. by vm_compute. Qed.

(** Mission IDs keep only the first eight characters of the UUID. *)
Lemma createMission_id uuid rnd now (mm : gmap string Mission.t) :
  Mission.id (MissionManager.createMission uuid rnd now mm).1
  = "mission-" ++ substring 0 8 uuid.
Proof. reflexivity. Qed.

(** C8 fails on the code. Two distinct version-4 UUIDs that agree on their
    first eight characters give the second mission the ID of the first, and
    createMission overwrites the first mission (here already assigned to a
    robot) with the new one: the registry holds a single, 'created'
    mission. *)
Theorem createMission_id_collision :
  let '(m1, mm1) := MissionManager.createMission uuidA half 1000 MissionManager.constructor in
  let mm2 := (MissionManager.assignMission (Mission.id m1) "robot-001" 1010 mm1).2 in
  let '(m2, mm3) := MissionManager.createMission uuidB half 1020 mm2 in
  isUuidV4 uuidA = true ∧ isUuidV4 uuidB = true ∧ uuidA ≠ uuidB
  ∧ Mission.id m2 = Mission.id m1
  ∧ (Mission.status <$> mm2 !! Mission.id m1) = Some assigned
  ∧ mm3 !! Mission.id m1 = Some m2
  ∧ Mission.status m2 = created
  ∧ size mm3 = 1.
Proof. by vm_compute. Qed.

(** ** Scheduler lifecycle *)

(** C9, as amended. start() on an engine that is running throws
    "Simulation is already running", an AlreadyRunning fault, and changes
    nothing; stop() on an engine that is not running throws nothing: it
    returns normally and leaves the engine as it was. *)
Theorem engine_lifecycle_misuse (e : SimulationEngine.t) :
  (SimulationEngine.isRunning e = true →
     SimulationEngine.start e = (Throw SimulationAlreadyRunning, e)
     ∧ kind SimulationAlreadyRunning = AlreadyRunning)
  ∧ (SimulationEngine.isRunning e = false →
     SimulationEngine.stop e = (Return tt, e)).
Proof.
  unfold SimulationEngine.isRunning, SimulationEngine.start, SimulationEngine.stop.
  split; intros ->; done.
Qed.

Lemma engine_lifecycle_misuse_witness :
  let e0 := SimulationEngine.constructor FleetManager.constructor MissionManager.constructor in
  let e1 := (SimulationEngine.start e0).2 in
  SimulationEngine.start e1 = (Throw SimulationAlreadyRunning, e1)
  ∧ SimulationEngine.stop e0 = (Return tt, e0).
Proof.
  cbv zeta. split.
  - apply (engine_lifecycle_misuse _). reflexivity.
  - apply (engine_lifecycle_misuse _). reflexivity.
Defined.

(** C9 as stated fails for stop(): on an engine that was never started it
    returns without throwing. *)
Lemma stop_when_not_running_does_not_throw :
  let e0 := SimulationEngine.constructor FleetManager.constructor MissionManager.constructor in
  SimulationEngine.isRunning e0 = false
  ∧ raises (SimulationEngine.stop e0).1 = false
  ∧ ¬ ∃ err, (SimulationEngine.stop e0).1 = Throw err.
Proof. cbv zeta. repeat split. intros [err H]. discriminate H. Qed.

(** ** Insertion-ordered maps *)

Section JsMapFacts.
Context {V : Type}.
Implicit Types (m : list (string * V)) (k : string) (v : V).

Lemma get_set_eq k v m : JsMap.get k (JsMap.set k v m) = Some v.
Proof.
  induction m as [|[k' v'] m IH]; cbn.
  - by rewrite decide_True.
  - case_decide; cbn; [by rewrite decide_True|]. by rewrite decide_False.
Qed.

Lemma get_set_ne k k' v m : k ≠ k' → JsMap.get k' (JsMap.set k v m) = JsMap.get k' m.
Proof.
  intros Hne. induction m as [|[k0 v0] m IH]; cbn.
  - by rewrite decide_False.
  - case_decide; cbn; subst.
    + by rewrite !decide_False.
    + case_decide; [done|]. apply IH.
Qed.

Lemma get_None_keys k m : JsMap.get k m = None ↔ k ∉ JsMap.keys m.
Proof.
  unfold JsMap.keys. induction m as [|[k0 v0] m IH]; cbn.
  - split; [intros _; apply not_elem_of_nil|done].
  - rewrite not_elem_of_cons. case_decide; subst.
    + split; [done|]. by intros [? _].
    + rewrite IH. naive_solver.
Qed.

Lemma get_Some_keys k v m : JsMap.get k m = Some v → k ∈ JsMap.keys m.
Proof.
  intros H. destruct (decide (k ∈ JsMap.keys m)) as [|Hn]; [done|].
  apply get_None_keys in Hn. congruence.
Qed.

Lemma set_keys_in k v m : k ∈ JsMap.keys m → JsMap.keys (JsMap.set k v m) = JsMap.keys m.
Proof.
  unfold JsMap.keys. induction m as [|[k0 v0] m IH]; cbn.
  - by intros ?%elem_of_nil.
  - intros Hin. case_decide; subst; cbn; [done|].
    f_equal. apply IH. apply elem_of_cons in Hin as [?|?]; [congruence|done].
Qed.

Lemma set_notin k v m : k ∉ JsMap.keys m → JsMap.set k v m = (m ++ [(k, v)])%list.
Proof.
  unfold JsMap.keys. induction m as [|[k0 v0] m IH]; cbn; [done|].
  rewrite not_elem_of_cons. intros [Hne Hn].
  rewrite decide_False by done. by rewrite IH.
Qed.

Lemma set_length_in k v m : k ∈ JsMap.keys m → length (JsMap.set k v m) = length m.
Proof.
  intros Hin. rewrite <- (length_fmap fst (JsMap.set k v m)), <- (length_fmap fst m).
  f_equal. by apply set_keys_in.
Qed.

(** With distinct keys, the entry in a slot is the one [get] finds. *)
Lemma get_slot m slot k v :
  NoDup (JsMap.keys m) → m !! slot = Some (k, v) → JsMap.get k m = Some v.
Proof.
  unfold JsMap.keys. revert slot. induction m as [|[k0 v0] m IH]; intros slot Hnd Hs.
  - done.
  - cbn in Hnd. apply NoDup_cons in Hnd as [Hk0 Hnd]. destruct slot as [|slot]; cbn in *.
    + simplify_eq. by rewrite decide_True.
    + case_decide; subst.
      * exfalso. apply Hk0. apply list_elem_of_fmap. exists (k, v).
        split; [done|]. by eapply list_elem_of_lookup_2.
      * by eapply IH.
Qed.

(** Writing to the slot of an entry is [set] on its key. *)
Lemma insert_slot_set m slot k v v' :
  NoDup (JsMap.keys m) → m !! slot = Some (k, v) →
  <[slot := (k, v')]> m = JsMap.set k v' m.
Proof.
  unfold JsMap.keys. revert slot. induction m as [|[k0 v0] m IH]; intros slot Hnd Hs.
  - done.
  - cbn in Hnd. apply NoDup_cons in Hnd as [Hk0 Hnd]. destruct slot as [|slot]; cbn in *.
    + simplify_eq. by rewrite decide_True.
    + case_decide; subst.
      * exfalso. apply Hk0. apply list_elem_of_fmap. exists (k, v).
        split; [done|]. by eapply list_elem_of_lookup_2.
      * f_equal. by eapply IH.
Qed.

Lemma set_Forall (P : string * V → Prop) k v m :
  P (k, v) → Forall P m → Forall P (JsMap.set k v m).
Proof.
  intros HP. induction 1 as [|[k0 v0] m H0 Hm IH]; cbn.
  - by repeat constructor.
  - case_decide; subst; constructor; done.
Qed.

Lemma get_Forall (P : string * V → Prop) k v m :
  Forall P m → JsMap.get k m = Some v → P (k, v).
Proof.
  induction 1 as [|[k0 v0] m H0 Hm IH]; cbn; [done|].
  case_decide; subst; [|done]. by intros [= ->].
Qed.

Lemma get_elem_of k v m : JsMap.get k m = Some v → (k, v) ∈ m.
Proof.
  induction m as [|[k0 v0] m IH]; cbn; [done|].
  case_decide; subst.
  - intros [= ->]. apply elem_of_cons. by left.
  - intros H'. apply elem_of_cons. right. by apply IH.
Qed.

End JsMapFacts.

(** ** The fleet registry *)

Section RobotIds.

Lemma uint_of_zero_padded (k : nat) (s : string) (d : Decimal.uint) :
  NilEmpty.uint_of_string s = Some d →
  ∃ d', NilEmpty.uint_of_string (FleetManager.replicate k "0" ++ s) = Some d'
        ∧ Nat.of_uint d' = Nat.of_uint d.
Proof.
  intros Hs. induction k as [|k (d' & Hd' & Hv)].
  - by exists d.
  - exists (Decimal.D0 d').
    change (FleetManager.replicate (S k) "0" ++ s)
      with (String "0" (FleetManager.replicate k "0" ++ s)).
    change (NilEmpty.uint_of_string (String "0" (FleetManager.replicate k "0" ++ s)))
      with (uint_of_char "0" (NilEmpty.uint_of_string (FleetManager.replicate k "0" ++ s))).
    rewrite Hd'. split; [done|].
    rewrite <- Hv. reflexivity.
Qed.

(** A robot ID reads back as the counter it was made from. *)
Lemma robotIdOf_parse (i : nat) :
  ∃ d, NilEmpty.uint_of_string (FleetManager.padStart 3 "0" (FleetManager.toString i)) = Some d
       ∧ Nat.of_uint d = i.
Proof.
  unfold FleetManager.padStart, FleetManager.toString.
  destruct (uint_of_zero_padded
    (3 - String.length (NilEmpty.string_of_uint (Nat.to_uint i)))
    (NilEmpty.string_of_uint (Nat.to_uint i)) (Nat.to_uint i) (NilEmpty.usu _))
    as (d & Hd & Hv).
  exists d. split; [done|]. rewrite Hv. apply DecimalNat.Unsigned.of_to.
Qed.

#[global] Instance robotIdOf_inj : Inj (=) (=) FleetManager.robotIdOf.
Proof.
  intros i j Hij. unfold FleetManager.robotIdOf in Hij.
  assert (FleetManager.padStart 3 "0" (FleetManager.toString i)
          = FleetManager.padStart 3 "0" (FleetManager.toString j)) as Hpad.
  { revert Hij.
    generalize (FleetManager.padStart 3 "0" (FleetManager.toString i)).
    generalize (FleetManager.padStart 3 "0" (FleetManager.toString j)).
    intros a b H. change (String.append "robot-" b) with
      (String "r" (String "o" (String "b" (String "o" (String "t" (String "-" b)))))) in H.
    change (String.append "robot-" a) with
      (String "r" (String "o" (String "b" (String "o" (String "t" (String "-" a)))))) in H.
    by injection H. }
  clear Hij. rename Hpad into Hij.
  destruct (robotIdOf_parse i) as (di & Hdi & Hi).
  destruct (robotIdOf_parse j) as (dj & Hdj & Hj).
  rewrite Hij in Hdi. rewrite Hdi in Hdj. injection Hdj as ->. congruence.
Qed.

Lemma robotIds_NoDup (n : nat) : NoDup (FleetManager.robotIdOf <$> seq 1 n).
Proof. apply NoDup_fmap_2; [apply _|apply NoDup_seq]. Qed.

Lemma robotId_elem_of (i n : nat) :
  FleetManager.robotIdOf i ∈ FleetManager.robotIdOf <$> seq 1 n ↔ (1 ≤ i ≤ n)%nat.
Proof.
  rewrite list_elem_of_fmap. split.
  - intros (j & Hj%(inj _) & Hin). subst. apply elem_of_seq in Hin. lia.
  - intros H. exists i. split; [done|]. apply elem_of_seq. lia.
Qed.

End RobotIds.

Section FleetFacts.
Implicit Types (fm : list (string * Robot.t)) (now : Time).

Lemma initializeFleet_S n now fm :
  FleetManager.initializeFleet (S n) now fm
  = FleetManager.addRobot now (FleetManager.initializeFleet n now fm) (S n).
Proof.
  unfold FleetManager.initializeFleet. rewrite seq_S, fold_left_app. reflexivity.
Qed.

Lemma initializeFleet_keys m now fm n :
  JsMap.keys fm = FleetManager.robotIdOf <$> seq 1 n →
  JsMap.keys (FleetManager.initializeFleet m now fm)
  = FleetManager.robotIdOf <$> seq 1 (n `max` m).
Proof.
  intros Hk. induction m as [|m IH].
  - by rewrite Nat.max_0_r.
  - rewrite initializeFleet_S. unfold FleetManager.addRobot.
    destruct (decide (S m ≤ n)%nat) as [Hle|Hgt].
    + rewrite set_keys_in.
      * rewrite IH. f_equal. f_equal. lia.
      * rewrite IH. apply robotId_elem_of. lia.
    + rewrite set_notin.
      * unfold JsMap.keys in *. rewrite fmap_app, IH. cbn.
        replace (n `max` m) with m by lia. replace (n `max` S m) with (S m) by lia.
        by rewrite (seq_S m 1), fmap_app.
      * rewrite IH. rewrite robotId_elem_of. lia.
Qed.

Lemma initializeFleet_ids m now fm :
  Forall (fun entry => Robot.id entry.2 = entry.1) fm →
  Forall (fun entry => Robot.id entry.2 = entry.1) (FleetManager.initializeFleet m now fm).
Proof.
  intros H. induction m as [|m IH]; [done|].
  rewrite initializeFleet_S. by apply set_Forall.
Qed.

Lemma initializeFleet_get_new m now fm i :
  (1 ≤ i ≤ m)%nat →
  JsMap.get (FleetManager.robotIdOf i) (FleetManager.initializeFleet m now fm)
  = Some (Robot.constructor (FleetManager.robotIdOf i) now).
Proof.
  induction m as [|m IH]; [lia|]. intros Hi.
  rewrite initializeFleet_S. unfold FleetManager.addRobot.
  destruct (decide (i = S m)) as [->|Hne].
  - apply get_set_eq.
  - rewrite get_set_ne; [apply IH; lia|]. intros Heq%(inj _). lia.
Qed.

Lemma initializeFleet_get_old m now fm k :
  k ∉ FleetManager.robotIdOf <$> seq 1 m →
  JsMap.get k (FleetManager.initializeFleet m now fm) = JsMap.get k fm.
Proof.
  induction m as [|m IH]; [done|]. intros Hk.
  rewrite seq_S, fmap_app, not_elem_of_app in Hk. destruct Hk as [Hk1 Hk2].
  rewrite initializeFleet_S. unfold FleetManager.addRobot.
  rewrite get_set_ne; [by apply IH|].
  intros <-. apply Hk2. cbn. apply list_elem_of_singleton. done.
Qed.

Lemma fleet_inv_NoDup fm : fleet_inv fm → NoDup (JsMap.keys fm).
Proof. intros [-> _]. apply robotIds_NoDup. Qed.

Lemma fleet_inv_initializeFleet m now fm :
  fleet_inv fm → fleet_inv (FleetManager.initializeFleet m now fm).
Proof.
  intros [Hk Hi]. split; [|by apply initializeFleet_ids].
  pose proof (initializeFleet_keys m now fm _ Hk) as Hk'.
  rewrite Hk'. f_equal. f_equal.
  apply (f_equal length) in Hk'. unfold JsMap.keys in Hk'.
  rewrite !length_fmap, length_seq in Hk'. done.
Qed.

Lemma robot_exec_id c now (r : Robot.t) : Robot.id (Robot.exec c now r).1 = Robot.id r.
Proof.
  destruct c; cbn;
    [unfold Robot.assignMission | unfold Robot.startMission
    | unfold Robot.startDelivering | unfold Robot.completeMission
    | unfold Robot.returnToIdle | unfold Robot.cancelCurrentMission];
    by case_decide.
Qed.

(** Replacing the robot stored under a key by one with the same ID. *)
Lemma fleet_inv_set fm k (r r' : Robot.t) :
  fleet_inv fm → JsMap.get k fm = Some r → Robot.id r' = Robot.id r →
  fleet_inv (JsMap.set k r' fm).
Proof.
  intros [Hk Hi] Hget Hid.
  assert (k ∈ JsMap.keys fm) as Hin by by eapply get_Some_keys.
  split.
  - rewrite set_keys_in, set_length_in by done. done.
  - apply set_Forall; [|done]. cbn. rewrite Hid.
    by apply (get_Forall _ _ _ _ Hi Hget).
Qed.

(** The two outcomes of [assignMissionToAvailableRobot]. *)
Lemma assign_cases (mission : Mission.t) now fm :
  (list_find (fun entry => Robot.getStatus entry.2 = IDLE) fm = None
   ∧ FleetManager.assignMissionToAvailableRobot mission now fm = (Return None, fm, []))
  ∨ (∃ slot key idle,
       list_find (fun entry => Robot.getStatus entry.2 = IDLE) fm = Some (slot, (key, idle))
       ∧ FleetManager.assignMissionToAvailableRobot mission now fm
         = (Return (Some (assigned_to mission now idle)),
            <[slot := (key, assigned_to mission now idle)]> fm,
            [FleetManager.robotStatusChanged (Robot.id idle) ASSIGNED
               (Some (Mission.id mission))])).
Proof.
  unfold FleetManager.assignMissionToAvailableRobot.
  destruct (list_find _ fm) as [[slot [key idle]]|] eqn:E; [right|left; done].
  exists slot, key, idle. split; [done|].
  apply list_find_Some in E as (_ & Hidle & _). cbn in Hidle.
  unfold Robot.assignMission, Robot.getStatus in *.
  rewrite decide_False by (intros ?; done). reflexivity.
Qed.

Lemma head_available fm :
  head (FleetManager.getAvailableRobots fm)
  = (fun found => found.2.2) <$> list_find (fun entry => Robot.getStatus entry.2 = IDLE) fm.
Proof.
  unfold FleetManager.getAvailableRobots, JsMap.values.
  induction fm as [|[k r] fm IH]; [done|].
  rewrite fmap_cons, filter_cons. cbn [snd]. unfold Robot.getStatus in *.
  destruct (decide (Robot.status r = IDLE)) as [Hr|Hr]; cbn.
  - by rewrite decide_True.
  - rewrite decide_False by done. rewrite IH.
    by destruct (list_find _ fm) as [[? [? ?]]|].
Qed.

Lemma available_nil fm :
  FleetManager.getAvailableRobots fm = []
  ↔ list_find (fun entry => Robot.getStatus entry.2 = IDLE) fm = None.
Proof.
  pose proof (head_available fm) as H. split; intros E.
  - rewrite E in H. cbn in H. by destruct (list_find _ fm).
  - rewrite E in H. cbn in H. by destruct (FleetManager.getAvailableRobots fm).
Qed.

Lemma fleet_inv_exec c now fm :
  fleet_inv fm → fleet_inv (FleetManager.exec c now fm).1.
Proof.
  intros Hinv. destruct c as [n|mission|robotId|robotId c]; cbn.
  - by apply fleet_inv_initializeFleet.
  - destruct (assign_cases mission now fm) as [[_ ->]|(slot & key & idle & E & ->)];
      [done|]. cbn.
    apply list_find_Some in E as (Hs & _ & _).
    rewrite (insert_slot_set _ _ _ idle) by eauto using fleet_inv_NoDup.
    apply (fleet_inv_set fm key idle); [done| |done].
    eapply get_slot; eauto using fleet_inv_NoDup.
  - unfold FleetManager.cancelRobotMission.
    destruct (JsMap.get robotId fm) as [robot|] eqn:E; [|done].
    pose proof (robot_exec_id Robot.CancelCurrentMission now robot) as Hid. cbn in Hid.
    destruct (Robot.cancelCurrentMission now robot) as [[res robot'] evs]. cbn in Hid.
    destruct res; cbn; by eapply fleet_inv_set.
  - unfold FleetManager.onRobot.
    destruct (JsMap.get robotId fm) as [robot|] eqn:E; [|done].
    pose proof (robot_exec_id c now robot) as Hid.
    destruct (Robot.exec c now robot) as [robot' evs]. cbn in *.
    by eapply fleet_inv_set.
Qed.

Lemma fleet_inv_run calls : ∀ fm, fleet_inv fm → fleet_inv (FleetManager.run calls fm).
Proof.
  induction calls as [|[now c] calls IH]; intros fm Hinv; [done|].
  cbn. apply IH. by apply fleet_inv_exec.
Qed.

Lemma fleet_inv_empty : fleet_inv FleetManager.constructor.
Proof. split; [done|constructor]. Qed.

Lemma fleet_inv_reachable calls :
  fleet_inv (FleetManager.run calls FleetManager.constructor).
Proof. apply fleet_inv_run, fleet_inv_empty. Qed.

End FleetFacts.

Section Assignment.
Implicit Types (fm : list (string * Robot.t)) (now : Time) (mission : Mission.t).

Lemma fleet_slot_key fm slot key (r : Robot.t) :
  fleet_inv fm → fm !! slot = Some (key, r) → key = FleetManager.robotIdOf (S slot).
Proof.
  intros [Hk _] Hs.
  assert (JsMap.keys fm !! slot = Some key) as Hkey.
  { unfold JsMap.keys. by rewrite list_lookup_fmap, Hs. }
  rewrite Hk, list_lookup_fmap in Hkey.
  destruct (seq 1 (length fm) !! slot) as [j|] eqn:E; [|done].
  apply lookup_seq in E as [-> _]. cbn in Hkey. by injection Hkey as <-.
Qed.

Lemma fleet_get_slot fm j (rj : Robot.t) :
  fleet_inv fm → JsMap.get (FleetManager.robotIdOf j) fm = Some rj →
  ∃ slot, j = S slot ∧ fm !! slot = Some (FleetManager.robotIdOf j, rj).
Proof.
  intros Hinv Hget.
  apply get_elem_of in Hget. apply list_elem_of_lookup in Hget as [slot Hs].
  exists slot. split; [|done].
  apply (fleet_slot_key _ _ _ _ Hinv) in Hs. by apply (inj _) in Hs.
Qed.

(** What a successful assignment did, on a registry of the usual shape. *)
Lemma assign_Some mission now fm robot fm' evs :
  fleet_inv fm →
  FleetManager.assignMissionToAvailableRobot mission now fm = (Return (Some robot), fm', evs) →
  ∃ i idle,
    FleetManager.getRobot (FleetManager.robotIdOf i) fm = Some idle
    ∧ Robot.status idle = IDLE
    ∧ (∀ j rj, (j < i)%nat →
         FleetManager.getRobot (FleetManager.robotIdOf j) fm = Some rj →
         Robot.status rj ≠ IDLE)
    ∧ head (FleetManager.getAvailableRobots fm) = Some idle
    ∧ robot = assigned_to mission now idle
    ∧ Robot.id robot = FleetManager.robotIdOf i
    ∧ fm' = JsMap.set (FleetManager.robotIdOf i) robot fm.
Proof.
  intros Hinv Hres.
  destruct (assign_cases mission now fm) as [[_ E]|(slot & key & idle & E & E')].
  { rewrite E in Hres. discriminate Hres. }
  rewrite E' in Hres. injection Hres as <- <- <-.
  pose proof (head_available fm) as Hhead. rewrite E in Hhead. cbn in Hhead.
  apply list_find_Some in E as (Hs & Hidle & Hbefore). cbn in Hidle.
  pose proof (fleet_slot_key _ _ _ _ Hinv Hs) as ->.
  pose proof (fleet_inv_NoDup _ Hinv) as Hnd.
  exists (S slot), idle. unfold FleetManager.getRobot. repeat split.
  - by eapply get_slot.
  - done.
  - intros j rj Hj Hget.
    destruct (fleet_get_slot _ _ _ Hinv Hget) as (slot' & -> & Hs').
    apply (Hbefore _ _ Hs'). lia.
  - done.
  - destruct Hinv as [_ Hids]. cbn.
    apply (Forall_lookup_1 _ _ _ _ Hids Hs).
  - by eapply insert_slot_set.
Qed.

Lemma assign_Some_idle_before mission now fm robot fm' evs :
  fleet_inv fm →
  FleetManager.assignMissionToAvailableRobot mission now fm = (Return (Some robot), fm', evs) →
  idle_in (Robot.id robot) fm.
Proof.
  intros Hinv Hres.
  destruct (assign_Some _ _ _ _ _ _ Hinv Hres) as (i & idle & Hg & Hi & _ & _ & _ & -> & _).
  by exists idle.
Qed.

Lemma assign_Some_busy_after mission now fm robot fm' evs :
  fleet_inv fm →
  FleetManager.assignMissionToAvailableRobot mission now fm = (Return (Some robot), fm', evs) →
  FleetManager.getRobot (Robot.id robot) fm' = Some robot ∧ Robot.status robot = ASSIGNED.
Proof.
  intros Hinv Hres.
  destruct (assign_Some _ _ _ _ _ _ Hinv Hres) as (i & idle & _ & _ & _ & _ & -> & -> & ->).
  split; [apply get_set_eq|done].
Qed.

Lemma assign_Some_others mission now fm robot fm' evs k :
  fleet_inv fm →
  FleetManager.assignMissionToAvailableRobot mission now fm = (Return (Some robot), fm', evs) →
  k ≠ Robot.id robot →
  FleetManager.getRobot k fm' = FleetManager.getRobot k fm.
Proof.
  intros Hinv Hres Hk.
  destruct (assign_Some _ _ _ _ _ _ Hinv Hres) as (i & idle & _ & _ & _ & _ & _ & Hid & ->).
  rewrite Hid in Hk. by apply get_set_ne.
Qed.

Lemma not_idle_after_assign mission now fm robot fm' evs :
  fleet_inv fm →
  FleetManager.assignMissionToAvailableRobot mission now fm = (Return (Some robot), fm', evs) →
  ¬ idle_in (Robot.id robot) fm'.
Proof.
  intros Hinv Hres (r & Hr & Hi).
  destruct (assign_Some_busy_after _ _ _ _ _ _ Hinv Hres) as [Hg Hs].
  rewrite Hg in Hr. injection Hr as <-. congruence.
Qed.

(** Missions assigned one after the other go to robots that were IDLE at
    the start, each to a different one. *)
Lemma assignEach_distinct missions : ∀ fm,
  fleet_inv fm →
  NoDup (Robot.id <$> omap id (FleetManager.assignEach missions fm).1)
  ∧ ∀ k, k ∈ Robot.id <$> omap id (FleetManager.assignEach missions fm).1 → idle_in k fm.
Proof.
  induction missions as [|[now mission] missions IH]; intros fm Hinv.
  { cbn. split; [constructor|]. by intros k ?%elem_of_nil. }
  cbn.
  destruct (FleetManager.assignMissionToAvailableRobot mission now fm)
    as [[res fm'] evs] eqn:E.
  assert (fleet_inv fm') as Hinv'.
  { pose proof (fleet_inv_exec (FleetManager.AssignMissionToAvailableRobot mission) now fm Hinv)
      as H. cbn in H. by rewrite E in H. }
  specialize (IH fm' Hinv').
  destruct (FleetManager.assignEach missions fm') as [results fm''] eqn:E2.
  cbn in *. destruct IH as [IHnd IHidle].
  destruct res as [[robot|]|err]; cbn.
  - split.
    + constructor; [|done]. intros Hin%IHidle.
      by apply (not_idle_after_assign _ _ _ _ _ _ Hinv E).
    + intros k [->|Hin]%elem_of_cons.
      * by eapply assign_Some_idle_before.
      * destruct (decide (k = Robot.id robot)) as [->|Hne].
        -- exfalso. apply IHidle in Hin.
           by apply (not_idle_after_assign _ _ _ _ _ _ Hinv E).
        -- destruct (IHidle k Hin) as (r & Hr & Hi). exists r. split; [|done].
           by rewrite <- (assign_Some_others _ _ _ _ _ _ k Hinv E Hne).
  - destruct (assign_cases mission now fm) as [[_ E']|(? & ? & ? & _ & E')];
      rewrite E' in E; [|discriminate E].
    injection E as <- <-. done.
  - destruct (assign_cases mission now fm) as [[_ E']|(? & ? & ? & _ & E')];
      rewrite E' in E; discriminate E.
Qed.

End Assignment.

(** C2. On every registry reached from the empty one,
    assignMissionToAvailableRobot(mission) returns null exactly when no
    robot is IDLE, and then changes nothing. Otherwise it returns the IDLE
    robot with the lowest ID (the lowest counter i of "robot-i", which is the
    first IDLE robot in the order of the map), now with status ASSIGNED and
    currentMissionId = mission.id, stored under its ID, every other robot
    being untouched. Consequently missions assigned one after the other go to
    pairwise distinct robots, and a robot returned by two calls was not IDLE
    right after the first and IDLE again right before the second. *)
Theorem assign_to_first_idle_robot
    (calls : list (Time * FleetManager.Call)) (mission : Mission.t) (now : Time) :
  let fm := FleetManager.run calls FleetManager.constructor in
  let '(res, fm', _) := FleetManager.assignMissionToAvailableRobot mission now fm in
  (FleetManager.getAvailableRobots fm = [] ↔ res = Return None)
  ∧ match res with
    | Throw _ => False
    | Return None => fm' = fm
    | Return (Some robot) =>
        ∃ i idle,
          FleetManager.getRobot (FleetManager.robotIdOf i) fm = Some idle
          ∧ Robot.status idle = IDLE
          ∧ (∀ j rj, (j < i)%nat →
               FleetManager.getRobot (FleetManager.robotIdOf j) fm = Some rj →
               Robot.status rj ≠ IDLE)
          ∧ head (FleetManager.getAvailableRobots fm) = Some idle
          ∧ Robot.id robot = FleetManager.robotIdOf i
          ∧ Robot.status robot = ASSIGNED
          ∧ Robot.currentMissionId robot = Some (Mission.id mission)
          ∧ FleetManager.getRobot (FleetManager.robotIdOf i) fm' = Some robot
          ∧ ∀ k, k ≠ FleetManager.robotIdOf i →
                 FleetManager.getRobot k fm' = FleetManager.getRobot k fm
    end
  ∧ (∀ missions,
       NoDup (Robot.id <$> omap id (FleetManager.assignEach missions fm).1))
  ∧ (∀ calls2 mission2 now2 robot robot2,
       res = Return (Some robot) →
       (FleetManager.assignMissionToAvailableRobot mission2 now2
          (FleetManager.run calls2 fm')).1.1 = Return (Some robot2) →
       Robot.id robot2 = Robot.id robot →
       ¬ idle_in (Robot.id robot) fm'
       ∧ idle_in (Robot.id robot) (FleetManager.run calls2 fm')).
Proof.
  cbv zeta. pose proof (fleet_inv_reachable calls) as Hinv.
  set (fm := FleetManager.run calls FleetManager.constructor) in *.
  destruct (FleetManager.assignMissionToAvailableRobot mission now fm)
    as [[res fm'] evs] eqn:E.
  assert (fleet_inv fm') as Hinv'.
  { pose proof (fleet_inv_exec (FleetManager.AssignMissionToAvailableRobot mission) now fm Hinv)
      as H. cbn in H. by rewrite E in H. }
  split; [|split; [|split]].
  - rewrite available_nil.
    destruct (assign_cases mission now fm) as [[E1 E']|(? & ? & ? & E1 & E')];
      rewrite E' in E; injection E as <- <- <-; rewrite E1; split; done.
  - destruct res as [[robot|]|err].
    + destruct (assign_Some _ _ _ _ _ _ Hinv E)
        as (i & idle & Hg & Hi & Hlow & Hhead & -> & Hid & ->).
      exists i, idle. unfold FleetManager.getRobot in *.
      repeat split; try done.
      * apply get_set_eq.
      * intros k Hk. by apply get_set_ne.
    + destruct (assign_cases mission now fm) as [[_ E']|(? & ? & ? & _ & E')];
        rewrite E' in E; [|discriminate E]. by injection E as <- <-.
    + destruct (assign_cases mission now fm) as [[_ E']|(? & ? & ? & _ & E')];
        rewrite E' in E; discriminate E.
  - intros missions. by apply assignEach_distinct.
  - intros calls2 mission2 now2 robot robot2 -> E2 Hid. split.
    + by apply (not_idle_after_assign _ _ _ _ _ _ Hinv E).
    + destruct (FleetManager.assignMissionToAvailableRobot mission2 now2
                  (FleetManager.run calls2 fm')) as [[res2 fm2] evs2] eqn:E3.
      cbn in E2. subst res2. rewrite <- Hid.
      eapply assign_Some_idle_before; [|done]. by apply fleet_inv_run.
Qed.

Lemma assign_to_first_idle_robot_witness :
  NoDup (Robot.id <$> omap id
           (FleetManager.assignEach
              [(11%Z, mission1); (12%Z, mission1); (13%Z, mission1); (14%Z, mission1)]
              fleet3).1)
  ∧ (FleetManager.assignMissionToAvailableRobot mission1 10 fleet3).1.1
    = Return (Some (assigned_to mission1 10 (Robot.constructor "robot-001" 1))).
Proof.
  pose proof (assign_to_first_idle_robot
                [(1%Z, FleetManager.InitializeFleet 3)] mission1 10) as H.
  cbv zeta in H. fold fleet3 in H.
  destruct (FleetManager.assignMissionToAvailableRobot mission1 10 fleet3)
    as [[res fm'] evs] eqn:E.
  destruct H as (_ & _ & Hdistinct & _). split.
  - apply Hdistinct.
  - revert E. vm_compute. by intros [= <- _ _].
Defined.

(** C10. On every registry reached from the empty one, holding n robots,
    initializeFleet(m) leaves max(n, m) robots, robot-001 to
    robot-max(n, m) in that order: robot-001 to robot-m are freshly
    constructed robots (IDLE, no mission, created now) and robot-(m+1) to
    robot-n, if any, are the robots that were there before, unchanged. In
    particular a first initializeFleet(n) leaves n robots. *)
Theorem reinitialize_fleet
    (calls : list (Time * FleetManager.Call)) (m : nat) (now : Time) :
  let fm := FleetManager.run calls FleetManager.constructor in
  let n := JsMap.size fm in
  let fm' := FleetManager.initializeFleet m now fm in
  JsMap.keys fm = FleetManager.robotIdOf <$> seq 1 n
  ∧ JsMap.keys fm' = FleetManager.robotIdOf <$> seq 1 (n `max` m)
  ∧ JsMap.size fm' = n `max` m
  ∧ Forall (fun i => FleetManager.getRobot (FleetManager.robotIdOf i) fm'
                     = Some (Robot.constructor (FleetManager.robotIdOf i) now))
           (seq 1 m)
  ∧ Forall (fun i => FleetManager.getRobot (FleetManager.robotIdOf i) fm'
                     = FleetManager.getRobot (FleetManager.robotIdOf i) fm)
           (seq (S m) (n - m))
  ∧ JsMap.size (FleetManager.initializeFleet m now FleetManager.constructor) = m.
Proof.
  cbv zeta. pose proof (fleet_inv_reachable calls) as [Hk Hids].
  set (fm := FleetManager.run calls FleetManager.constructor) in *.
  pose proof (initializeFleet_keys m now fm _ Hk) as Hk'.
  unfold JsMap.size. repeat split.
  - done.
  - done.
  - apply (f_equal length) in Hk'. unfold JsMap.keys in Hk'.
    by rewrite !length_fmap, length_seq in Hk'.
  - apply Forall_forall. intros i Hi%elem_of_seq.
    apply initializeFleet_get_new. lia.
  - apply Forall_forall. intros i Hi%elem_of_seq.
    apply initializeFleet_get_old. rewrite robotId_elem_of. lia.
  - pose proof (initializeFleet_keys m now FleetManager.constructor 0 eq_refl) as H0.
    apply (f_equal length) in H0. unfold JsMap.keys in H0.
    by rewrite !length_fmap, length_seq in H0.
Qed.

(** Three robots, the first two of them busy; initializeFleet(2) resets
    robot-001 and robot-002 and leaves robot-003 as it was. *)
Example reinitialize_fleet_example :
  let busy := FleetManager.run
    [(2%Z, FleetManager.AssignMissionToAvailableRobot mission1);
     (3%Z, FleetManager.AssignMissionToAvailableRobot mission1);
     (4%Z, FleetManager.OnRobot "robot-001" Robot.StartMission);
     (5%Z, FleetManager.CancelRobotMission "robot-002");
     (6%Z, FleetManager.AssignMissionToAvailableRobot mission1);
     (7%Z, FleetManager.AssignMissionToAvailableRobot mission1)] fleet3 in
  (Robot.status <$> JsMap.values busy) = [EN_ROUTE; ASSIGNED; ASSIGNED]
  ∧ FleetManager.initializeFleet 2 50 busy
    = [("robot-001", Robot.constructor "robot-001" 50);
       ("robot-002", Robot.constructor "robot-002" 50);
       ("robot-003", assigned_to mission1 7 (Robot.constructor "robot-003" 1))].
Proof. by vm_compute. Qed.

(** ** Cancellation through the engine's wiring *)

Section Cancellation.
Implicit Types (e : SimulationEngine.t) (now : Time).

Lemma fleetEmit_mission_inv evs now : ∀ e,
  map_Forall (fun _ m => mission_inv m) (SimulationEngine.missionManager e) →
  map_Forall (fun _ m => mission_inv m)
    (SimulationEngine.missionManager (SimulationEngine.fleetEmit evs now e).2).
Proof.
  induction evs as [|ev evs IH]; intros e He; [done|].
  cbn. destruct ev as [r s m|r [m|]]; cbn.
  - by apply IH.
  - pose proof (mission_inv_exec (MissionManager.CancelMission m) now _ He) as H.
    cbn in H.
    destruct (MissionManager.cancelMission m now (SimulationEngine.missionManager e))
      as [[[]|err] mm']; cbn in *; [by apply IH|done].
  - done.
Qed.

Lemma engine_mission_inv_run calls : ∀ e,
  map_Forall (fun _ m => mission_inv m) (SimulationEngine.missionManager e) →
  map_Forall (fun _ m => mission_inv m)
    (SimulationEngine.missionManager (SimulationEngine.run calls e)).
Proof.
  induction calls as [|[now c] calls IH]; intros e He; [done|].
  cbn. apply IH. destruct c as [c|c| |]; cbn.
  - destruct (FleetManager.exec c now (SimulationEngine.fleetManager e)) as [fm' evs].
    by apply fleetEmit_mission_inv.
  - by apply mission_inv_exec.
  - unfold SimulationEngine.start. by destruct (SimulationEngine.isSimulationRunning e).
  - unfold SimulationEngine.stop. by destruct (SimulationEngine.isSimulationRunning e).
Qed.

(** cancelRobotMission on a robot that is not IDLE and whose mission is in
    the registry: what the call returns and leaves behind. *)
Lemma cancelRobotMission_busy e robotId robot missionId (m : Mission.t) now :
  FleetManager.getRobot robotId (SimulationEngine.fleetManager e) = Some robot →
  Robot.status robot ≠ IDLE →
  Robot.currentMissionId robot = Some missionId →
  SimulationEngine.missionManager e !! missionId = Some m →
  ∃ e',
    SimulationEngine.cancelRobotMission robotId now e = (Return true, e')
    ∧ SimulationEngine.fleetManager e'
      = JsMap.set robotId
          (Robot.updateTimestamp now
             (Robot.setCurrentMissionId None (Robot.setStatus IDLE robot)))
          (SimulationEngine.fleetManager e)
    ∧ SimulationEngine.missionManager e'
      = if decide (Mission.status m = completed ∨ Mission.status m = cancelled)
        then SimulationEngine.missionManager e
        else <[missionId :=
                 Mission.setCancelledAt now (Mission.setStatus cancelled m)]>
               (SimulationEngine.missionManager e).
Proof.
  intros Hget Hbusy Hmid Hm.
  unfold SimulationEngine.cancelRobotMission, FleetManager.cancelRobotMission.
  unfold FleetManager.getRobot in Hget. rewrite Hget.
  unfold Robot.cancelCurrentMission. rewrite decide_False by done.
  cbn. rewrite Hmid. cbn. unfold MissionManager.cancelMission. rewrite Hm.
  case_decide; cbn; eexists; (split; [reflexivity|]); split; reflexivity.
Qed.

End Cancellation.

(** C5, as amended. Take an engine constructed over two registries, in any
    state its clients can bring it to, a robot of the fleet that is
    DELIVERING and the mission bound to it, present in the mission registry.
    Then cancelRobotMission(robotId) throws nothing and returns true;
    afterwards the robot is IDLE with currentMissionId null; and the mission
    is CANCELLED with cancelledAt set, unless it was already completed, in
    which case it is left as it was. *)
Theorem cancel_mid_delivery
    (fleetCalls : list (Time * FleetManager.Call))
    (missionCalls : list (Time * MissionManager.Call))
    (calls : list (Time * SimulationEngine.Call))
    (robotId missionId : string) (robot : Robot.t) (m : Mission.t) (now : Time) :
  let e := SimulationEngine.run calls
             (SimulationEngine.constructor
                (FleetManager.run fleetCalls FleetManager.constructor)
                (MissionManager.run missionCalls MissionManager.constructor)) in
  FleetManager.getRobot robotId (SimulationEngine.fleetManager e) = Some robot →
  Robot.status robot = DELIVERING →
  Robot.currentMissionId robot = Some missionId →
  MissionManager.getMission missionId (SimulationEngine.missionManager e) = Some m →
  ∃ e' robot' m',
    SimulationEngine.cancelRobotMission robotId now e = (Return true, e')
    ∧ FleetManager.getRobot robotId (SimulationEngine.fleetManager e') = Some robot'
    ∧ Robot.status robot' = IDLE
    ∧ Robot.currentMissionId robot' = None
    ∧ MissionManager.getMission missionId (SimulationEngine.missionManager e') = Some m'
    ∧ if decide (Mission.status m = completed) then m' = m
      else Mission.status m' = cancelled ∧ Mission.cancelledAt m' ≠ None.
Proof.
  cbv zeta. intros Hget Hs Hmid Hm.
  set (e := SimulationEngine.run calls _) in *.
  assert (map_Forall (fun _ m => mission_inv m) (SimulationEngine.missionManager e)) as Hinv.
  { apply engine_mission_inv_run. cbn. apply mission_inv_run, map_Forall_empty. }
  unfold MissionManager.getMission in *.
  destruct (cancelRobotMission_busy e robotId robot missionId m now)
    as (e' & Hres & Hfm & Hmm); [done|by rewrite Hs|done|done|].
  destruct (Hinv _ _ Hm) as (_ & _ & Hcancelled).
  exists e'. eexists. unfold FleetManager.getRobot. rewrite Hfm, Hmm, get_set_eq.
  destruct (decide (Mission.status m = completed)) as [Hc|Hc].
  - exists m. rewrite decide_True by by left. done.
  - destruct (decide (Mission.status m = cancelled)) as [Hx|Hx].
    + exists m. rewrite decide_True by by right. repeat split; try done.
      by apply Hcancelled.
    + eexists. rewrite decide_False by tauto. rewrite lookup_insert_eq.
      repeat split; done.
Qed.

Lemma cancel_mid_delivery_witness :
  ∃ e' robot' m',
    SimulationEngine.cancelRobotMission "robot-001" 2000 delivering_engine = (Return true, e')
    ∧ FleetManager.getRobot "robot-001" (SimulationEngine.fleetManager e') = Some robot'
    ∧ Robot.status robot' = IDLE
    ∧ Robot.currentMissionId robot' = None
    ∧ MissionManager.getMission "mission-3f2a9c1e" (SimulationEngine.missionManager e')
      = Some m'
    ∧ Mission.status m' = cancelled ∧ Mission.cancelledAt m' ≠ None.
Proof.
  destruct (cancel_mid_delivery [] [] delivering_calls "robot-001" "mission-3f2a9c1e"
    {| Robot.id := "robot-001"; Robot.status := DELIVERING;
       Robot.currentMissionId := Some "mission-3f2a9c1e";
       Robot.createdAt := 900; Robot.lastUpdated := 1005 |}
    {| Mission.id := "mission-3f2a9c1e"; Mission.status := in_progress;
       Mission.createdAt := 1000; Mission.assignedAt := Some 1002%Z;
       Mission.startedAt := Some 1004%Z; Mission.completedAt := None;
       Mission.cancelledAt := None; Mission.robotId := Some "robot-001";
       Mission.estimatedDuration := 330000 |}
    2000)
    as (e' & robot' & m' & H1 & H2 & H3 & H4 & H5 & H6);
    [by vm_compute|reflexivity|reflexivity|by vm_compute|].
  exists e', robot', m'. cbn in H6. repeat split; try done; apply H6.
Defined.

(** C5 as stated fails: with robot-001 DELIVERING and its mission already
    completed in the mission registry, cancelRobotMission returns true and
    frees the robot, but the mission stays 'completed' and gets no
    cancelledAt. *)
Lemma cancel_leaves_completed_mission :
  let e := desynchronised_engine in
  (Robot.status <$> FleetManager.getRobot "robot-001" (SimulationEngine.fleetManager e))
    = Some DELIVERING
  ∧ (FleetManager.getRobot "robot-001" (SimulationEngine.fleetManager e)
       ≫= Robot.currentMissionId) = Some "mission-3f2a9c1e"
  ∧ (Mission.status <$>
       MissionManager.getMission "mission-3f2a9c1e" (SimulationEngine.missionManager e))
    = Some completed
  ∧ let '(res, e') := SimulationEngine.cancelRobotMission "robot-001" 2000 e in
    res = Return true
    ∧ (Mission.status <$>
         MissionManager.getMission "mission-3f2a9c1e" (SimulationEngine.missionManager e'))
      = Some completed
    ∧ (MissionManager.getMission "mission-3f2a9c1e" (SimulationEngine.missionManager e')
         ≫= Mission.cancelledAt) = None.
Proof. by vm_compute. Qed.

(** ** Robot IDs and the order of strings *)

Example robotIdOf_examples :
  FleetManager.robotIdOf <$> [1; 12; 123; 999; 1000]
  = ["robot-001"; "robot-012"; "robot-123"; "robot-999"; "robot-1000"].
Proof. reflexivity. Qed.

Lemma string_compare_Lt_trans (s1 : string) : ∀ s2 s3,
  String.compare s1 s2 = Lt → String.compare s2 s3 = Lt → String.compare s1 s3 = Lt.
Proof.
  induction s1 as [|c1 s1 IH]; intros [|c2 s2] [|c3 s3]; cbn; try done.
  destruct (Ascii.compare c1 c2) eqn:E12; destruct (Ascii.compare c2 c3) eqn:E23;
    try done.
  - apply Ascii.compare_eq_iff in E12 as ->. rewrite E23. apply IH.
  - apply Ascii.compare_eq_iff in E12 as ->. by rewrite E23.
  - apply Ascii.compare_eq_iff in E23 as <-. by rewrite E12.
  - unfold Ascii.compare in *. rewrite N.compare_lt_iff in E12, E23.
    assert (N_of_ascii c1 < N_of_ascii c3)%N as H by lia.
    apply N.compare_lt_iff in H. by rewrite H.
Qed.

Lemma strictlyIncreasing_next (l : list string) :
  strictlyIncreasing l = true →
  ∀ a x y, l !! a = Some x → l !! S a = Some y → String.ltb x y = true.
Proof.
  induction l as [|z l IH]; intros Hl a x y Ha Hb; [done|].
  destruct l as [|z' l]; [done|].
  cbn in Hl. apply andb_prop in Hl as [Hz Hl].
  destruct a as [|a]; cbn in Ha, Hb.
  - by simplify_eq.
  - by apply (IH Hl a).
Qed.

Lemma strictlyIncreasing_lookup (l : list string) :
  strictlyIncreasing l = true →
  ∀ a b x y, (a < b)%nat → l !! a = Some x → l !! b = Some y → String.ltb x y = true.
Proof.
  intros Hl a b. induction b as [|b IH]; intros x y Hab Ha Hb; [lia|].
  destruct (decide (a = b)) as [->|Hne].
  - by eapply strictlyIncreasing_next.
  - destruct (l !! b) as [z|] eqn:Hz.
    + assert (String.ltb x z = true) as Hxz by (apply IH; [lia|done|done]).
      assert (String.ltb z y = true) as Hzy by (by eapply strictlyIncreasing_next).
      unfold String.ltb in *.
      destruct (String.compare x z) eqn:E1; try done.
      destruct (String.compare z y) eqn:E2; try done.
      by rewrite (string_compare_Lt_trans _ _ _ E1 E2).
    + apply lookup_ge_None in Hz. apply lookup_lt_Some in Hb. lia.
Qed.

(** Up to robot-999 the IDs have one width, and the order of the counters
    is the order of the ID strings. *)
Lemma robot_ids_dictionary_order (i j : nat) :
  (1 ≤ i)%nat → (i < j)%nat → (j ≤ 999)%nat →
  String.ltb (FleetManager.robotIdOf i) (FleetManager.robotIdOf j) = true.
Proof.
  intros Hi Hij Hj.
  assert (strictlyIncreasing (FleetManager.robotIdOf <$> seq 1 999) = true) as Hsorted
    by (vm_compute; reflexivity).
  apply (strictlyIncreasing_lookup _ Hsorted (i - 1) (j - 1)); [lia| |].
  - rewrite list_lookup_fmap, (lookup_seq_lt _ _ (i - 1)) by lia. cbn.
    do 2 f_equal. lia.
  - rewrite list_lookup_fmap, (lookup_seq_lt _ _ (j - 1)) by lia. cbn.
    do 2 f_equal. lia.
Qed.

(** In a fleet of at most 999 robots the robot an assignment returns has the
    least ID, as a string, among the robots that were IDLE. *)
Lemma assigned_robot_least_id_string
    (calls : list (Time * FleetManager.Call)) (mission : Mission.t) (now : Time)
    (robot other : Robot.t) fm' evs (k : string) :
  let fm := FleetManager.run calls FleetManager.constructor in
  (JsMap.size fm ≤ 999)%nat →
  FleetManager.assignMissionToAvailableRobot mission now fm = (Return (Some robot), fm', evs) →
  FleetManager.getRobot k fm = Some other →
  Robot.status other = IDLE →
  String.leb (Robot.id robot) k = true.
Proof.
  cbv zeta. intros Hsize Hres Hk Hidle.
  pose proof (fleet_inv_reachable calls) as Hinv.
  set (fm := FleetManager.run calls FleetManager.constructor) in *.
  destruct (assign_Some _ _ _ _ _ _ Hinv Hres)
    as (i & idle & Hg & _ & Hlow & _ & _ & -> & _).
  assert (∃ j, k = FleetManager.robotIdOf j ∧ (1 ≤ j ≤ JsMap.size fm)%nat) as (j & -> & Hj).
  { apply get_Some_keys in Hk. destruct Hinv as [Hkeys _]. rewrite Hkeys in Hk.
    apply list_elem_of_fmap in Hk as (j & -> & Hin). exists j. split; [done|].
    apply elem_of_seq in Hin. unfold JsMap.size. lia. }
  assert (1 ≤ i)%nat as Hi.
  { apply get_Some_keys in Hg. destruct Hinv as [Hkeys _]. rewrite Hkeys in Hg.
    apply robotId_elem_of in Hg. lia. }
  destruct (decide (j < i)%nat) as [Hlt|Hge].
  { exfalso. by apply (Hlow j other Hlt Hk). }
  unfold String.leb. destruct (decide (i = j)) as [->|Hne].
  - fold (String.leb (FleetManager.robotIdOf j) (FleetManager.robotIdOf j)).
    by destruct (String.leb_total (FleetManager.robotIdOf j) (FleetManager.robotIdOf j)).
  - pose proof (robot_ids_dictionary_order i j) as Hord. unfold String.ltb in Hord.
    destruct (String.compare _ _); [done|done|].
    discriminate Hord; lia.
Qed.

(** * Further properties of the core *)

(** ** Robot state machine *)

(** X1. Each of startMission, startDelivering, completeMission and
    returnToIdle throws exactly when the robot is not in the one status it
    requires; a call that throws leaves the robot as it was and emits
    nothing, and a call that returns leaves it in the next status.
    assignMission never throws: it returns true exactly when the robot was
    IDLE, and false leaves the robot as it was and emits nothing. *)
Theorem robot_methods_guard (now : Time) (r : Robot.t) (mission : Mission.t) :
  Forall (fun '(method, required, next) =>
            let '(res, r', evs) := method now r in
            (raises res = true ↔ Robot.status r ≠ required)
            ∧ (raises res = true → r' = r ∧ evs = [])
            ∧ (raises res = false → Robot.status r' = next))
         forward_methods
  ∧ let '(res, r', evs) := Robot.assignMission mission now r in
    (res = Return true ∨ res = Return false)
    ∧ (res = Return true ↔ Robot.status r = IDLE)
    ∧ (res = Return false → r' = r ∧ evs = [])
    ∧ (res = Return true → Robot.status r' = ASSIGNED
                           ∧ Robot.currentMissionId r' = Some (Mission.id mission)).
Proof.
  split.
  - unfold forward_methods. repeat constructor; cbn;
      [unfold Robot.startMission | unfold Robot.startDelivering
      | unfold Robot.completeMission | unfold Robot.returnToIdle];
      case_decide; cbn; naive_solver.
  - unfold Robot.assignMission. case_decide; cbn.
    + repeat split; try naive_solver.
    + assert (Robot.status r = IDLE) by (by destruct (decide (Robot.status r = IDLE))).
      repeat split; try naive_solver.
Qed.

(** X2. Whatever method is called, the status of a robot stays where it is
    or moves along an edge of the state machine: one step forward on the
    cycle IDLE, ASSIGNED, EN_ROUTE, DELIVERING, COMPLETED, IDLE, or from a
    busy status back to IDLE. No call skips a stage, and a COMPLETED robot
    leaves that status only through IDLE. *)
Theorem robot_step_follows_edges (c : Robot.Call) (now : Time) (r : Robot.t) :
  let r' := (Robot.exec c now r).1 in
  Robot.status r' = Robot.status r ∨ robot_edge (Robot.status r) (Robot.status r').
Proof.
  cbv zeta. destruct r as [i s m c0 l].
  destruct c; cbn;
    [unfold Robot.assignMission | unfold Robot.startMission
    | unfold Robot.startDelivering | unfold Robot.completeMission
    | unfold Robot.returnToIdle | unfold Robot.cancelCurrentMission];
    cbn; case_decide; cbn; subst; try (by left); try (by right);
    right; by destruct s.
Qed.

(** X3. A call never changes the ID or the creation time of a robot, and a
    robot that is still busy after the call is bound to the mission it was
    bound to before: a mission ID is only set when an IDLE robot is
    assigned and only cleared when the robot goes back to IDLE. *)
Theorem robot_keeps_identity_and_mission (c : Robot.Call) (now : Time) (r : Robot.t) :
  let r' := (Robot.exec c now r).1 in
  Robot.id r' = Robot.id r
  ∧ Robot.createdAt r' = Robot.createdAt r
  ∧ (Robot.status r ≠ IDLE → Robot.status r' ≠ IDLE →
     Robot.currentMissionId r' = Robot.currentMissionId r).
Proof.
  cbv zeta. destruct r as [i s m c0 l].
  destruct c; cbn;
    [unfold Robot.assignMission | unfold Robot.startMission
    | unfold Robot.startDelivering | unfold Robot.completeMission
    | unfold Robot.returnToIdle | unfold Robot.cancelCurrentMission];
    cbn; case_decide; cbn; subst; repeat split; try done.
Qed.

Lemma robot_keeps_identity_and_mission_witness :
  let r := assigned_to mission1 10 (Robot.constructor "robot-001" 1) in
  let r' := (Robot.exec Robot.StartMission 20 r).1 in
  Robot.currentMissionId r' = Robot.currentMissionId r.
Proof.
  cbv zeta.
  apply (robot_keeps_identity_and_mission Robot.StartMission 20
           (assigned_to mission1 10 (Robot.constructor "robot-001" 1)));
    by vm_compute.
Defined.

(** X4. A call emits events exactly when it changes the robot. When it
    does, the robot's lastUpdated is the time of the call and the last
    event emitted is a statusChanged carrying the robot's ID, its new
    status and its new mission ID. *)
Theorem robot_events_mirror_change (c : Robot.Call) (now : Time) (r : Robot.t) :
  let '(r', evs) := Robot.exec c now r in
  (evs = [] ↔ r' = r)
  ∧ (evs ≠ [] →
     Robot.lastUpdated r' = now
     ∧ last evs = Some (Robot.statusChanged (Robot.id r') (Robot.status r')
                          (Robot.currentMissionId r'))).
Proof.
  destruct r as [i s m c0 l].
  destruct c; cbn;
    [unfold Robot.assignMission | unfold Robot.startMission
    | unfold Robot.startDelivering | unfold Robot.completeMission
    | unfold Robot.returnToIdle | unfold Robot.cancelCurrentMission];
    cbn; case_decide; cbn in *; subst; (split; [split|]); try done;
    intros [=]; subst; done.
Qed.

(** X5. From an IDLE robot the calls assignMission, startMission,
    startDelivering, completeMission, returnToIdle, in this order, all
    succeed and leave the robot IDLE without mission, last updated at the
    time of the last call; and after cancelCurrentMission, from any status,
    the robot accepts the next assignMission. *)
Theorem robot_lifecycle_round_trip
    (r : Robot.t) (mission next : Mission.t) (t1 t2 t3 t4 t5 : Time) :
  (Robot.status r = IDLE →
   ∃ r1 r2 r3 r4 ev1 ev2 ev3 ev4 ev5,
     Robot.assignMission mission t1 r = (Return true, r1, ev1)
     ∧ Robot.startMission t2 r1 = (Return tt, r2, ev2)
     ∧ Robot.startDelivering t3 r2 = (Return tt, r3, ev3)
     ∧ Robot.completeMission t4 r3 = (Return tt, r4, ev4)
     ∧ Robot.returnToIdle t5 r4
       = (Return tt,
          Robot.mk (Robot.id r) IDLE None (Robot.createdAt r) t5, ev5))
  ∧ (Robot.assignMission next t2 (Robot.cancelCurrentMission t1 r).1.2).1.1 = Return true.
Proof.
  destruct r as [i s m c0 l]. split.
  - cbn. intros ->. repeat eexists.
  - unfold Robot.cancelCurrentMission. cbn. case_decide; cbn; subst.
    + unfold Robot.assignMission. cbn. by rewrite decide_False by (intros ?; done).
    + unfold Robot.assignMission. cbn. by rewrite decide_False by (intros ?; done).
Qed.

Lemma robot_lifecycle_round_trip_witness :
  (Robot.run
     [(1%Z, Robot.AssignMission mission1); (2%Z, Robot.StartMission);
      (3%Z, Robot.StartDelivering); (4%Z, Robot.CompleteMission);
      (5%Z, Robot.ReturnToIdle)]
     (Robot.constructor "robot-001" 0))
  = Robot.mk "robot-001" IDLE None 0 5.
Proof.
  destruct (robot_lifecycle_round_trip (Robot.constructor "robot-001" 0)
              mission1 mission1 1 2 3 4 5) as [H _].
  destruct (H eq_refl) as (r1 & r2 & r3 & r4 & ev1 & ev2 & ev3 & ev4 & ev5
                           & H1 & H2 & H3 & H4 & H5).
  cbn [Robot.run fold_left Robot.exec]. rewrite H1. cbn [fst snd].
  rewrite H2. cbn [fst snd]. rewrite H3. cbn [fst snd]. rewrite H4. cbn [fst snd].
  rewrite H5. reflexivity.
Defined.

(** ** Mission registry *)

Section MissionCalls.
Implicit Types (mm : gmap string Mission.t) (m : Mission.t) (now : Time).

(** What one of the four transitions does to the registry: nothing, or it
    replaces the mission stored under the ID by an updated one. *)
Lemma transition_cases (c : MissionManager.Call) now mm k :
  isCreate c = false → addressed c = Some k →
  MissionManager.exec c now mm = mm
  ∨ ∃ m m', mm !! k = Some m ∧ MissionManager.exec c now mm = <[k := m']> mm
            ∧ Mission.id m' = Mission.id m
            ∧ Mission.createdAt m' = Mission.createdAt m
            ∧ Mission.estimatedDuration m' = Mission.estimatedDuration m
            ∧ match c with
              | MissionManager.AssignMission _ r =>
                  Mission.status m = created
                  ∧ m' = Mission.setRobotId r
                           (Mission.setAssignedAt now (Mission.setStatus assigned m))
              | MissionManager.StartMission _ =>
                  Mission.status m = assigned
                  ∧ m' = Mission.setStartedAt now (Mission.setStatus in_progress m)
              | MissionManager.CompleteMission _ =>
                  Mission.status m = in_progress
                  ∧ m' = Mission.setCompletedAt now (Mission.setStatus completed m)
              | MissionManager.CancelMission _ =>
                  Mission.status m ≠ completed ∧ Mission.status m ≠ cancelled
                  ∧ m' = Mission.setCancelledAt now (Mission.setStatus cancelled m)
              | _ => False
              end.
Proof.
  intros Hc Hk. destruct c as [uuid rnd|mid rid|mid|mid|mid|o]; try done;
    cbn in Hk; injection Hk as ->; cbn;
    [unfold MissionManager.assignMission | unfold MissionManager.startMission
    | unfold MissionManager.completeMission | unfold MissionManager.cancelMission];
    destruct (mm !! k) as [m|] eqn:E; try (by left);
    case_decide as Hs; try (by left); right; eexists m, _;
    (split; [done|]); (split; [reflexivity|]); cbn; repeat split; try done;
    intros ?; apply Hs; auto.
Qed.

End MissionCalls.

(** X6. A call of the registry leaves every mission other than the one it
    addresses untouched (cleanup addresses none: it leaves a mission
    untouched or removes it). Only createMission adds a mission and only
    cleanup removes one. *)
Theorem mission_call_frame
    (c : MissionManager.Call) (now : Time) (mm : gmap string Mission.t) :
  (∀ k, addressed c ≠ Some k →
        MissionManager.exec c now mm !! k = mm !! k
        ∨ (addressed c = None ∧ MissionManager.exec c now mm !! k = None))
  ∧ (isCreate c = false →
     ∀ k, is_Some (MissionManager.exec c now mm !! k) → is_Some (mm !! k))
  ∧ (addressed c ≠ None →
     ∀ k, is_Some (mm !! k) → is_Some (MissionManager.exec c now mm !! k)).
Proof.
  destruct (addressed c) as [a|] eqn:Ha.
  - destruct (isCreate c) eqn:Hc.
    + destruct c; try done. cbn in Ha. injection Ha as <-. cbn.
      repeat split; try done.
      * intros k Hk. left. apply lookup_insert_ne. congruence.
      * intros k Hk. rewrite lookup_insert. case_decide; [done|]. done.
    + destruct (transition_cases c now mm a Hc Ha) as [->|(m & m' & Hm & -> & _)].
      { repeat split; try done. intros; by left. }
      repeat split.
      * intros k Hk. left. apply lookup_insert_ne. congruence.
      * intros _ k. rewrite lookup_insert. case_decide; subst; [by rewrite Hm|done].
      * intros _ k. rewrite lookup_insert. case_decide; subst; done.
  - destruct c; try done. cbn. repeat split; try done.
    + intros k _. rewrite cleanup_lookup. cbv zeta.
      destruct (mm !! k); [|by left]. case_decide; [by right|by left].
    + intros _ k. rewrite cleanup_lookup. cbv zeta.
      destruct (mm !! k); [done|]. by intros [? ?].
Qed.

Lemma mission_call_frame_witness :
  MissionManager.exec (MissionManager.CancelMission "mission-3f2a9c1e") 2000
    (MissionManager.createMission "aaaa0000-2222-4ccc-9ddd-000000000002" half 1500
       created_registry).2 !! "mission-aaaa0000"
  = (MissionManager.createMission "aaaa0000-2222-4ccc-9ddd-000000000002" half 1500
       created_registry).2 !! "mission-aaaa0000".
Proof.
  destruct (mission_call_frame (MissionManager.CancelMission "mission-3f2a9c1e") 2000
    (MissionManager.createMission "aaaa0000-2222-4ccc-9ddd-000000000002" half 1500
       created_registry).2) as [H _].
  destruct (H "mission-aaaa0000") as [H'|[H' _]]; [by vm_compute|exact H'|].
  discriminate H'.
Defined.

(** X7. assignMission, startMission, completeMission and cancelMission
    leave a mission of the registry as it was or move its status along an
    edge of the state machine (created, assigned, in_progress, completed in
    this order, or from one of the first three to cancelled); they never
    change its ID, createdAt or estimatedDuration; and a completed or
    cancelled mission is never changed by them. *)
Theorem mission_step_follows_edges
    (c : MissionManager.Call) (now : Time) (mm : gmap string Mission.t)
    (k : string) (m : Mission.t) :
  isCreate c = false → addressed c ≠ None →
  mm !! k = Some m →
  ∃ m', MissionManager.exec c now mm !! k = Some m'
        ∧ (m' = m ∨ mission_edge (Mission.status m) (Mission.status m'))
        ∧ Mission.id m' = Mission.id m
        ∧ Mission.createdAt m' = Mission.createdAt m
        ∧ Mission.estimatedDuration m' = Mission.estimatedDuration m
        ∧ (Mission.status m = completed ∨ Mission.status m = cancelled → m' = m).
Proof.
  intros Hc Ha Hm. destruct (addressed c) as [a|] eqn:Hadd; [|done].
  destruct (transition_cases c now mm a Hc Hadd) as [->|(m0 & m' & Hm0 & -> & Hi & Hcr & He & Hcase)].
  { exists m. repeat split; try done. by left. }
  destruct (decide (a = k)) as [->|Hne].
  - rewrite Hm in Hm0. injection Hm0 as <-. exists m'. rewrite lookup_insert_eq.
    repeat split; try done.
    + right. destruct c; try done.
      * destruct Hcase as [Hs ->]. cbn. by rewrite Hs.
      * destruct Hcase as [Hs ->]. cbn. by rewrite Hs.
      * destruct Hcase as [Hs ->]. cbn. by rewrite Hs.
      * destruct Hcase as (Hs1 & Hs2 & ->). cbn. by destruct (Mission.status m).
    + intros Hterm. destruct c; try done; destruct Hcase as [Hs Hr];
        destruct Hterm; congruence || naive_solver.
  - exists m. rewrite lookup_insert_ne by done. repeat split; try done. by left.
Qed.

Lemma mission_step_follows_edges_witness :
  ∃ m', MissionManager.exec (MissionManager.CancelMission "mission-3f2a9c1e") 2000
          completed_registry !! "mission-3f2a9c1e" = Some m'
        ∧ m' = completed_mission.
Proof.
  destruct (mission_step_follows_edges (MissionManager.CancelMission "mission-3f2a9c1e")
              2000 completed_registry "mission-3f2a9c1e" completed_mission)
    as (m' & H1 & _ & _ & _ & _ & H2); [reflexivity|discriminate|by vm_compute|].
  exists m'. split; [exact H1|]. apply H2. left. reflexivity.
Defined.

Section MissionInvariants.
Implicit Types (mm : gmap string Mission.t) (m : Mission.t) (now : Time).

Lemma registry_inv_exec (P : string → Mission.t → Prop) (Q : string → Mission.t → Prop)
    (c : MissionManager.Call) now mm :
  (∀ k m, P k m → Q k m) →
  (∀ uuid rnd, Q (Mission.id (MissionManager.createMission uuid rnd now mm).1)
                 (MissionManager.createMission uuid rnd now mm).1) →
  (∀ k m m', isCreate c = false → addressed c = Some k → mm !! k = Some m → P k m →
             MissionManager.exec c now mm = <[k := m']> mm → Q k m') →
  map_Forall P mm → map_Forall Q (MissionManager.exec c now mm).
Proof.
  intros HPQ Hnew Hstep Hmm.
  assert (map_Forall Q mm) as HQ by (intros k m Hk; eauto).
  destruct (isCreate c) eqn:Hc.
  - destruct c; try done. cbn. apply map_Forall_insert_2; [apply (Hnew uuid rnd)|done].
  - destruct (addressed c) as [a|] eqn:Ha.
    + destruct (transition_cases c now mm a Hc Ha) as [->|(m & m' & Hm & E & _)]; [done|].
      rewrite E. apply map_Forall_insert_2; [|done]. eapply Hstep; eauto.
    + destruct c; try done. cbn. intros k m Hk. rewrite cleanup_lookup in Hk.
      cbv zeta in Hk. destruct (mm !! k) as [m0|] eqn:E; [|done].
      case_decide; simplify_eq. by apply HQ.
Qed.

Lemma stamps_exec (c : MissionManager.Call) now mm :
  map_Forall (fun k m => Mission.id m = k ∧ mission_stamps m) mm →
  map_Forall (fun k m => Mission.id m = k ∧ mission_stamps m) (MissionManager.exec c now mm).
Proof.
  apply registry_inv_exec; [done|by intros|].
  intros k m m' Hc Ha Hm [Hid Hst] E.
  destruct (transition_cases c now mm k Hc Ha) as [E'|(m0 & m1 & Hm0 & E1 & Hi & _ & _ & Hcase)].
  { rewrite E' in E. apply (f_equal (fun x => x !! k)) in E.
    rewrite lookup_insert_eq, Hm in E. by injection E as <-. }
  rewrite Hm in Hm0. injection Hm0 as <-.
  assert (m' = m1) as ->.
  { rewrite E1 in E. apply (f_equal (fun x => x !! k)) in E.
    rewrite !lookup_insert_eq in E. by injection E. }
  split; [congruence|].
  unfold mission_stamps in *. destruct m as [i s cr a st co ca r d]. cbn in *.
  destruct c; try done.
  - destruct Hcase as [-> ->]. cbn. naive_solver.
  - destruct Hcase as [-> ->]. cbn. naive_solver.
  - destruct Hcase as [-> ->]. cbn. naive_solver.
  - destruct Hcase as (H1 & H2 & ->). cbn. destruct s; naive_solver.
Qed.

Lemma stamps_run calls : ∀ mm,
  map_Forall (fun k m => Mission.id m = k ∧ mission_stamps m) mm →
  map_Forall (fun k m => Mission.id m = k ∧ mission_stamps m) (MissionManager.run calls mm).
Proof.
  induction calls as [|[now c] calls IH]; intros mm Hmm; [done|].
  cbn. apply IH. by apply stamps_exec.
Qed.

Lemma ordered_weaken (T T' : Time) m : (T ≤ T')%Z → mission_ordered T m → mission_ordered T' m.
Proof.
  unfold mission_ordered, not_after. intros HT H.
  destruct H as (H0 & H1 & H2 & H3 & H4 & H5 & H6 & H7 & H8 & H9 & H10).
  repeat split; try done; try lia; intros x y Hx [= <-].
  - specialize (H7 x T Hx eq_refl). lia.
  - specialize (H8 x T Hx eq_refl). lia.
  - specialize (H9 x T Hx eq_refl). lia.
  - specialize (H10 x T Hx eq_refl). lia.
Qed.

Lemma ordered_exec (c : MissionManager.Call) (T now : Time) mm :
  (T ≤ now)%Z →
  map_Forall (fun k m => mission_stamps m ∧ mission_ordered T m) mm →
  map_Forall (fun k m => mission_stamps m ∧ mission_ordered now m)
    (MissionManager.exec c now mm).
Proof.
  intros HT. apply registry_inv_exec.
  - intros k m [? ?]. split; [done|]. by eapply ordered_weaken.
  - intros uuid rnd. cbn. split; [done|].
    unfold mission_ordered, not_after. cbn. repeat split; try lia; intros; simplify_eq.
  - intros k m m' Hc Ha Hm [Hst Hord] E.
    destruct (transition_cases c now mm k Hc Ha)
      as [E'|(m0 & m1 & Hm0 & E1 & _ & _ & _ & Hcase)].
    { rewrite E' in E. apply (f_equal (fun x => x !! k)) in E.
      rewrite lookup_insert_eq, Hm in E. injection E as <-.
      split; [done|]. by eapply ordered_weaken. }
    rewrite Hm in Hm0. injection Hm0 as <-.
    assert (m' = m1) as ->.
    { rewrite E1 in E. apply (f_equal (fun x => x !! k)) in E.
      rewrite !lookup_insert_eq in E. by injection E. }
    pose proof (stamps_exec c now mm) as Hstamps.
    apply (ordered_weaken _ now) in Hord; [|done].
    unfold mission_stamps, mission_ordered, not_after in *.
    destruct m as [i s cr a st co ca r d]. cbn in *.
    destruct Hord as (H0 & H1 & H2 & H3 & H4 & H5 & H6 & H7 & H8 & H9 & H10).
    destruct c; try done.
    + destruct Hcase as [-> ->]. cbn.
      destruct Hst as (-> & -> & -> & -> & ->).
      repeat split; try done; try lia; intros; simplify_eq; try lia; eauto.
    + destruct Hcase as [-> ->]. cbn.
      destruct Hst as (Ha' & -> & -> & -> & Hr).
      repeat split; try done; try lia; intros; simplify_eq; try lia; eauto.
    + destruct Hcase as [-> ->]. cbn.
      destruct Hst as (Ha' & Hs' & -> & -> & Hr).
      repeat split; try done; try lia; intros; simplify_eq; try lia; eauto.
    + destruct Hcase as (Hn1 & Hn2 & ->). cbn.
      destruct s; try done.
      * destruct Hst as (-> & -> & -> & -> & ->).
        repeat split; try done; try lia; intros; simplify_eq; try lia; eauto.
      * destruct Hst as (Ha' & -> & -> & -> & Hr).
        repeat split; try done; try lia; intros; simplify_eq; try lia; eauto.
      * destruct Hst as (Ha' & Hs' & -> & -> & Hr).
        repeat split; try done; try lia; intros; simplify_eq; try lia; eauto.
Qed.

Lemma last_cons_default (l : list Time) (a d : Time) :
  List.last (a :: l) d = List.last l a.
Proof.
  revert a d. induction l as [|b l IH]; intros a d; [done|].
  change (List.last (a :: b :: l) d) with (List.last (b :: l) d).
  by rewrite !IH.
Qed.

Lemma ordered_run calls : ∀ (T : Time) mm,
  nondecreasing T calls.*1 = true →
  map_Forall (fun k m => mission_stamps m ∧ mission_ordered T m) mm →
  map_Forall (fun k m => mission_stamps m ∧ mission_ordered (List.last calls.*1 T) m)
    (MissionManager.run calls mm).
Proof.
  induction calls as [|[now c] calls IH]; intros T mm Hnd Hmm; [done|].
  cbn in Hnd. apply andb_prop in Hnd as [HT%bool_decide_eq_true Hnd].
  specialize (IH now (MissionManager.exec c now mm) Hnd (ordered_exec c T now mm HT Hmm)).
  cbn [MissionManager.run fold_left]. fold (MissionManager.run calls (MissionManager.exec c now mm)).
  by rewrite fmap_cons, last_cons_default.
Qed.

End MissionInvariants.

(** X8. In every registry reached from the empty one, each mission is
    stored under its own ID and carries exactly the optional fields of its
    status: none for created; assignedAt and robotId for assigned; also
    startedAt for in_progress; also completedAt for completed; cancelledAt
    and never completedAt for cancelled. *)
Theorem mission_fields_match_status
    (calls : list (Time * MissionManager.Call)) (k : string) (m : Mission.t) :
  MissionManager.run calls MissionManager.constructor !! k = Some m →
  Mission.id m = k ∧ mission_stamps m.
Proof.
  intros Hm.
  by apply (stamps_run calls MissionManager.constructor (map_Forall_empty _) k m).
Qed.

Lemma mission_fields_match_status_witness :
  Mission.id completed_mission = "mission-3f2a9c1e" ∧ mission_stamps completed_mission.
Proof.
  apply (mission_fields_match_status
    [(1000, MissionManager.CreateMission uuidA half);
     (1010, MissionManager.AssignMission "mission-3f2a9c1e" "robot-001");
     (1020, MissionManager.StartMission "mission-3f2a9c1e");
     (1030, MissionManager.CompleteMission "mission-3f2a9c1e")]%Z).
  by vm_compute.
Defined.

(** X9. If the clock never goes back between the calls, then in the
    registry reached every mission has its timestamps in the order of its
    life: createdAt, then assignedAt, then startedAt, then completedAt, and
    a cancelledAt not before createdAt, assignedAt and startedAt; none is
    later than the time of the last call. *)
Theorem mission_timestamps_ordered
    (calls : list (Time * MissionManager.Call)) (t0 : Time) (k : string) (m : Mission.t) :
  nondecreasing t0 calls.*1 = true →
  MissionManager.run calls MissionManager.constructor !! k = Some m →
  mission_ordered (List.last calls.*1 t0) m.
Proof.
  intros Hnd Hm.
  by apply (ordered_run calls t0 MissionManager.constructor Hnd (map_Forall_empty _) k m).
Qed.

Lemma mission_timestamps_ordered_witness : mission_ordered 1030 completed_mission.
Proof.
  apply (mission_timestamps_ordered
    [(1000, MissionManager.CreateMission uuidA half);
     (1010, MissionManager.AssignMission "mission-3f2a9c1e" "robot-001");
     (1020, MissionManager.StartMission "mission-3f2a9c1e");
     (1030, MissionManager.CompleteMission "mission-3f2a9c1e")]%Z 0 "mission-3f2a9c1e").
  - reflexivity.
  - by vm_compute.
Defined.

(** X10. Cleaning up twice at the same instant with the same retention
    removes nothing the second time, and a cleanup, whatever its retention,
    never removes or changes a mission that is created, assigned or
    in_progress. *)
Theorem cleanup_idempotent_spares_open_missions
    (olderThanMs : option Z) (now : Time) (mm : gmap string Mission.t) :
  let r := MissionManager.cleanupCompletedMissions olderThanMs now mm in
  MissionManager.cleanupCompletedMissions olderThanMs now r.2 = (0, r.2)
  ∧ ∀ k m, mm !! k = Some m →
           Mission.status m ≠ completed → Mission.status m ≠ cancelled →
           r.2 !! k = Some m.
Proof.
  cbv zeta. split.
  - apply injective_projections.
    + rewrite cleanup_count. cbv zeta. apply map_size_empty_iff, map_eq. intros k.
      rewrite lookup_empty. apply map_lookup_filter_None. right. intros m Hk.
      rewrite cleanup_lookup in Hk. cbv zeta in Hk.
      destruct (mm !! k) as [m0|]; [|done]. case_decide; simplify_eq. done.
    + cbn. apply map_eq. intros k. rewrite cleanup_lookup. cbv zeta.
      destruct (_ !! k) as [m|] eqn:Hk; [|done].
      rewrite cleanup_lookup in Hk. cbv zeta in Hk.
      destruct (mm !! k) as [m0|]; [|done]. case_decide; simplify_eq.
      by rewrite decide_False.
  - intros k m Hm H1 H2. rewrite cleanup_lookup. cbv zeta. rewrite Hm.
    rewrite decide_False; [done|]. unfold MissionManager.expired. tauto.
Qed.

Lemma cleanup_idempotent_spares_open_missions_witness :
  (MissionManager.cleanupCompletedMissions (Some 0%Z) 5000 created_registry).2
    !! "mission-3f2a9c1e" = Some mission1.
Proof.
  destruct (cleanup_idempotent_spares_open_missions (Some 0%Z) 5000 created_registry)
    as [_ H].
  apply H; by vm_compute.
Defined.

Lemma getRandomDuration_bounds (rnd : QArith_base.Q) (lo hi : Z) :
  unit_interval rnd → (lo ≤ hi)%Z →
  (lo ≤ TimeUtils.getRandomDuration rnd lo hi ≤ hi)%Z.
Proof.
  intros [H0 H1] Hlh. unfold TimeUtils.getRandomDuration.
  destruct rnd as [a b]. unfold QArith_base.Qle, QArith_base.Qlt in *. cbn in *.
  assert (0 ≤ a)%Z by lia. assert (a < Z.pos b)%Z by lia.
  rewrite Pos.mul_1_r.
  assert (0 ≤ Z.div (a * (hi - lo + 1)) (Z.pos b))%Z by (apply Z.div_pos; nia).
  assert (Z.div (a * (hi - lo + 1)) (Z.pos b) < hi - lo + 1)%Z
    by (apply Z.div_lt_upper_bound; nia).
  lia.
Qed.



Lemma getAllMissions_elem_of (mm : gmap string Mission.t) (m : Mission.t) :
  m ∈ MissionManager.getAllMissions mm ↔ ∃ k, mm !! k = Some m.
Proof.
  unfold MissionManager.getAllMissions. rewrite list_elem_of_fmap. split.
  - intros ([k m'] & -> & Hin). exists k. by apply elem_of_map_to_list.
  - intros (k & Hk). exists (k, m). split; [done|]. by apply elem_of_map_to_list.
Qed.

(** X12. createMission stores the mission it returns under the mission's
    ID: getMission finds it, getAllMissions lists it, getActiveMissions
    does not; every mission stored under another ID is untouched, and the
    registry grows by one mission when the ID was free and keeps its size
    when the ID was taken. *)
Theorem createMission_registers
    (uuid : string) (rnd : QArith_base.Q) (now : Time) (mm : gmap string Mission.t) :
  let '(m, mm') := MissionManager.createMission uuid rnd now mm in
  MissionManager.getMission (Mission.id m) mm' = Some m
  ∧ Mission.status m = created ∧ Mission.createdAt m = now
  ∧ m ∈ MissionManager.getAllMissions mm'
  ∧ (m ∉ MissionManager.getActiveMissions mm')
  ∧ (∀ k, k ≠ Mission.id m → mm' !! k = mm !! k)
  ∧ size mm' = (if mm !! Mission.id m is Some _ then size mm else S (size mm)).
Proof.
  cbn. repeat split.
  - apply lookup_insert_eq.
  - apply getAllMissions_elem_of. eexists. apply lookup_insert_eq.
  - unfold MissionManager.getActiveMissions. rewrite list_elem_of_filter. cbn.
    intros [[?|?] _]; done.
  - intros k Hk. by apply lookup_insert_ne.
  - destruct (mm !! _) as [m0|] eqn:E.
    + by eapply map_size_insert_Some.
    + by apply map_size_insert_None.
Qed.

(** X13. In every registry reached from the empty one, getActiveMissions
    lists exactly the missions stored (under their ID) with status assigned
    or in_progress; each of them has a robotId and an assignedAt, and there
    are at most as many of them as missions in the registry. *)
Theorem active_missions_listed
    (calls : list (Time * MissionManager.Call)) (m : Mission.t) :
  let mm := MissionManager.run calls MissionManager.constructor in
  (m ∈ MissionManager.getActiveMissions mm
   ↔ mm !! Mission.id m = Some m
     ∧ (Mission.status m = assigned ∨ Mission.status m = in_progress))
  ∧ (m ∈ MissionManager.getActiveMissions mm →
     is_Some (Mission.robotId m) ∧ is_Some (Mission.assignedAt m))
  ∧ (length (MissionManager.getActiveMissions mm) ≤ size mm)%nat.
Proof.
  cbv zeta. set (mm := MissionManager.run calls MissionManager.constructor).
  assert (m ∈ MissionManager.getActiveMissions mm
          ↔ mm !! Mission.id m = Some m
            ∧ (Mission.status m = assigned ∨ Mission.status m = in_progress)) as Hiff.
  { unfold MissionManager.getActiveMissions. rewrite list_elem_of_filter.
    rewrite getAllMissions_elem_of. split.
    - intros [Hs (k & Hk)]. split; [|done].
      destruct (stamps_run calls MissionManager.constructor (map_Forall_empty _) k m Hk)
        as [-> _]. done.
    - intros [Hk Hs]. split; [done|]. by eexists. }
  split; [done|]. split.
  - intros [Hk Hs]%Hiff.
    destruct (stamps_run calls MissionManager.constructor (map_Forall_empty _) _ m Hk)
      as [_ Hst].
    unfold mission_stamps in Hst. destruct Hs as [Hs|Hs]; rewrite Hs in Hst; naive_solver.
  - unfold MissionManager.getActiveMissions, MissionManager.getAllMissions.
    etrans; [apply length_filter|]. by rewrite length_fmap, length_map_to_list.
Qed.

Lemma active_missions_listed_witness :
  is_Some (Mission.robotId
             (Mission.mk "mission-3f2a9c1e" in_progress 1000 (Some 1010%Z) (Some 1020%Z)
                None None (Some "robot-001") 330000)).
Proof.
  pose proof (active_missions_listed
    [(1000, MissionManager.CreateMission uuidA half);
     (1010, MissionManager.AssignMission "mission-3f2a9c1e" "robot-001");
     (1020, MissionManager.StartMission "mission-3f2a9c1e")]%Z
    (Mission.mk "mission-3f2a9c1e" in_progress 1000 (Some 1010%Z) (Some 1020%Z)
       None None (Some "robot-001") 330000)) as (Hiff & Hfields & _).
  cbv zeta in Hiff, Hfields.
  apply Hfields. apply Hiff. split; [by vm_compute|by right].
Defined.

(** ** Fleet registry *)

Section FleetStatisticsFacts.
Implicit Types (fm : list (string * Robot.t)) (robots : list Robot.t).

Lemma countStatus_cons status (robot : Robot.t) robots :
  countStatus status (robot :: robots)
  = ((if decide (Robot.status robot = status) then 1 else 0) + countStatus status robots)%nat.
Proof.
  unfold countStatus. rewrite filter_cons. unfold Robot.getStatus.
  by destruct (decide (Robot.status robot = status)).
Qed.

Lemma countRobot_fold robots : ∀ n i a e d c,
  fold_left FleetManager.countRobot robots (FleetStatistics.mk n i a e d c)
  = FleetStatistics.mk n
      (i + countStatus IDLE robots) (a + countStatus ASSIGNED robots)
      (e + countStatus EN_ROUTE robots) (d + countStatus DELIVERING robots)
      (c + countStatus COMPLETED robots).
Proof.
  induction robots as [|robot robots IH]; intros n i a e d c.
  - cbn. unfold countStatus. cbn. by rewrite !Nat.add_0_r.
  - cbn [fold_left]. rewrite !countStatus_cons.
    unfold FleetManager.countRobot, Robot.getStatus.
    destruct (Robot.status robot) eqn:Hs; rewrite IH;
      repeat (case_decide; try done); f_equal; lia.
Qed.

Lemma countStatus_total robots :
  (countStatus IDLE robots + countStatus ASSIGNED robots + countStatus EN_ROUTE robots
   + countStatus DELIVERING robots + countStatus COMPLETED robots = length robots)%nat.
Proof.
  induction robots as [|robot robots IH]; [done|].
  rewrite !countStatus_cons. cbn [length].
  destruct (Robot.status robot); repeat (case_decide; try done); lia.
Qed.

Lemma countStatus_active robots :
  (length (filter (fun robot => Robot.getStatus robot ≠ IDLE) robots)
   + countStatus IDLE robots = length robots)%nat.
Proof.
  induction robots as [|robot robots IH]; [done|].
  rewrite countStatus_cons, filter_cons. unfold Robot.getStatus in *. cbn [length].
  destruct (decide (Robot.status robot = IDLE)) as [Hs|Hs].
  - rewrite decide_False by (intros ?; done). lia.
  - rewrite decide_True by done. cbn [length]. lia.
Qed.

(** Replacing one element changes the count of a status by what the old
    and the new element contribute. *)
Lemma countStatus_insert status robots slot (old new : Robot.t) :
  robots !! slot = Some old →
  (countStatus status (<[slot := new]> robots)
   + (if decide (Robot.status old = status) then 1 else 0)
   = countStatus status robots
     + (if decide (Robot.status new = status) then 1 else 0))%nat.
Proof.
  revert slot. induction robots as [|robot robots IH]; intros slot Hs; [done|].
  destruct slot as [|slot]; cbn in Hs.
  - injection Hs as ->. change (<[0 := new]> (old :: robots)) with (new :: robots).
    rewrite !countStatus_cons. lia.
  - change (<[S slot := new]> (robot :: robots)) with (robot :: <[slot := new]> robots).
    rewrite !countStatus_cons. specialize (IH slot Hs). lia.
Qed.

End FleetStatisticsFacts.

(** X14. For every registry, the statistics add up: total is the number of
    robots and equals the sum of the five per-status counts; each count is
    the length of the view getRobotsByStatus of that status (idle is the
    length of getAvailableRobots), and getActiveRobots has total - idle
    robots. *)
Theorem fleet_statistics_add_up (fm : list (string * Robot.t)) :
  let stats := FleetManager.getFleetStatistics fm in
  FleetStatistics.total stats = length (FleetManager.getAllRobots fm)
  ∧ (FleetStatistics.idle stats + FleetStatistics.assigned stats
     + FleetStatistics.en_route stats + FleetStatistics.delivering stats
     + FleetStatistics.completed stats = FleetStatistics.total stats)%nat
  ∧ FleetStatistics.idle stats = length (FleetManager.getAvailableRobots fm)
  ∧ FleetStatistics.idle stats = length (FleetManager.getRobotsByStatus IDLE fm)
  ∧ FleetStatistics.assigned stats = length (FleetManager.getRobotsByStatus ASSIGNED fm)
  ∧ FleetStatistics.en_route stats = length (FleetManager.getRobotsByStatus EN_ROUTE fm)
  ∧ FleetStatistics.delivering stats
    = length (FleetManager.getRobotsByStatus DELIVERING fm)
  ∧ FleetStatistics.completed stats
    = length (FleetManager.getRobotsByStatus COMPLETED fm)
  ∧ (length (FleetManager.getActiveRobots fm) + FleetStatistics.idle stats
     = FleetStatistics.total stats)%nat.
Proof.
  cbv zeta. unfold FleetManager.getFleetStatistics. rewrite countRobot_fold. cbn.
  unfold FleetManager.getAllRobots, FleetManager.getAvailableRobots,
    FleetManager.getRobotsByStatus, FleetManager.getActiveRobots, JsMap.size, JsMap.values.
  pose proof (countStatus_total fm.*2) as Htot.
  pose proof (countStatus_active fm.*2) as Hact.
  rewrite length_fmap in *. unfold countStatus in *. repeat split; try done; lia.
Qed.

Section FreshFleet.
Implicit Types (fm busy : list (string * Robot.t)) (now : Time).

Lemma freshFleet_keys n now :
  JsMap.keys (freshFleet n now) = FleetManager.robotIdOf <$> seq 1 n.
Proof. unfold JsMap.keys, freshFleet. by rewrite <- list_fmap_compose. Qed.

Lemma initializeFleet_fresh n now :
  FleetManager.initializeFleet n now FleetManager.constructor = freshFleet n now.
Proof.
  induction n as [|n IH]; [done|].
  rewrite initializeFleet_S, IH. unfold FleetManager.addRobot.
  rewrite set_notin.
  - unfold freshFleet. by rewrite (seq_S n 1), fmap_app.
  - rewrite freshFleet_keys, robotId_elem_of. lia.
Qed.

(** The registry after the first [k] robots of a fresh fleet of [n] have
    been taken: [busy] holds them, none of them IDLE. *)
Lemma assignEach_fresh (n : nat) (now0 : Time) missions : ∀ k busy i now mission,
  length busy = k → (k ≤ n)%nat →
  Forall (fun entry => Robot.getStatus entry.2 ≠ IDLE) busy →
  missions !! i = Some (now, mission) →
  (FleetManager.assignEach missions
     (busy ++ ((fun j => (FleetManager.robotIdOf j,
                          Robot.constructor (FleetManager.robotIdOf j) now0))
               <$> seq (S k) (n - k)))%list).1 !! i
  = Some (if decide (k + i < n)%nat
          then Some (assigned_to mission now
                       (Robot.constructor (FleetManager.robotIdOf (S (k + i))) now0))
          else None).
Proof.
  induction missions as [|[now1 mission1] missions IH];
    intros k busy i now mission Hlen Hk Hbusy Hi; [done|].
  cbn [FleetManager.assignEach].
  set (fresh := (fun j => (FleetManager.robotIdOf j,
                           Robot.constructor (FleetManager.robotIdOf j) now0))
                <$> seq (S k) (n - k)).
  destruct (decide (k < n)%nat) as [Hlt|Hge].
  - assert (list_find (fun entry => Robot.getStatus entry.2 = IDLE) (busy ++ fresh)%list
            = Some (k, (FleetManager.robotIdOf (S k),
                        Robot.constructor (FleetManager.robotIdOf (S k)) now0))) as Hfind.
    { apply list_find_Some. repeat split.
      - rewrite lookup_app_r by lia. rewrite Hlen, Nat.sub_diag.
        unfold fresh. rewrite list_lookup_fmap, lookup_seq_lt by lia. cbn.
        by rewrite Nat.add_0_r.
      - intros j y Hj Hjk. rewrite lookup_app_l in Hj by lia.
        by apply (Forall_lookup_1 _ _ _ _ Hbusy Hj). }
    destruct (assign_cases mission1 now1 (busy ++ fresh)%list)
      as [[E _]|(slot & key & idle & E & ->)]; rewrite Hfind in E; [done|].
    injection E as <- <- <-.
    set (taken := assigned_to mission1 now1
                    (Robot.constructor (FleetManager.robotIdOf (S k)) now0)).
    assert (<[k := (FleetManager.robotIdOf (S k), taken)]> (busy ++ fresh)%list
            = ((busy ++ [(FleetManager.robotIdOf (S k), taken)])
               ++ ((fun j => (FleetManager.robotIdOf j,
                              Robot.constructor (FleetManager.robotIdOf j) now0))
                   <$> seq (S (S k)) (n - S k)))%list) as ->.
    { rewrite insert_app_r_alt by lia. rewrite Hlen, Nat.sub_diag. unfold fresh.
      replace (n - k)%nat with (S (n - S k)) by lia. cbn. by rewrite <- app_assoc. }
    destruct i as [|i].
    + cbn in Hi. injection Hi as <- <-.
      destruct (FleetManager.assignEach missions _) as [results fm'']. cbn.
      rewrite decide_True by lia. by rewrite Nat.add_0_r.
    + cbn in Hi.
      specialize (IH (S k) (busy ++ [(FleetManager.robotIdOf (S k), taken)])%list
                    i now mission).
      destruct (FleetManager.assignEach missions _) as [results fm'']. cbn in *.
      replace (k + S i)%nat with (S (k + i)) by lia. apply IH.
      * rewrite length_app, Hlen. cbn. lia.
      * lia.
      * apply Forall_app. split; [done|]. by repeat constructor.
      * done.
  - assert (fresh = []) as Hfresh.
    { unfold fresh. by replace (n - k)%nat with 0%nat by lia. }
    assert (list_find (fun entry => Robot.getStatus entry.2 = IDLE) (busy ++ fresh)%list
            = None) as Hfind.
    { apply list_find_None. rewrite Hfresh, app_nil_r. done. }
    destruct (assign_cases mission1 now1 (busy ++ fresh)%list)
      as [[_ ->]|(slot & key & idle & E & _)]; [|by rewrite Hfind in E].
    destruct i as [|i].
    + cbn in Hi. injection Hi as <- <-.
      destruct (FleetManager.assignEach missions _) as [results fm'']. cbn.
      by rewrite decide_False by lia.
    + cbn in Hi. specialize (IH k busy i now mission Hlen Hk Hbusy Hi).
      fold fresh in IH.
      destruct (FleetManager.assignEach missions _) as [results fm'']. cbn in *.
      etrans; [exact IH|]. by rewrite !decide_False by lia.
Qed.

End FreshFleet.

(** X15. On a fleet just initialized with n robots, missions assigned one
    after the other go to robot-001, robot-002, ... in this order: the i-th
    call (counting from 1) returns robot-i, ASSIGNED and bound to the i-th
    mission, as long as i <= n, and every later call returns null. *)
Theorem fresh_fleet_serves_in_order
    (n : nat) (now0 : Time) (missions : list (Time * Mission.t))
    (i : nat) (now : Time) (mission : Mission.t) :
  missions !! i = Some (now, mission) →
  (FleetManager.assignEach missions
     (FleetManager.initializeFleet n now0 FleetManager.constructor)).1 !! i
  = Some (if decide (i < n)%nat
          then Some (assigned_to mission now
                       (Robot.constructor (FleetManager.robotIdOf (S i)) now0))
          else None).
Proof.
  intros Hi. rewrite initializeFleet_fresh.
  pose proof (assignEach_fresh n now0 missions 0 [] i now mission eq_refl
                (Nat.le_0_l n) (Forall_nil_2 _) Hi) as H.
  rewrite Nat.sub_0_r in H. exact H.
Qed.

Lemma fresh_fleet_serves_in_order_witness :
  (FleetManager.assignEach [(11%Z, mission1); (12%Z, mission1); (13%Z, mission1)]
     (FleetManager.initializeFleet 2 1 FleetManager.constructor)).1
  = [Some (assigned_to mission1 11 (Robot.constructor "robot-001" 1));
     Some (assigned_to mission1 12 (Robot.constructor "robot-002" 1));
     None].
Proof.
  apply list_eq. intros [|[|[|i]]].
  - apply (fresh_fleet_serves_in_order 2 1 _ 0 11 mission1). reflexivity.
  - apply (fresh_fleet_serves_in_order 2 1 _ 1 12 mission1). reflexivity.
  - apply (fresh_fleet_serves_in_order 2 1 _ 2 13 mission1). reflexivity.
  - reflexivity.
Defined.

Section FleetCalls.
Implicit Types (fm : list (string * Robot.t)) (now : Time).

Lemma set_get_same {V} (k : string) (v : V) (m : list (string * V)) :
  JsMap.get k m = Some v → JsMap.set k v m = m.
Proof.
  induction m as [|[k0 v0] m IH]; cbn; [done|].
  case_decide; subst.
  - by intros [= ->].
  - intros H'. by rewrite IH.
Qed.

Lemma set_keys_prefix {V} (k : string) (v : V) (m : list (string * V)) :
  JsMap.keys m `prefix_of` JsMap.keys (JsMap.set k v m).
Proof.
  destruct (decide (k ∈ JsMap.keys m)) as [Hin|Hnin].
  - by rewrite set_keys_in.
  - rewrite set_notin by done. unfold JsMap.keys. rewrite fmap_app.
    by apply prefix_app_r.
Qed.

Lemma initializeFleet_keys_prefix n now fm :
  JsMap.keys fm `prefix_of` JsMap.keys (FleetManager.initializeFleet n now fm).
Proof.
  induction n as [|n IH]; [done|].
  rewrite initializeFleet_S. etrans; [exact IH|]. apply set_keys_prefix.
Qed.

Lemma insert_slot_keys fm slot key (r r' : Robot.t) :
  fm !! slot = Some (key, r) → JsMap.keys (<[slot := (key, r')]> fm) = JsMap.keys fm.
Proof.
  intros Hs. unfold JsMap.keys. rewrite list_fmap_insert. cbn.
  apply list_insert_id. by rewrite list_lookup_fmap, Hs.
Qed.

Lemma exec_keys (c : FleetManager.Call) now fm :
  JsMap.keys fm `prefix_of` JsMap.keys (FleetManager.exec c now fm).1
  ∧ (match c with FleetManager.InitializeFleet _ => True
     | _ => JsMap.keys (FleetManager.exec c now fm).1 = JsMap.keys fm end).
Proof.
  destruct c as [n|mission|robotId|robotId c]; cbn -[JsMap.keys].
  - split; [apply initializeFleet_keys_prefix|done].
  - destruct (assign_cases mission now fm) as [[_ ->]|(slot & key & idle & E & ->)];
      [done|]. cbn -[JsMap.keys]. apply list_find_Some in E as (Hs & _).
    rewrite (insert_slot_keys _ _ _ idle) by done. done.
  - unfold FleetManager.cancelRobotMission.
    destruct (JsMap.get robotId fm) as [robot|] eqn:E; [|done].
    destruct (Robot.cancelCurrentMission now robot) as [[[|] robot'] evs]; cbn -[JsMap.keys];
      rewrite set_keys_in by (by eapply get_Some_keys); done.
  - unfold FleetManager.onRobot.
    destruct (JsMap.get robotId fm) as [robot|] eqn:E; [|done].
    destruct (Robot.exec c now robot) as [robot' evs]. cbn -[JsMap.keys].
    rewrite set_keys_in by (by eapply get_Some_keys). done.
Qed.

Lemma fleet_robot_inv_exec (c : FleetManager.Call) now fm :
  Forall (fun entry => robot_inv entry.2) fm →
  Forall (fun entry => robot_inv entry.2) (FleetManager.exec c now fm).1.
Proof.
  intros Hfm. destruct c as [n|mission|robotId|robotId c]; cbn.
  - induction n as [|n IH]; [done|]. rewrite initializeFleet_S.
    apply set_Forall; [|done]. apply robot_inv_constructor.
  - destruct (assign_cases mission now fm) as [[_ ->]|(slot & key & idle & E & ->)];
      [done|]. cbn. apply Forall_insert; [done|]. by split.
  - unfold FleetManager.cancelRobotMission.
    destruct (JsMap.get robotId fm) as [robot|] eqn:E; [|done].
    pose proof (robot_inv_exec Robot.CancelCurrentMission now robot
                  (get_Forall (fun entry => robot_inv entry.2) _ _ _ Hfm E)) as Hr.
    cbn in Hr.
    destruct (Robot.cancelCurrentMission now robot) as [[[|] robot'] evs]; cbn in *;
      by apply set_Forall.
  - unfold FleetManager.onRobot.
    destruct (JsMap.get robotId fm) as [robot|] eqn:E; [|done].
    pose proof (robot_inv_exec c now robot
                  (get_Forall (fun entry => robot_inv entry.2) _ _ _ Hfm E)) as Hr.
    destruct (Robot.exec c now robot) as [robot' evs]. cbn in *.
    by apply set_Forall.
Qed.

Lemma fleet_robot_inv_run calls : ∀ fm,
  Forall (fun entry => robot_inv entry.2) fm →
  Forall (fun entry => robot_inv entry.2) (FleetManager.run calls fm).
Proof.
  induction calls as [|[now c] calls IH]; intros fm Hfm; [done|].
  cbn. apply IH. by apply fleet_robot_inv_exec.
Qed.

End FleetCalls.

Lemma cancelRobotMission_registered
    (robotId : string) (now : Time) (fm : list (string * Robot.t)) (robot : Robot.t) :
  FleetManager.getRobot robotId fm = Some robot →
  let robot' := if decide (Robot.status robot = IDLE) then robot
                else Robot.mk (Robot.id robot) IDLE None (Robot.createdAt robot) now in
  let evs := if decide (Robot.status robot = IDLE) then []
             else [FleetManager.robotMissionCancelled (Robot.id robot)
                     (Robot.currentMissionId robot);
                   FleetManager.robotStatusChanged (Robot.id robot) IDLE None] in
  ∃ fm', FleetManager.cancelRobotMission robotId now fm = (Return true, fm', evs)
         ∧ FleetManager.getRobot robotId fm' = Some robot'
         ∧ JsMap.keys fm' = JsMap.keys fm
         ∧ (∀ k, k ≠ robotId → FleetManager.getRobot k fm' = FleetManager.getRobot k fm)
         ∧ (Robot.status robot = IDLE → fm' = fm).
Proof.
  unfold FleetManager.getRobot, FleetManager.cancelRobotMission. intros E. rewrite E.
  unfold Robot.cancelCurrentMission. cbv zeta.
  destruct (decide (Robot.status robot = IDLE)) as [Hs|Hs]; cbn.
  - eexists. split; [reflexivity|]. rewrite set_get_same by done. repeat split; done.
  - eexists. split; [reflexivity|]. repeat split.
    + apply get_set_eq.
    + apply set_keys_in. by eapply get_Some_keys.
    + intros k Hk. apply get_set_ne. done.
    + done.
Qed.


(** X17. No call on the registry removes or reorders robots: the keys of
    the map before a call are a prefix of the keys after it, and every call
    other than initializeFleet leaves the keys exactly as they were. *)
Theorem fleet_never_loses_robots
    (c : FleetManager.Call) (now : Time) (fm : list (string * Robot.t)) :
  JsMap.keys fm `prefix_of` JsMap.keys (FleetManager.exec c now fm).1
  ∧ (JsMap.size fm ≤ JsMap.size (FleetManager.exec c now fm).1)%nat
  ∧ match c with
    | FleetManager.InitializeFleet _ => True
    | _ => JsMap.keys (FleetManager.exec c now fm).1 = JsMap.keys fm
    end.
Proof.
  destruct (exec_keys c now fm) as [Hp He]. split; [done|]. split; [|done].
  apply prefix_length in Hp. unfold JsMap.keys, JsMap.size in *.
  by rewrite !length_fmap in Hp.
Qed.

(** X18. In every registry reached from the empty one, each robot is
    stored under its own ID, no two robots share an ID, and each robot is
    IDLE if and only if it has no mission. *)
Theorem fleet_robots_well_formed
    (calls : list (Time * FleetManager.Call)) (robotId : string) (robot : Robot.t) :
  let fm := FleetManager.run calls FleetManager.constructor in
  FleetManager.getRobot robotId fm = Some robot →
  Robot.id robot = robotId
  ∧ (Robot.status robot = IDLE ↔ Robot.currentMissionId robot = None)
  ∧ NoDup (Robot.id <$> FleetManager.getAllRobots fm).
Proof.
  cbv zeta. intros Hget. pose proof (fleet_inv_reachable calls) as Hinv.
  set (fm := FleetManager.run calls FleetManager.constructor) in *.
  split; [|split].
  - destruct Hinv as [_ Hids]. by apply (get_Forall _ _ _ _ Hids Hget).
  - assert (Forall (fun entry => robot_inv entry.2) fm) as Hr
      by (apply fleet_robot_inv_run; constructor).
    by apply (get_Forall (fun entry => robot_inv entry.2) _ _ _ Hr Hget).
  - replace (Robot.id <$> FleetManager.getAllRobots fm) with (JsMap.keys fm).
    + by apply fleet_inv_NoDup.
    + destruct Hinv as [_ Hids]. unfold FleetManager.getAllRobots, JsMap.keys, JsMap.values.
      rewrite <- list_fmap_compose. apply list_fmap_ext.
      intros i entry Hi. cbn. symmetry. by apply (Forall_lookup_1 _ _ _ _ Hids Hi).
Qed.

Lemma fleet_robots_well_formed_witness :
  Robot.id (Robot.constructor "robot-002" 1) = "robot-002".
Proof.
  apply (fleet_robots_well_formed [(1%Z, FleetManager.InitializeFleet 3)] "robot-002"
           (Robot.constructor "robot-002" 1)).
  by vm_compute.
Defined.

(** X19. After cancelRobotMission on a registered robot robot-i, the next
    assignMissionToAvailableRobot never returns null: it returns robot-j
    for some j <= i (the freed robot itself unless a robot with a lower
    counter is IDLE). *)
Theorem cancel_frees_robot_for_assignment
    (calls : list (Time * FleetManager.Call)) (i : nat) (now now' : Time)
    (mission : Mission.t) :
  let fm := FleetManager.run calls FleetManager.constructor in
  is_Some (FleetManager.getRobot (FleetManager.robotIdOf i) fm) →
  let fm1 := (FleetManager.cancelRobotMission (FleetManager.robotIdOf i) now fm).1.2 in
  ∃ robot j,
    (FleetManager.assignMissionToAvailableRobot mission now' fm1).1.1 = Return (Some robot)
    ∧ Robot.id robot = FleetManager.robotIdOf j ∧ (j ≤ i)%nat.
Proof.
  cbv zeta. intros [r Hr].
  pose proof (fleet_inv_reachable calls) as Hinv.
  set (fm := FleetManager.run calls FleetManager.constructor) in *.
  pose proof (fleet_inv_exec (FleetManager.CancelRobotMission (FleetManager.robotIdOf i))
                now fm Hinv) as Hinv1. cbn in Hinv1.
  pose proof (cancelRobotMission_registered (FleetManager.robotIdOf i) now fm r Hr) as Hc.
  cbv zeta in Hc. destruct Hc as (fm' & E & Hget & _).
  rewrite E in *. cbn in *.
  assert (idle_in (FleetManager.robotIdOf i) fm') as Hidle.
  { eexists. split; [exact Hget|]. by case_decide. }
  destruct (assign_cases mission now' fm') as [[Hnone _]|(slot & key & idle & _ & E3)].
  - exfalso. apply list_find_None in Hnone.
    destruct Hidle as (r' & Hr' & Hs).
    apply get_elem_of in Hr'. rewrite Forall_forall in Hnone.
    by apply (Hnone _ Hr').
  - destruct (assign_Some _ _ _ _ _ _ Hinv1 E3)
      as (j & idle' & _ & _ & Hlow & _ & _ & Hid & _).
    rewrite E3. cbn. eexists _, j. split; [done|]. split; [done|].
    destruct (decide (j ≤ i)%nat) as [|Hgt]; [done|]. exfalso.
    destruct Hidle as (r' & Hr' & Hs). apply (Hlow i r'); [lia|done|done].
Qed.

Lemma cancel_frees_robot_for_assignment_witness :
  ∃ robot j,
    (FleetManager.assignMissionToAvailableRobot mission1 30
       (FleetManager.cancelRobotMission "robot-002" 20
          (FleetManager.run
             [(1%Z, FleetManager.InitializeFleet 3);
              (2%Z, FleetManager.AssignMissionToAvailableRobot mission1);
              (3%Z, FleetManager.AssignMissionToAvailableRobot mission1);
              (4%Z, FleetManager.AssignMissionToAvailableRobot mission1)]
             FleetManager.constructor)).1.2).1.1 = Return (Some robot)
    ∧ Robot.id robot = FleetManager.robotIdOf j ∧ (j ≤ 2)%nat.
Proof.
  apply (cancel_frees_robot_for_assignment
           [(1%Z, FleetManager.InitializeFleet 3);
            (2%Z, FleetManager.AssignMissionToAvailableRobot mission1);
            (3%Z, FleetManager.AssignMissionToAvailableRobot mission1);
            (4%Z, FleetManager.AssignMissionToAvailableRobot mission1)] 2 20 30 mission1).
  eexists. vm_compute. reflexivity.
Defined.

(** X20. A successful assignMissionToAvailableRobot moves exactly one robot
    from the idle count to the assigned count of the statistics and leaves
    the other counts and the total as they were; an unsuccessful one
    happens only when the idle count is 0 and changes nothing. *)
Theorem assign_moves_one_robot_in_statistics
    (mission : Mission.t) (now : Time) (fm : list (string * Robot.t)) :
  let '(res, fm', _) := FleetManager.assignMissionToAvailableRobot mission now fm in
  let before := FleetManager.getFleetStatistics fm in
  let after := FleetManager.getFleetStatistics fm' in
  match res with
  | Throw _ => False
  | Return None => FleetStatistics.idle before = 0 ∧ after = before
  | Return (Some _) =>
      FleetStatistics.idle before = S (FleetStatistics.idle after)
      ∧ FleetStatistics.assigned after = S (FleetStatistics.assigned before)
      ∧ FleetStatistics.en_route after = FleetStatistics.en_route before
      ∧ FleetStatistics.delivering after = FleetStatistics.delivering before
      ∧ FleetStatistics.completed after = FleetStatistics.completed before
      ∧ FleetStatistics.total after = FleetStatistics.total before
  end.
Proof.
  destruct (assign_cases mission now fm) as [[Hnone ->]|(slot & key & idle & E & ->)].
  - cbv zeta. split; [|done].
    apply available_nil in Hnone.
    unfold FleetManager.getFleetStatistics. rewrite countRobot_fold. cbn.
    unfold countStatus. unfold FleetManager.getAvailableRobots in Hnone.
    by rewrite Hnone.
  - cbv zeta. apply list_find_Some in E as (Hs & Hidle & _). cbn in Hidle.
    unfold FleetManager.getFleetStatistics. rewrite !countRobot_fold. cbn.
    unfold JsMap.size, JsMap.values. rewrite list_fmap_insert, length_insert. cbn.
    assert (fm.*2 !! slot = Some idle) as Hv by (by rewrite list_lookup_fmap, Hs).
    pose proof (fun s => countStatus_insert s _ _ _ (assigned_to mission now idle) Hv) as Hc.
    unfold Robot.getStatus in Hidle.
    pose proof (Hc IDLE) as H1. pose proof (Hc ASSIGNED) as H2.
    pose proof (Hc EN_ROUTE) as H3. pose proof (Hc DELIVERING) as H4.
    pose proof (Hc COMPLETED) as H5. cbn in H1, H2, H3, H4, H5.
    rewrite Hidle in *.
    repeat (case_decide; try done). repeat split; lia.
Qed.

(** ** Scheduler: lifecycle and timer callbacks *)

Section EngineFrames.
Implicit Types (e : SimulationEngine.t) (now : Time).

Lemma fleetEmit_Return evs now : ∀ e,
  Forall (fun ev => match ev with
                    | FleetManager.robotStatusChanged _ _ _ => True
                    | FleetManager.robotMissionCancelled _ _ => False
                    end) evs →
  ∃ e', SimulationEngine.fleetEmit evs now e = (Return tt, e')
        ∧ SimulationEngine.fleetManager e' = SimulationEngine.fleetManager e
        ∧ SimulationEngine.missionManager e' = SimulationEngine.missionManager e
        ∧ lifecycle e' = lifecycle e.
Proof.
  induction evs as [|ev evs IH]; intros e Hevs.
  - by exists e.
  - apply Forall_cons in Hevs as [Hev Hevs]. destruct ev as [r s m|]; [|done].
    cbn. destruct (IH (SimulationEngine.emit (SimulationEngine.robotStatusChanged r s m) e)
                     Hevs) as (e' & -> & ? & ? & ?).
    by exists e'.
Qed.

Lemma fleetEmit_lifecycle evs now : ∀ e,
  lifecycle (SimulationEngine.fleetEmit evs now e).2 = lifecycle e
  ∧ SimulationEngine.fleetManager (SimulationEngine.fleetEmit evs now e).2
    = SimulationEngine.fleetManager e.
Proof.
  induction evs as [|ev evs IH]; intros e; [done|].
  cbn. destruct ev as [r s m|r [m|]]; cbn.
  - by destruct (IH (SimulationEngine.emit (SimulationEngine.robotStatusChanged r s m) e))
      as [-> ->].
  - destruct (MissionManager.cancelMission m now (SimulationEngine.missionManager e))
      as [[[]|err] mm']; cbn; [|done].
    destruct (IH (SimulationEngine.emit (SimulationEngine.missionCancelled r (Some m))
                    (SimulationEngine.setMissionManager mm' e))) as [-> ->]. done.
  - done.
Qed.

Lemma robot_method_events (c : Robot.Call) now (r : Robot.t) :
  c ≠ Robot.CancelCurrentMission →
  Forall (fun ev => match ev with
                    | FleetManager.robotStatusChanged _ _ _ => True
                    | FleetManager.robotMissionCancelled _ _ => False
                    end) (FleetManager.forward <$> (Robot.exec c now r).2).
Proof.
  intros Hc. destruct c; try done; cbn;
    [unfold Robot.assignMission | unfold Robot.startMission
    | unfold Robot.startDelivering | unfold Robot.completeMission
    | unfold Robot.returnToIdle];
    case_decide; cbn; by repeat constructor.
Qed.

End EngineFrames.

Section EngineMoves.
Implicit Types (e : SimulationEngine.t) (now : Time).

Lemma fleetEmit_moves evs now : ∀ e,
  rtc registry_step (registries e) (registries (SimulationEngine.fleetEmit evs now e).2).
Proof.
  induction evs as [|ev evs IH]; intros e; [done|].
  cbn. destruct ev as [r s m|r [m|]]; cbn.
  - apply (IH (SimulationEngine.emit (SimulationEngine.robotStatusChanged r s m) e)).
  - pose proof (step_missions (SimulationEngine.fleetManager e)
                  (SimulationEngine.missionManager e) (MissionManager.CancelMission m) now)
      as Hstep. cbn in Hstep.
    destruct (MissionManager.cancelMission m now (SimulationEngine.missionManager e))
      as [[[]|err] mm']; cbn in *.
    + eapply rtc_l; [exact Hstep|].
      apply (IH (SimulationEngine.emit (SimulationEngine.missionCancelled r (Some m))
                   (SimulationEngine.setMissionManager mm' e))).
    + by apply rtc_once.
  - done.
Qed.

Lemma startMission_method now : is_method (Robot.startMission now) Robot.StartMission now.
Proof. intros r. cbn. by destruct (Robot.startMission now r) as [[? ?] ?]. Qed.
Lemma startDelivering_method now :
  is_method (Robot.startDelivering now) Robot.StartDelivering now.
Proof. intros r. cbn. by destruct (Robot.startDelivering now r) as [[? ?] ?]. Qed.
Lemma completeMission_method now :
  is_method (Robot.completeMission now) Robot.CompleteMission now.
Proof. intros r. cbn. by destruct (Robot.completeMission now r) as [[? ?] ?]. Qed.
Lemma returnToIdle_method now : is_method (Robot.returnToIdle now) Robot.ReturnToIdle now.
Proof. intros r. cbn. by destruct (Robot.returnToIdle now r) as [[? ?] ?]. Qed.

Lemma callRobot_moves slot method c now e :
  is_method method c now →
  rtc registry_step (registries e)
    (registries (SimulationEngine.callRobot slot method now e).2).
Proof.
  intros Hm. unfold SimulationEngine.callRobot.
  destruct (SimulationEngine.fleetManager e !! slot) as [[key robot]|] eqn:E; [|done].
  destruct (Hm robot) as [H1 H2].
  destruct (method robot) as [[res robot'] evs]. cbn in H1, H2. subst.
  eapply rtc_l.
  { apply (step_robot _ (SimulationEngine.missionManager e) slot key robot c now E). }
  destruct res as [[]|err]; [|done].
  apply (fleetEmit_moves _ now
           (SimulationEngine.setFleetManager
              (<[slot := (key, (Robot.exec c now robot).1)]> (SimulationEngine.fleetManager e))
              e)).
Qed.

Lemma startBoth_moves missionId slot now e :
  rtc registry_step (registries e)
    (registries (SimulationEngine.startBoth missionId slot now e).2).
Proof.
  unfold SimulationEngine.startBoth.
  pose proof (callRobot_moves slot _ _ now e (startMission_method now)) as H.
  destruct (SimulationEngine.callRobot slot (Robot.startMission now) now e)
    as [[[]|err] e']; [|done]. cbn in H.
  pose proof (step_missions (SimulationEngine.fleetManager e')
                (SimulationEngine.missionManager e') (MissionManager.StartMission missionId) now)
    as Hstep. cbn in Hstep.
  destruct (MissionManager.startMission missionId now (SimulationEngine.missionManager e'))
    as [res mm']. cbn in *. eapply rtc_r; [exact H|exact Hstep].
Qed.

Lemma completeBoth_moves missionId slot now e :
  rtc registry_step (registries e)
    (registries (SimulationEngine.completeBoth missionId slot now e).2).
Proof.
  unfold SimulationEngine.completeBoth.
  pose proof (callRobot_moves slot _ _ now e (completeMission_method now)) as H.
  destruct (SimulationEngine.callRobot slot (Robot.completeMission now) now e)
    as [[[]|err] e']; [|done]. cbn in H.
  pose proof (step_missions (SimulationEngine.fleetManager e')
                (SimulationEngine.missionManager e')
                (MissionManager.CompleteMission missionId) now) as Hstep. cbn in Hstep.
  destruct (MissionManager.completeMission missionId now (SimulationEngine.missionManager e'))
    as [res mm']. cbn in *. eapply rtc_r; [exact H|exact Hstep].
Qed.

Lemma sweepRobot_moves since range advance rnd now slot e :
  (∀ missionId slot now e,
     rtc registry_step (registries e) (registries (advance missionId slot now e).2)) →
  rtc registry_step (registries e)
    (registries (SimulationEngine.sweepRobot since range advance rnd now slot e).2).
Proof.
  intros Hadv. unfold SimulationEngine.sweepRobot.
  destruct (SimulationEngine.fleetManager e !! slot) as [[key robot]|]; [|done].
  destruct (Robot.getCurrentMissionId robot) as [missionId|]; [|done].
  case_decide; [done|].
  destruct (MissionManager.getMission missionId (SimulationEngine.missionManager e))
    as [mission|]; [|done].
  destruct (since mission) as [stamp|]; [|done].
  destruct (SimulationEngine.due range rnd stamp now); [apply Hadv|done].
Qed.

Lemma forEachRobot_moves body rnd now slots : ∀ e,
  (∀ q now slot e, rtc registry_step (registries e) (registries (body q now slot e).2)) →
  rtc registry_step (registries e)
    (registries (SimulationEngine.forEachRobot body rnd now slots e).2).
Proof.
  induction slots as [|slot slots IH]; intros e Hbody; [done|].
  cbn. pose proof (Hbody (rnd slot) now slot e) as H.
  destruct (body (rnd slot) now slot e) as [[[]|err] e']; [|done].
  cbn in H. etrans; [exact H|]. by apply IH.
Qed.

Lemma processStateTransitions_moves draws now e :
  rtc registry_step (registries e)
    (registries (SimulationEngine.processStateTransitions draws now e).2).
Proof.
  unfold SimulationEngine.processStateTransitions.
  assert (∀ rnd e, rtc registry_step (registries e)
            (registries (SimulationEngine.processAssignedRobots rnd now e).2)) as H1.
  { intros rnd e0. apply forEachRobot_moves. intros.
    apply sweepRobot_moves. apply startBoth_moves. }
  assert (∀ rnd e, rtc registry_step (registries e)
            (registries (SimulationEngine.processEnRouteRobots rnd now e).2)) as H2.
  { intros rnd e0. apply forEachRobot_moves. intros.
    apply sweepRobot_moves. intros. eapply callRobot_moves, startDelivering_method. }
  assert (∀ rnd e, rtc registry_step (registries e)
            (registries (SimulationEngine.processDeliveringRobots rnd now e).2)) as H3.
  { intros rnd e0. apply forEachRobot_moves. intros.
    apply sweepRobot_moves. apply completeBoth_moves. }
  assert (∀ rnd e, rtc registry_step (registries e)
            (registries (SimulationEngine.processCompletedRobots rnd now e).2)) as H4.
  { intros rnd e0. apply forEachRobot_moves. intros.
    apply sweepRobot_moves. intros. eapply callRobot_moves, returnToIdle_method. }
  specialize (H1 (draws ASSIGNED) e).
  destruct (SimulationEngine.processAssignedRobots (draws ASSIGNED) now e)
    as [[[]|err] e1]; [|done]. cbn in H1.
  specialize (H2 (draws EN_ROUTE) e1).
  destruct (SimulationEngine.processEnRouteRobots (draws EN_ROUTE) now e1)
    as [[[]|err] e2]; cbn in *; [|by etrans].
  specialize (H3 (draws DELIVERING) e2).
  destruct (SimulationEngine.processDeliveringRobots (draws DELIVERING) now e2)
    as [[[]|err] e3]; cbn in *; [|by etrans; [|etrans]].
  specialize (H4 (draws COMPLETED) e3).
  destruct (SimulationEngine.processCompletedRobots (draws COMPLETED) now e3)
    as [[[]|err] e4]; cbn in *; (etrans; [exact H1|]); (etrans; [exact H2|]);
    (etrans; [exact H3|]); exact H4.
Qed.

End EngineMoves.

Section EngineTicks.
Implicit Types (e : SimulationEngine.t) (now : Time).

Lemma generateMission_moves uuid rnd now e :
  rtc registry_step (registries e)
    (registries (SimulationEngine.generateMission uuid rnd now e).2).
Proof.
  unfold SimulationEngine.generateMission.
  pose proof (step_missions (SimulationEngine.fleetManager e)
                (SimulationEngine.missionManager e)
                (MissionManager.CreateMission uuid rnd) now) as H1.
  cbn [MissionManager.exec] in H1.
  destruct (MissionManager.createMission uuid rnd now (SimulationEngine.missionManager e))
    as [mission mm1] eqn:Ecreate. cbn [fst snd] in H1.
  pose proof (step_fleet (SimulationEngine.fleetManager e) mm1
                (FleetManager.AssignMissionToAvailableRobot mission) now) as H2.
  cbn [FleetManager.exec] in H2.
  cbn [SimulationEngine.fleetManager SimulationEngine.setMissionManager].
  destruct (FleetManager.assignMissionToAvailableRobot mission now
              (SimulationEngine.fleetManager e))
    as [[res fm'] evs] eqn:Eassign. cbn [fst snd] in H2.
  pose proof (fleetEmit_moves evs now
                (SimulationEngine.setFleetManager fm'
                   (SimulationEngine.setMissionManager mm1 e))) as H3.
  destruct (SimulationEngine.fleetEmit evs now _) as [[[]|err] e2]; cbn in *.
  - destruct res as [[robot|]|err]; cbn.
    + pose proof (step_missions (SimulationEngine.fleetManager e2)
                    (SimulationEngine.missionManager e2)
                    (MissionManager.AssignMission (Mission.id mission) (Robot.getId robot))
                    now) as H4. cbn in H4.
      destruct (MissionManager.assignMission _ _ now (SimulationEngine.missionManager e2))
        as [[[]|err] mm']; cbn in *;
        (eapply rtc_l; [exact H1|]); (eapply rtc_l; [exact H2|]);
        (eapply rtc_r; [exact H3|]); exact H4.
    + eapply rtc_l; [exact H1|]. eapply rtc_l; [exact H2|]. exact H3.
    + eapply rtc_l; [exact H1|]. eapply rtc_l; [exact H2|]. exact H3.
  - eapply rtc_l; [exact H1|]. eapply rtc_l; [exact H2|]. exact H3.
Qed.

Lemma generateMissions_moves first second now e :
  rtc registry_step (registries e)
    (registries (SimulationEngine.generateMissions first second now e).1.2).
Proof.
  unfold SimulationEngine.generateMissions.
  pose proof (generateMission_moves first.1 first.2 now e) as H1.
  destruct (SimulationEngine.generateMission first.1 first.2 now e) as [[a1|err] e1];
    [|done]. cbn in H1.
  pose proof (generateMission_moves second.1 second.2 now e1) as H2.
  destruct (SimulationEngine.generateMission second.1 second.2 now e1) as [[a2|err] e2];
    cbn in *; by etrans.
Qed.

Lemma exec_moves (c : SimulationEngine.Call) now e :
  rtc registry_step (registries e) (registries (SimulationEngine.exec c now e)).
Proof.
  destruct c as [c|c| |]; cbn.
  - pose proof (step_fleet (SimulationEngine.fleetManager e)
                  (SimulationEngine.missionManager e) c now) as H.
    destruct (FleetManager.exec c now (SimulationEngine.fleetManager e)) as [fm' evs].
    cbn in H. eapply rtc_l; [exact H|].
    apply (fleetEmit_moves evs now (SimulationEngine.setFleetManager fm' e)).
  - apply rtc_once. apply step_missions.
  - unfold SimulationEngine.start. by destruct (SimulationEngine.isSimulationRunning e).
  - unfold SimulationEngine.stop. by destruct (SimulationEngine.isSimulationRunning e).
Qed.

Lemma tick_moves (k : SimulationEngine.Tick) now e :
  rtc registry_step (registries e) (registries (SimulationEngine.tick k now e)).
Proof.
  destruct k as [c|first second|draws|]; cbn.
  - apply exec_moves.
  - destruct (SimulationEngine.missionGenerationTimer e); [|done].
    apply generateMissions_moves.
  - destruct (SimulationEngine.stateTransitionTimer e); [|done].
    apply processStateTransitions_moves.
  - destruct (SimulationEngine.cleanupTimer e); [|done].
    apply rtc_once.
    apply (step_missions _ _ (MissionManager.CleanupCompletedMissions _) now).
Qed.

Lemma runTicks_moves ticks : ∀ e,
  rtc registry_step (registries e) (registries (SimulationEngine.runTicks ticks e)).
Proof.
  induction ticks as [|[now k] ticks IH]; intros e; [done|].
  cbn. etrans; [apply (tick_moves k now e)|]. apply IH.
Qed.

Lemma registries_wf_step s s' : registry_step s s' → registries_wf s → registries_wf s'.
Proof.
  intros Hstep (Hf & Hr & Hm).
  destruct Hstep as [fm mm slot key robot c now Hs|fm mm c now|fm mm c now];
    unfold registries_wf; cbn [fst snd] in *.
  - split; [|split; [|done]].
    + destruct Hf as [Hk Hi]. split.
      * rewrite (insert_slot_keys _ _ _ robot) by done. by rewrite length_insert.
      * apply Forall_insert; [done|]. cbn.
        rewrite robot_exec_id. by apply (Forall_lookup_1 _ _ _ _ Hi Hs).
    + apply Forall_insert; [done|]. cbn.
      apply robot_inv_exec. by apply (Forall_lookup_1 _ _ _ _ Hr Hs).
  - split; [by apply fleet_inv_exec|]. split; [by apply fleet_robot_inv_exec|done].
  - split; [done|]. split; [done|]. by apply stamps_exec.
Qed.

Lemma registries_wf_rtc s s' : rtc registry_step s s' → registries_wf s → registries_wf s'.
Proof. induction 1; eauto using registries_wf_step. Qed.

End EngineTicks.

(** X21. Take an engine constructed over two registries in any state their
    clients can bring them to, then any sequence of client calls and timer
    firings (mission generation, state-transition sweeps, cleanups, with
    any random outcomes and at any times). The registries stay well formed:
    the fleet holds robot-001, robot-002, ... in order, each robot under its
    own ID and IDLE exactly when it has no mission, and each mission is
    stored under its ID with exactly the optional fields of its status. *)
Theorem engine_keeps_registries_well_formed
    (fleetCalls : list (Time * FleetManager.Call))
    (missionCalls : list (Time * MissionManager.Call))
    (ticks : list (Time * SimulationEngine.Tick)) :
  let e := SimulationEngine.runTicks ticks
             (SimulationEngine.constructor
                (FleetManager.run fleetCalls FleetManager.constructor)
                (MissionManager.run missionCalls MissionManager.constructor)) in
  JsMap.keys (SimulationEngine.fleetManager e)
    = FleetManager.robotIdOf <$> seq 1 (JsMap.size (SimulationEngine.fleetManager e))
  ∧ Forall (fun entry => Robot.id entry.2 = entry.1
                         ∧ (Robot.status entry.2 = IDLE
                            ↔ Robot.currentMissionId entry.2 = None))
           (SimulationEngine.fleetManager e)
  ∧ map_Forall (fun k m => Mission.id m = k ∧ mission_stamps m)
               (SimulationEngine.missionManager e).
Proof.
  cbv zeta.
  set (e0 := SimulationEngine.constructor _ _).
  assert (registries_wf (registries e0)) as H0.
  { split; [apply fleet_inv_reachable|]. split.
    - apply fleet_robot_inv_run. constructor.
    - apply stamps_run, map_Forall_empty. }
  destruct (registries_wf_rtc _ _ (runTicks_moves ticks e0) H0) as ([Hk Hi] & Hr & Hm).
  cbn in *. split; [exact Hk|]. split; [|exact Hm].
  apply Forall_forall. intros entry Hin. rewrite Forall_forall in Hi, Hr.
  split; [by apply Hi|by apply Hr].
Qed.

Section EngineControl.
Implicit Types (e : SimulationEngine.t) (now : Time).

Lemma fleetEmit_control evs now : ∀ e,
  control (SimulationEngine.fleetEmit evs now e).2 = control e.
Proof.
  induction evs as [|ev evs IH]; intros e; [done|].
  cbn. destruct ev as [r s m|r [m|]]; cbn.
  - rewrite (IH (SimulationEngine.emit (SimulationEngine.robotStatusChanged r s m) e)).
    unfold control, lifecycleEvents. cbn. rewrite filter_app. cbn.
    by rewrite app_nil_r.
  - destruct (MissionManager.cancelMission m now (SimulationEngine.missionManager e))
      as [[[]|err] mm']; cbn; [|done].
    rewrite (IH (SimulationEngine.emit (SimulationEngine.missionCancelled r (Some m))
                   (SimulationEngine.setMissionManager mm' e))).
    unfold control, lifecycleEvents. cbn. rewrite filter_app. cbn.
    by rewrite app_nil_r.
  - done.
Qed.

Lemma callRobot_control slot method now e :
  control (SimulationEngine.callRobot slot method now e).2 = control e.
Proof.
  unfold SimulationEngine.callRobot.
  destruct (SimulationEngine.fleetManager e !! slot) as [[key robot]|]; [|done].
  destruct (method robot) as [[[[]|err] robot'] evs]; [|done].
  by rewrite fleetEmit_control.
Qed.

Lemma startBoth_control missionId slot now e :
  control (SimulationEngine.startBoth missionId slot now e).2 = control e.
Proof.
  unfold SimulationEngine.startBoth.
  pose proof (callRobot_control slot (Robot.startMission now) now e) as H.
  destruct (SimulationEngine.callRobot slot (Robot.startMission now) now e)
    as [[[]|err] e']; [|done].
  by destruct (MissionManager.startMission missionId now (SimulationEngine.missionManager e')).
Qed.

Lemma completeBoth_control missionId slot now e :
  control (SimulationEngine.completeBoth missionId slot now e).2 = control e.
Proof.
  unfold SimulationEngine.completeBoth.
  pose proof (callRobot_control slot (Robot.completeMission now) now e) as H.
  destruct (SimulationEngine.callRobot slot (Robot.completeMission now) now e)
    as [[[]|err] e']; [|done].
  by destruct (MissionManager.completeMission missionId now
                 (SimulationEngine.missionManager e')).
Qed.

Lemma sweepRobot_control since range advance rnd now slot e :
  (∀ missionId slot now e, control (advance missionId slot now e).2 = control e) →
  control (SimulationEngine.sweepRobot since range advance rnd now slot e).2 = control e.
Proof.
  intros Hadv. unfold SimulationEngine.sweepRobot.
  destruct (SimulationEngine.fleetManager e !! slot) as [[key robot]|]; [|done].
  destruct (Robot.getCurrentMissionId robot) as [missionId|]; [|done].
  case_decide; [done|].
  destruct (MissionManager.getMission missionId (SimulationEngine.missionManager e))
    as [mission|]; [|done].
  destruct (since mission) as [stamp|]; [|done].
  destruct (SimulationEngine.due range rnd stamp now); [apply Hadv|done].
Qed.

Lemma forEachRobot_control body rnd now slots : ∀ e,
  (∀ q now slot e, control (body q now slot e).2 = control e) →
  control (SimulationEngine.forEachRobot body rnd now slots e).2 = control e.
Proof.
  induction slots as [|slot slots IH]; intros e Hbody; [done|].
  cbn. pose proof (Hbody (rnd slot) now slot e) as H.
  destruct (body (rnd slot) now slot e) as [[[]|err] e']; [|done].
  cbn in H. rewrite <- H. by apply IH.
Qed.

Lemma processStateTransitions_control draws now e :
  control (SimulationEngine.processStateTransitions draws now e).2 = control e.
Proof.
  unfold SimulationEngine.processStateTransitions.
  assert (∀ rnd e, control (SimulationEngine.processAssignedRobots rnd now e).2 = control e)
    as H1.
  { intros rnd e0. apply forEachRobot_control. intros.
    apply sweepRobot_control. apply startBoth_control. }
  assert (∀ rnd e, control (SimulationEngine.processEnRouteRobots rnd now e).2 = control e)
    as H2.
  { intros rnd e0. apply forEachRobot_control. intros.
    apply sweepRobot_control. intros. apply callRobot_control. }
  assert (∀ rnd e, control (SimulationEngine.processDeliveringRobots rnd now e).2 = control e)
    as H3.
  { intros rnd e0. apply forEachRobot_control. intros.
    apply sweepRobot_control. apply completeBoth_control. }
  assert (∀ rnd e, control (SimulationEngine.processCompletedRobots rnd now e).2 = control e)
    as H4.
  { intros rnd e0. apply forEachRobot_control. intros.
    apply sweepRobot_control. intros. apply callRobot_control. }
  specialize (H1 (draws ASSIGNED) e).
  destruct (SimulationEngine.processAssignedRobots (draws ASSIGNED) now e)
    as [[[]|err] e1]; [|done]. cbn in H1.
  specialize (H2 (draws EN_ROUTE) e1).
  destruct (SimulationEngine.processEnRouteRobots (draws EN_ROUTE) now e1)
    as [[[]|err] e2]; cbn in *; [|congruence].
  specialize (H3 (draws DELIVERING) e2).
  destruct (SimulationEngine.processDeliveringRobots (draws DELIVERING) now e2)
    as [[[]|err] e3]; cbn in *; [|congruence].
  specialize (H4 (draws COMPLETED) e3).
  destruct (SimulationEngine.processCompletedRobots (draws COMPLETED) now e3)
    as [[[]|err] e4]; cbn in *; congruence.
Qed.

Lemma generateMission_control uuid rnd now e :
  control (SimulationEngine.generateMission uuid rnd now e).2 = control e.
Proof.
  unfold SimulationEngine.generateMission.
  destruct (MissionManager.createMission uuid rnd now (SimulationEngine.missionManager e))
    as [mission mm1].
  cbn [SimulationEngine.fleetManager SimulationEngine.setMissionManager].
  destruct (FleetManager.assignMissionToAvailableRobot mission now
              (SimulationEngine.fleetManager e)) as [[res fm'] evs].
  pose proof (fleetEmit_control evs now
                (SimulationEngine.setFleetManager fm'
                   (SimulationEngine.setMissionManager mm1 e))) as H.
  destruct (SimulationEngine.fleetEmit evs now _) as [[[]|err] e2]; cbn in *; [|done].
  destruct res as [[robot|]|err]; cbn; [|done..].
  by destruct (MissionManager.assignMission _ _ now (SimulationEngine.missionManager e2))
    as [[[]|err] mm'].
Qed.

Lemma generateMissions_control first second now e :
  control (SimulationEngine.generateMissions first second now e).1.2 = control e.
Proof.
  unfold SimulationEngine.generateMissions.
  pose proof (generateMission_control first.1 first.2 now e) as H1.
  destruct (SimulationEngine.generateMission first.1 first.2 now e) as [[a1|err] e1];
    [|done]. cbn in H1.
  pose proof (generateMission_control second.1 second.2 now e1) as H2.
  destruct (SimulationEngine.generateMission second.1 second.2 now e1) as [[a2|err] e2];
    cbn in *; congruence.
Qed.

Lemma tick_control (k : SimulationEngine.Tick) now e :
  k ≠ SimulationEngine.ClientCall SimulationEngine.Start →
  k ≠ SimulationEngine.ClientCall SimulationEngine.Stop →
  control (SimulationEngine.tick k now e) = control e.
Proof.
  intros Hstart Hstop. destruct k as [[c|c| |]|first second|draws|]; cbn; try done.
  - destruct (FleetManager.exec c now (SimulationEngine.fleetManager e)) as [fm' evs].
    by rewrite fleetEmit_control.
  - destruct (SimulationEngine.missionGenerationTimer e); [|done].
    apply generateMissions_control.
  - destruct (SimulationEngine.stateTransitionTimer e); [|done].
    apply processStateTransitions_control.
  - by destruct (SimulationEngine.cleanupTimer e).
Qed.

Lemma runsSoFar_start n :
  (runsSoFar n false ++ [SimulationEngine.simulationStarted])%list = runsSoFar n true.
Proof. unfold runsSoFar. by rewrite app_nil_r. Qed.

Lemma runsSoFar_stop n :
  (runsSoFar n true ++ [SimulationEngine.simulationStopped])%list = runsSoFar (S n) false.
Proof.
  unfold runsSoFar. rewrite app_nil_r, <- app_assoc. cbn [app].
  induction n as [|n IH]; [done|].
  cbn [replicate concat]. rewrite <- app_assoc, IH. done.
Qed.

End EngineControl.

(** X22. However an engine is driven after its construction (client calls,
    timer firings), its three interval timers are armed, with the periods
    of 60 s, 10 s and 5 min, exactly while it is running, and the
    life-cycle events it has emitted alternate: simulationStarted,
    simulationStopped, simulationStarted, ..., the last one being
    simulationStarted exactly when the engine is running; so a start of a
    running engine and a stop of a stopped one emit no life-cycle event. *)
Theorem engine_runs_alternate
    (fm : list (string * Robot.t)) (mm : gmap string Mission.t)
    (ticks : list (Time * SimulationEngine.Tick)) :
  let e := SimulationEngine.runTicks ticks (SimulationEngine.constructor fm mm) in
  lifecycle e
    = (if SimulationEngine.isRunning e
       then (true, Some 60000, Some 10000, Some 300000)
       else (false, None, None, None))%Z
  ∧ ∃ n, lifecycleEvents e = runsSoFar n (SimulationEngine.isRunning e).
Proof.
  cbv zeta.
  assert (∀ e,
    (lifecycle e
       = (if SimulationEngine.isRunning e
          then (true, Some 60000, Some 10000, Some 300000)
          else (false, None, None, None))%Z
     ∧ ∃ n, lifecycleEvents e = runsSoFar n (SimulationEngine.isRunning e)) →
    let e' := SimulationEngine.runTicks ticks e in
    lifecycle e'
       = (if SimulationEngine.isRunning e'
          then (true, Some 60000, Some 10000, Some 300000)
          else (false, None, None, None))%Z
     ∧ ∃ n, lifecycleEvents e' = runsSoFar n (SimulationEngine.isRunning e')) as Hrun.
  { induction ticks as [|[now k] ticks IH]; intros e He; [done|].
    cbn. apply IH. clear IH.
    assert (k = SimulationEngine.ClientCall SimulationEngine.Start
            ∨ k = SimulationEngine.ClientCall SimulationEngine.Stop
            ∨ (k ≠ SimulationEngine.ClientCall SimulationEngine.Start
               ∧ k ≠ SimulationEngine.ClientCall SimulationEngine.Stop))
      as [->|[->|[Hstart Hstop]]]
      by (destruct k as [[c|c| |]|first second|draws|]; auto).
    - destruct He as [Hl [n Hn]]. cbn. unfold SimulationEngine.start.
      unfold SimulationEngine.isRunning in *.
      destruct (SimulationEngine.isSimulationRunning e) eqn:Hr; cbn.
      + rewrite Hr. split; [done|]. by exists n.
      + split; [done|]. exists n. unfold lifecycleEvents in *. cbn.
        rewrite filter_app, Hn. cbn. apply runsSoFar_start.
    - destruct He as [Hl [n Hn]]. cbn. unfold SimulationEngine.stop.
      unfold SimulationEngine.isRunning in *.
      destruct (SimulationEngine.isSimulationRunning e) eqn:Hr; cbn.
      + split; [done|]. exists (S n). unfold lifecycleEvents in *. cbn.
        rewrite filter_app, Hn. cbn. apply runsSoFar_stop.
      + rewrite Hr. split; [done|]. by exists n.
    - pose proof (tick_control k now e Hstart Hstop) as Hc.
      assert (lifecycle (SimulationEngine.tick k now e) = lifecycle e) as Hl
        by (unfold control in Hc; congruence).
      assert (lifecycleEvents (SimulationEngine.tick k now e) = lifecycleEvents e) as He'
        by (unfold control in Hc; congruence).
      assert (SimulationEngine.isRunning (SimulationEngine.tick k now e)
              = SimulationEngine.isRunning e) as Hr
        by (unfold lifecycle, SimulationEngine.isRunning in *; congruence).
      rewrite Hr, Hl, He'. exact He. }
  apply Hrun. split; [done|]. by exists 0.
Qed.

Section QuietSweep.
Implicit Types (e : SimulationEngine.t) (now : Time).

Lemma slotsFrom_spec status (fm : list (string * Robot.t)) : ∀ i slot,
  slot ∈ SimulationEngine.slotsFrom i status fm →
  ∃ key robot, fm !! (slot - i)%nat = Some (key, robot) ∧ Robot.status robot = status
               ∧ (i ≤ slot)%nat.
Proof.
  induction fm as [|[key robot] fm IH]; intros i slot Hin; cbn in Hin.
  - by apply elem_of_nil in Hin.
  - unfold Robot.getStatus in Hin.
    assert (slot ∈ SimulationEngine.slotsFrom (S i) status fm →
            ∃ key' robot', ((key, robot) :: fm) !! (slot - i)%nat = Some (key', robot')
                           ∧ Robot.status robot' = status ∧ (i ≤ slot)%nat) as Hrest.
    { intros H. destruct (IH _ _ H) as (k & r & Hl & Hs & Hle).
      exists k, r. split; [|split; [done|lia]].
      replace (slot - i)%nat with (S (slot - S i)) by lia. done. }
    case_decide as Hst; [|by apply Hrest].
    apply elem_of_cons in Hin as [->|Hin]; [|by apply Hrest].
    exists key, robot. rewrite Nat.sub_diag. done.
Qed.

Lemma due_before_minimum (range : Z * Z) rnd (stamp : Time) now :
  unit_interval rnd → (range.1 ≤ range.2)%Z → (now - stamp < range.1)%Z →
  SimulationEngine.due range rnd stamp now = false.
Proof.
  intros Hrnd Hrange Hlt. unfold SimulationEngine.due. cbv zeta.
  pose proof (getRandomDuration_bounds rnd range.1 range.2 Hrnd Hrange).
  apply bool_decide_eq_false. lia.
Qed.

Lemma sweepRobot_quiet status advance rnd now slot e key robot :
  nothing_due now e → unit_interval rnd →
  SimulationEngine.fleetManager e !! slot = Some (key, robot) →
  Robot.status robot = status →
  SimulationEngine.sweepRobot (dwell_stamp status) (dwell_range status) advance rnd now slot e
  = (Return tt, e).
Proof.
  intros Hq Hrnd Hs Hst. unfold SimulationEngine.sweepRobot. rewrite Hs.
  unfold Robot.getCurrentMissionId, MissionManager.getMission.
  destruct (Robot.currentMissionId robot) as [missionId|] eqn:Hm; [|done].
  case_decide; [done|].
  destruct (SimulationEngine.missionManager e !! missionId) as [mission|] eqn:Hmm; [|done].
  destruct (dwell_stamp status mission) as [stamp|] eqn:Hstamp; [|done].
  rewrite due_before_minimum; [done|done| |].
  - by destruct status.
  - subst status. by eapply Hq.
Qed.

Lemma forEachRobot_quiet body rnd now e : ∀ slots,
  (∀ slot, slot ∈ slots → body (rnd slot) now slot e = (Return tt, e)) →
  SimulationEngine.forEachRobot body rnd now slots e = (Return tt, e).
Proof.
  induction slots as [|slot slots IH]; intros Hbody; [done|].
  cbn. rewrite Hbody by (apply elem_of_cons; by left).
  apply IH. intros s Hs. apply Hbody. apply elem_of_cons. by right.
Qed.

Lemma sweepStatus_quiet status advance rnd now e :
  nothing_due now e → (∀ slot, unit_interval (rnd slot)) →
  SimulationEngine.forEachRobot
    (SimulationEngine.sweepRobot (dwell_stamp status) (dwell_range status) advance)
    rnd now (SimulationEngine.slotsByStatus status (SimulationEngine.fleetManager e)) e
  = (Return tt, e).
Proof.
  intros Hq Hrnd. apply forEachRobot_quiet. intros slot Hin.
  apply slotsFrom_spec in Hin as (key & robot & Hs & Hst & _).
  rewrite Nat.sub_0_r in Hs. by eapply sweepRobot_quiet.
Qed.

End QuietSweep.

(** X23. A state-transition sweep changes nothing and logs no error when
    no robot has been in its status for the minimum dwell time of that
    status (30 s ASSIGNED, 60 s EN_ROUTE, 120 s DELIVERING and 10 s
    COMPLETED, measured from the mission's assignedAt, startedAt,
    startedAt and completedAt): whatever delays are drawn, no robot and no
    mission is advanced and no event is emitted. *)
Theorem sweep_before_minimum_dwell_is_quiet
    (draws : RobotStatus → nat → QArith_base.Q) (now : Time) (e : SimulationEngine.t) :
  (∀ status slot, unit_interval (draws status slot)) →
  nothing_due now e →
  SimulationEngine.processStateTransitions draws now e = (None, e).
Proof.
  intros Hrnd Hq. unfold SimulationEngine.processStateTransitions.
  unfold SimulationEngine.processAssignedRobots, SimulationEngine.processEnRouteRobots,
    SimulationEngine.processDeliveringRobots, SimulationEngine.processCompletedRobots.
  rewrite (sweepStatus_quiet ASSIGNED) by done.
  rewrite (sweepStatus_quiet EN_ROUTE) by done.
  rewrite (sweepStatus_quiet DELIVERING) by done.
  rewrite (sweepStatus_quiet COMPLETED) by done.
  done.
Qed.

Lemma sweep_before_minimum_dwell_is_quiet_witness :
  SimulationEngine.processStateTransitions (fun _ _ => half) 2000 delivering_engine
  = (None, delivering_engine).
Proof.
  apply (sweep_before_minimum_dwell_is_quiet (fun _ _ => half) 2000 delivering_engine).
  - intros _ _. split; by vm_compute.
  - intros slot key robot missionId mission stamp Hs Hm Hmm Hst.
    destruct slot as [|[|slot]]; vm_compute in Hs; [| |discriminate Hs];
      injection Hs as <- <-; vm_compute in Hm; [|discriminate Hm].
    injection Hm as <-. vm_compute in Hmm. injection Hmm as <-.
    vm_compute in Hst. injection Hst as <-. by vm_compute.
Defined.

Section Generation.
Implicit Types (e : SimulationEngine.t) (now : Time).

Lemma assign_slot_statistics (mission : Mission.t) now (fm : list (string * Robot.t))
    slot key idle :
  fm !! slot = Some (key, idle) → Robot.status idle = IDLE →
  let before := FleetManager.getFleetStatistics fm in
  let after := FleetManager.getFleetStatistics
                 (<[slot := (key, assigned_to mission now idle)]> fm) in
  FleetStatistics.idle before = S (FleetStatistics.idle after)
  ∧ FleetStatistics.assigned after = S (FleetStatistics.assigned before)
  ∧ FleetStatistics.en_route after = FleetStatistics.en_route before
  ∧ FleetStatistics.delivering after = FleetStatistics.delivering before
  ∧ FleetStatistics.completed after = FleetStatistics.completed before
  ∧ FleetStatistics.total after = FleetStatistics.total before.
Proof.
  intros Hs Hidle. cbv zeta.
  unfold FleetManager.getFleetStatistics. rewrite !countRobot_fold. cbn.
  unfold JsMap.size, JsMap.values. rewrite list_fmap_insert, length_insert. cbn.
  assert (fm.*2 !! slot = Some idle) as Hv by (by rewrite list_lookup_fmap, Hs).
  pose proof (fun s => countStatus_insert s _ _ _ (assigned_to mission now idle) Hv) as Hc.
  pose proof (Hc IDLE) as H1. pose proof (Hc ASSIGNED) as H2.
  pose proof (Hc EN_ROUTE) as H3. pose proof (Hc DELIVERING) as H4.
  pose proof (Hc COMPLETED) as H5. cbn in H1, H2, H3, H4, H5.
  rewrite Hidle in *.
  repeat (case_decide; try done). repeat split; lia.
Qed.

Lemma no_idle_statistics (fm : list (string * Robot.t)) :
  list_find (fun entry => Robot.getStatus entry.2 = IDLE) fm = None →
  FleetStatistics.idle (FleetManager.getFleetStatistics fm) = 0.
Proof.
  intros Hnone. apply available_nil in Hnone.
  unfold FleetManager.getFleetStatistics. rewrite countRobot_fold. cbn.
  unfold countStatus. unfold FleetManager.getAvailableRobots in Hnone.
  by rewrite Hnone.
Qed.

Lemma generateMission_spec uuid rnd now e :
  let m := newMission uuid rnd now in
  match list_find (fun entry => Robot.getStatus entry.2 = IDLE) (SimulationEngine.fleetManager e) with
  | None =>
      ∃ e', SimulationEngine.generateMission uuid rnd now e = (Return None, e')
            ∧ SimulationEngine.fleetManager e' = SimulationEngine.fleetManager e
            ∧ SimulationEngine.missionManager e'
              = <[Mission.id m := m]> (SimulationEngine.missionManager e)
  | Some (slot, (key, idle)) =>
      ∃ e', SimulationEngine.generateMission uuid rnd now e
            = (Return (Some (Mission.id m, Robot.id idle)), e')
            ∧ SimulationEngine.fleetManager e'
              = <[slot := (key, assigned_to m now idle)]> (SimulationEngine.fleetManager e)
            ∧ SimulationEngine.missionManager e'
              = <[Mission.id m := assignedMission (Robot.id idle) now m]>
                  (SimulationEngine.missionManager e)
  end.
Proof.
  cbv zeta. unfold SimulationEngine.generateMission.
  change (MissionManager.createMission uuid rnd now (SimulationEngine.missionManager e))
    with (newMission uuid rnd now,
          <[Mission.id (newMission uuid rnd now) := newMission uuid rnd now]>
            (SimulationEngine.missionManager e)).
  set (m := newMission uuid rnd now).
  cbn [SimulationEngine.fleetManager SimulationEngine.setMissionManager].
  destruct (assign_cases m now (SimulationEngine.fleetManager e))
    as [[-> ->]|(slot & key & idle & -> & ->)].
  - cbn. eexists. split; [reflexivity|]. done.
  - cbn. unfold MissionManager.assignMission. rewrite lookup_insert_eq.
    rewrite decide_False by (intros H; by apply H).
    eexists. split; [reflexivity|]. cbn. split; [done|].
    by rewrite insert_insert_eq.
Qed.

Lemma generateMissions_cases first second now e :
  let m1 := newMission first.1 first.2 now in
  let m2 := newMission second.1 second.2 now in
  let fm := SimulationEngine.fleetManager e in
  let mm := SimulationEngine.missionManager e in
  let idle := fun entry : string * Robot.t => Robot.getStatus entry.2 = IDLE in
  ∃ e' payloads,
    SimulationEngine.generateMissions first second now e = (None, e', payloads)
    ∧ ((list_find idle fm = None ∧ payloads = []
        ∧ SimulationEngine.fleetManager e' = fm
        ∧ SimulationEngine.missionManager e' = <[Mission.id m2 := m2]> (<[Mission.id m1 := m1]> mm))
       ∨ ∃ s1 k1 r1,
           let fm1 := <[s1 := (k1, assigned_to m1 now r1)]> fm in
           let mm1 := <[Mission.id m1 := assignedMission (Robot.id r1) now m1]> mm in
           fm !! s1 = Some (k1, r1) ∧ Robot.status r1 = IDLE
           ∧ ((list_find idle fm1 = None ∧ payloads = [(Mission.id m1, Robot.id r1)]
               ∧ SimulationEngine.fleetManager e' = fm1
               ∧ SimulationEngine.missionManager e' = <[Mission.id m2 := m2]> mm1)
              ∨ ∃ s2 k2 r2,
                  fm1 !! s2 = Some (k2, r2) ∧ Robot.status r2 = IDLE
                  ∧ payloads = [(Mission.id m1, Robot.id r1); (Mission.id m2, Robot.id r2)]
                  ∧ SimulationEngine.fleetManager e'
                    = <[s2 := (k2, assigned_to m2 now r2)]> fm1
                  ∧ SimulationEngine.missionManager e'
                    = <[Mission.id m2 := assignedMission (Robot.id r2) now m2]> mm1)).
Proof.
  cbv zeta. unfold SimulationEngine.generateMissions.
  pose proof (generateMission_spec first.1 first.2 now e) as H1. cbv zeta in H1.
  destruct (list_find _ (SimulationEngine.fleetManager e)) as [[s1 [k1 r1]]|] eqn:E1.
  - destruct H1 as (e1 & -> & Hfm1 & Hmm1).
    apply list_find_Some in E1 as (Hs1 & Hidle1 & _). cbn in Hidle1.
    pose proof (generateMission_spec second.1 second.2 now e1) as H2. cbv zeta in H2.
    rewrite Hfm1, Hmm1 in H2.
    destruct (list_find _ (<[s1 := _]> (SimulationEngine.fleetManager e)))
      as [[s2 [k2 r2]]|] eqn:E2.
    + destruct H2 as (e2 & -> & Hfm2 & Hmm2).
      apply list_find_Some in E2 as (Hs2 & Hidle2 & _). cbn in Hidle2.
      eexists _, _. split; [reflexivity|]. right. exists s1, k1, r1.
      split; [done|]. split; [done|]. right. exists s2, k2, r2. done.
    + destruct H2 as (e2 & -> & Hfm2 & Hmm2).
      eexists _, _. split; [reflexivity|]. right. exists s1, k1, r1.
      split; [done|]. split; [done|]. left. rewrite Hfm2, Hmm2. done.
  - destruct H1 as (e1 & -> & Hfm1 & Hmm1).
    pose proof (generateMission_spec second.1 second.2 now e1) as H2. cbv zeta in H2.
    rewrite Hfm1, Hmm1, E1 in H2. destruct H2 as (e2 & -> & Hfm2 & Hmm2).
    eexists _, _. split; [reflexivity|]. left. done.
Qed.

End Generation.

(** X24. generateMissions never logs an error, whatever the state of the
    engine: it returns after two turns. It hands missions to
    min(2, number of IDLE robots) robots; in the fleet statistics that many
    robots move from idle to assigned and the other counts and the total
    stay; robots that were not IDLE are left as they were, and every
    payload of 'missionAssigned' names a robot that was IDLE and is now
    ASSIGNED to the mission of the payload, last updated at the time of the
    call. *)
Theorem generateMissions_serves_idle_robots
    (first second : string * QArith_base.Q) (now : Time) (e : SimulationEngine.t) :
  ∃ e' payloads,
    SimulationEngine.generateMissions first second now e = (None, e', payloads)
    ∧ let fm := SimulationEngine.fleetManager e in
      let fm' := SimulationEngine.fleetManager e' in
      let before := FleetManager.getFleetStatistics fm in
      let after := FleetManager.getFleetStatistics fm' in
      length payloads = Nat.min 2 (FleetStatistics.idle before)
      ∧ FleetStatistics.idle before = (FleetStatistics.idle after + length payloads)%nat
      ∧ FleetStatistics.assigned after
        = (FleetStatistics.assigned before + length payloads)%nat
      ∧ FleetStatistics.en_route after = FleetStatistics.en_route before
      ∧ FleetStatistics.delivering after = FleetStatistics.delivering before
      ∧ FleetStatistics.completed after = FleetStatistics.completed before
      ∧ FleetStatistics.total after = FleetStatistics.total before
      ∧ (∀ slot key robot,
           fm !! slot = Some (key, robot) → Robot.status robot ≠ IDLE →
           fm' !! slot = Some (key, robot))
      ∧ Forall (fun payload =>
                  ∃ slot key robot,
                    fm !! slot = Some (key, robot) ∧ Robot.status robot = IDLE
                    ∧ Robot.id robot = payload.2
                    ∧ fm' !! slot
                      = Some (key, Robot.mk (Robot.id robot) ASSIGNED (Some payload.1)
                                     (Robot.createdAt robot) now))
               payloads.
Proof.
  destruct (generateMissions_cases first second now e) as (e' & payloads & E & Hcases).
  exists e', payloads. split; [exact E|]. cbv zeta in *.
  destruct Hcases as [(Hnone & -> & -> & _)|(s1 & k1 & r1 & Hs1 & Hi1 & Hcases)].
  - rewrite (no_idle_statistics _ Hnone). cbn. repeat split; try done; lia.
  - pose proof (assign_slot_statistics (newMission first.1 first.2 now) now _ _ _ _ Hs1 Hi1)
      as (A1 & A2 & A3 & A4 & A5 & A6).
    assert (s1 < length (SimulationEngine.fleetManager e))%nat as Hlt1
      by (by eapply lookup_lt_Some).
    destruct Hcases as [(Hnone & -> & -> & _)|(s2 & k2 & r2 & Hs2 & Hi2 & -> & -> & _)].
    + pose proof (no_idle_statistics _ Hnone) as Hz. cbn [length].
      rewrite A1, A2, A3, A4, A5, A6, Hz. cbn.
      split; [done|]. split; [done|]. split; [lia|]. do 4 (split; [done|]).
      split.
      * intros slot key robot Hs Hst.
        rewrite list_lookup_insert_ne; [done|]. intros <-. congruence.
      * repeat constructor. exists s1, k1, r1. repeat split; try done.
        by rewrite list_lookup_insert_eq.
    + assert (s1 ≠ s2) as Hne.
      { intros <-. rewrite list_lookup_insert_eq in Hs2 by done.
        injection Hs2 as <- <-. done. }
      rewrite list_lookup_insert_ne in Hs2 by done.
      pose proof (assign_slot_statistics (newMission second.1 second.2 now) now
                    (<[s1 := (k1, assigned_to (newMission first.1 first.2 now) now r1)]>
                       (SimulationEngine.fleetManager e)) s2 k2 r2) as B.
      rewrite list_lookup_insert_ne in B by done.
      destruct (B Hs2 Hi2) as (B1 & B2 & B3 & B4 & B5 & B6). clear B.
      cbn [length]. rewrite B2, B3, B4, B5, B6, A2, A3, A4, A5, A6, A1, B1. cbn.
      split; [done|]. split; [f_equal; lia|]. split; [lia|]. do 4 (split; [done|]).
      split.
      * intros slot key robot Hs Hst.
        rewrite !list_lookup_insert_ne; [done| |]; intros <-; congruence.
      * repeat constructor.
        -- exists s1, k1, r1. repeat split; try done.
           rewrite list_lookup_insert_ne by done. by rewrite list_lookup_insert_eq.
        -- exists s2, k2, r2. repeat split; try done.
           rewrite list_lookup_insert_eq; [done|]. by rewrite length_insert; eapply lookup_lt_Some.
Qed.

(** X25. When the IDs of the two missions generateMissions creates differ
    (their UUIDs differ in the first eight characters), the registry holds
    both afterwards and its other missions are untouched: the i-th mission
    is stored as assigned at the time of the call to the robot of the i-th
    'missionAssigned' payload, which carries its ID, or, when there is no
    i-th payload because no robot was IDLE, as it was created. *)
Theorem generateMissions_registers_missions
    (first second : string * QArith_base.Q) (now : Time) (e : SimulationEngine.t) :
  let m1 := newMission first.1 first.2 now in
  let m2 := newMission second.1 second.2 now in
  Mission.id m1 ≠ Mission.id m2 →
  let '(_, e', payloads) := SimulationEngine.generateMissions first second now e in
  let mm' := SimulationEngine.missionManager e' in
  (∀ k, k ≠ Mission.id m1 → k ≠ Mission.id m2 →
        mm' !! k = SimulationEngine.missionManager e !! k)
  ∧ ∀ i m, [m1; m2] !! i = Some m →
      match payloads !! i with
      | Some (missionId, robotId) =>
          missionId = Mission.id m
          ∧ mm' !! missionId = Some (assignedMission robotId now m)
      | None => mm' !! Mission.id m = Some m
      end.
Proof.
  cbv zeta. intros Hne.
  destruct (generateMissions_cases first second now e) as (e' & payloads & -> & Hcases).
  cbv zeta in Hcases.
  assert (∀ (mm : gmap string Mission.t) a b, 
            (<[Mission.id (newMission second.1 second.2 now) := b]>
               (<[Mission.id (newMission first.1 first.2 now) := a]> mm))
              !! Mission.id (newMission first.1 first.2 now) = Some a) as Hfirst.
  { intros mm a b. rewrite lookup_insert_ne by done. by rewrite lookup_insert_eq. }
  destruct Hcases as [(_ & -> & _ & ->)|(s1 & k1 & r1 & _ & _ &
    [(_ & -> & _ & ->)|(s2 & k2 & r2 & _ & _ & -> & _ & ->)])].
  all: split; [intros k Hk1 Hk2; by rewrite !lookup_insert_ne by done|].
  all: intros [|[|i]] m Hm; cbn in Hm; simplify_eq; cbn;
    rewrite ?Hfirst, ?lookup_insert_eq; done.
Qed.

Lemma generateMissions_registers_missions_witness :
  SimulationEngine.missionManager
    (SimulationEngine.generateMissions (uuidA, half) (uuidC, half) 5000
       (SimulationEngine.constructor fleet3 MissionManager.constructor)).1.2
    !! "mission-3f2a9c1e"
  = Some (assignedMission "robot-001" 5000 (newMission uuidA half 5000)).
Proof.
  pose proof (generateMissions_registers_missions (uuidA, half) (uuidC, half) 5000
                (SimulationEngine.constructor fleet3 MissionManager.constructor)) as H.
  cbv zeta in H.
  destruct (SimulationEngine.generateMissions _ _ _ _) as [[err e'] payloads] eqn:E.
  vm_compute in E. injection E as <- <- <-.
  assert (Mission.id (newMission uuidA half 5000) ≠ Mission.id (newMission uuidC half 5000))
    as Hne by (intros Heq; vm_compute in Heq; discriminate Heq).
  destruct (H Hne) as [_ H2].
  specialize (H2 0%nat _ eq_refl). destruct H2 as [_ H2].
  vm_compute in H2 |- *. exact H2.
Defined.

(** ** Dashboard queries *)

Section Dashboard.

Lemma engine_registries_wf
    (fleetCalls : list (Time * FleetManager.Call))
    (missionCalls : list (Time * MissionManager.Call))
    (ticks : list (Time * SimulationEngine.Tick)) :
  registries_wf
    (registries
       (SimulationEngine.runTicks ticks
          (SimulationEngine.constructor
             (FleetManager.run fleetCalls FleetManager.constructor)
             (MissionManager.run missionCalls MissionManager.constructor)))).
Proof.
  eapply registries_wf_rtc; [apply runTicks_moves|].
  split; [apply fleet_inv_reachable|]. split.
  - apply fleet_robot_inv_run. constructor.
  - apply stamps_run, map_Forall_empty.
Qed.

Lemma countStatus_toData status (robots : list Robot.t) :
  length (filter (fun r => RobotData.status r = status) (Robot.toData <$> robots))
  = countStatus status robots.
Proof.
  unfold countStatus, Robot.getStatus.
  induction robots as [|robot robots IH]; [done|].
  rewrite fmap_cons, !filter_cons. cbn [Robot.toData RobotData.status].
  case_decide; cbn [length]; by rewrite IH.
Qed.

Lemma fleet_ids (fm : list (string * Robot.t)) :
  Forall (fun entry => Robot.id entry.2 = entry.1) fm →
  RobotData.id <$> (Robot.toData <$> JsMap.values fm) = JsMap.keys fm.
Proof.
  unfold JsMap.values, JsMap.keys.
  induction 1 as [|[k r] fm Hk _ IH]; [done|]. cbn in *. by rewrite IH, Hk.
Qed.

End Dashboard.

(** X26. A dashboard snapshot taken at any point of the life of an engine
    is consistent: its robots are robot-001, robot-002, ... in order, as
    many as the total of its statistics; each count of the statistics is
    the number of robots of the snapshot with that status; a robot of the
    snapshot is IDLE exactly when its currentMissionId is null; its active
    missions are exactly the missions of the registry with status assigned
    or in_progress; and lastUpdated is the time of the call. *)
Theorem dashboard_snapshot_consistent
    (fleetCalls : list (Time * FleetManager.Call))
    (missionCalls : list (Time * MissionManager.Call))
    (ticks : list (Time * SimulationEngine.Tick)) (now : Time) :
  let e := SimulationEngine.runTicks ticks
             (SimulationEngine.constructor
                (FleetManager.run fleetCalls FleetManager.constructor)
                (MissionManager.run missionCalls MissionManager.constructor)) in
  let d := DashboardService.getDashboardData now (SimulationEngine.fleetManager e)
             (SimulationEngine.missionManager e) in
  RobotData.id <$> DashboardData.robots d
    = FleetManager.robotIdOf <$> seq 1 (FleetStatistics.total (DashboardData.fleetStats d))
  ∧ (∀ status, statOf status (DashboardData.fleetStats d)
               = length (filter (fun r => RobotData.status r = status)
                           (DashboardData.robots d)))
  ∧ Forall (fun r => RobotData.status r = IDLE ↔ RobotData.currentMissionId r = None)
           (DashboardData.robots d)
  ∧ (∀ m, m ∈ DashboardData.activeMissions d
          ↔ SimulationEngine.missionManager e !! Mission.id m = Some m
            ∧ (Mission.status m = assigned ∨ Mission.status m = in_progress))
  ∧ DashboardData.lastUpdated d = now.
Proof.
  cbv zeta.
  destruct (engine_registries_wf fleetCalls missionCalls ticks) as ([Hk Hi] & Hr & Hm).
  set (e := SimulationEngine.runTicks _ _) in *. cbn in Hk, Hi, Hr, Hm.
  unfold DashboardService.getDashboardData. cbn.
  unfold FleetManager.getAllRobots, FleetManager.getFleetStatistics.
  rewrite countRobot_fold. cbn. split; [|split; [|split; [|split; [|done]]]].
  - by rewrite fleet_ids.
  - intros status. rewrite countStatus_toData. by destruct status.
  - unfold JsMap.values. rewrite Forall_fmap, Forall_fmap.
    eapply Forall_impl; [exact Hr|]. intros [k r] H. exact H.
  - intros m. unfold MissionManager.getActiveMissions. rewrite list_elem_of_filter.
    rewrite getAllMissions_elem_of. split.
    + intros [Hs (k & Hl)]. split; [|done]. by destruct (Hm k m Hl) as [-> _].
    + intros [Hl Hs]. split; [done|]. by eexists.
Qed.

(** X27. getRobotDetails at any point of the life of an engine: it returns
    null exactly for an ID that no robot of the dashboard snapshot has;
    otherwise the robot data is the snapshot's entry with that ID, and the
    mission is null when the robot has no mission ID or an empty one (in
    particular for every IDLE robot), undefined when the registry has no
    mission of that ID, and otherwise the registry's mission of that ID,
    which is among the snapshot's active missions exactly when it is
    assigned or in_progress. *)
Theorem getRobotDetails_cases
    (fleetCalls : list (Time * FleetManager.Call))
    (missionCalls : list (Time * MissionManager.Call))
    (ticks : list (Time * SimulationEngine.Tick)) (now : Time) (robotId : string) :
  let e := SimulationEngine.runTicks ticks
             (SimulationEngine.constructor
                (FleetManager.run fleetCalls FleetManager.constructor)
                (MissionManager.run missionCalls MissionManager.constructor)) in
  let fm := SimulationEngine.fleetManager e in
  let mm := SimulationEngine.missionManager e in
  let d := DashboardService.getDashboardData now fm mm in
  match DashboardService.getRobotDetails robotId fm mm with
  | None => robotId ∉ RobotData.id <$> DashboardData.robots d
  | Some (r, mission) =>
      r ∈ DashboardData.robots d ∧ RobotData.id r = robotId
      ∧ match mission with
        | DashboardService.Null =>
            RobotData.currentMissionId r = None ∨ RobotData.currentMissionId r = Some ""
        | DashboardService.Undefined =>
            ∃ missionId, RobotData.currentMissionId r = Some missionId
                         ∧ missionId ≠ "" ∧ mm !! missionId = None
        | DashboardService.Found m =>
            RobotData.currentMissionId r = Some (Mission.id m)
            ∧ Mission.id m ≠ "" ∧ mm !! Mission.id m = Some m
            ∧ (m ∈ DashboardData.activeMissions d
               ↔ Mission.status m = assigned ∨ Mission.status m = in_progress)
        end
      ∧ (RobotData.status r = IDLE → mission = DashboardService.Null)
  end.
Proof.
  cbv zeta.
  destruct (engine_registries_wf fleetCalls missionCalls ticks) as ([Hk Hi] & Hr & Hm).
  set (e := SimulationEngine.runTicks _ _) in *. cbn in Hk, Hi, Hr, Hm.
  unfold DashboardService.getRobotDetails, DashboardService.getDashboardData,
    FleetManager.getRobot, FleetManager.getAllRobots. cbn.
  destruct (JsMap.get robotId (SimulationEngine.fleetManager e)) as [robot|] eqn:E.
  - pose proof (get_elem_of _ _ _ E) as Hin.
    pose proof (get_Forall _ _ _ _ Hi E) as Hid. cbn in Hid.
    pose proof (get_Forall _ _ _ _ Hr E) as Hinv. cbn in Hinv.
    split.
    { apply list_elem_of_fmap. exists robot. split; [done|].
      unfold JsMap.values. apply list_elem_of_fmap. by exists (robotId, robot). }
    split; [done|]. split.
    + unfold MissionManager.getMission.
      destruct (Robot.currentMissionId robot) as [missionId|] eqn:Hc; [|by left].
      case_decide as Hempty; [subst; by right|].
      destruct (SimulationEngine.missionManager e !! missionId) as [m|] eqn:Hl.
      * destruct (Hm _ _ Hl) as [Hmid _]. subst missionId.
        split; [done|]. split; [done|]. split; [done|].
        unfold MissionManager.getActiveMissions. rewrite list_elem_of_filter.
        rewrite getAllMissions_elem_of. naive_solver.
      * by exists missionId.
    + intros Hs. apply Hinv in Hs. by rewrite Hs.
  - rewrite fleet_ids by done. by apply get_None_keys.
Qed.

(** ** Robots and missions in step *)

Section CallRobot.
Implicit Types (e : SimulationEngine.t) (now : Time).

Lemma callRobot_registries slot method c now e :
  is_method method c now → c ≠ Robot.CancelCurrentMission →
  SimulationEngine.missionManager (SimulationEngine.callRobot slot method now e).2
    = SimulationEngine.missionManager e
  ∧ SimulationEngine.fleetManager (SimulationEngine.callRobot slot method now e).2
    = match SimulationEngine.fleetManager e !! slot with
      | Some (key, robot) =>
          <[slot := (key, (Robot.exec c now robot).1)]> (SimulationEngine.fleetManager e)
      | None => SimulationEngine.fleetManager e
      end
  ∧ (SimulationEngine.callRobot slot method now e).1
    = match SimulationEngine.fleetManager e !! slot with
      | Some (key, robot) => (method robot).1.1
      | None => Return tt
      end.
Proof.
  intros Hm Hc. unfold SimulationEngine.callRobot.
  destruct (SimulationEngine.fleetManager e !! slot) as [[key robot]|] eqn:E; [|done].
  destruct (Hm robot) as [H1 H2].
  pose proof (robot_method_events c now robot Hc) as Hevs. rewrite <- H2 in Hevs.
  destruct (method robot) as [[res robot'] evs]. cbn in H1, H2, Hevs. subst robot'.
  destruct res as [[]|err]; [|done].
  destruct (fleetEmit_Return _ now
              (SimulationEngine.setFleetManager
                 (<[slot := (key, (Robot.exec c now robot).1)]> (SimulationEngine.fleetManager e))
                 e) Hevs) as (e' & -> & Hf & Hmm & _).
  cbn. by rewrite Hf, Hmm.
Qed.

End CallRobot.

Section Orphans.
Context (slot : nat) (key : string) (robot : Robot.t) (missionId : string).
Hypothesis Hbound : Robot.currentMissionId robot = Some missionId.
Hypothesis Hbusy : Robot.status robot ≠ IDLE.
Implicit Types (e : SimulationEngine.t) (now : Time).

Lemma callRobot_orphaned slot' method c now e :
  is_method method c now → c ≠ Robot.CancelCurrentMission → slot' ≠ slot →
  orphaned slot key robot missionId e →
  orphaned slot key robot missionId (SimulationEngine.callRobot slot' method now e).2.
Proof.
  intros Hm Hc Hne [Hs Hmm].
  destruct (callRobot_registries slot' method c now e Hm Hc) as (Em & Ef & _).
  split; [|by rewrite Em]. rewrite Ef.
  destruct (SimulationEngine.fleetManager e !! slot') as [[k r]|]; [|done].
  by rewrite list_lookup_insert_ne.
Qed.

Lemma transition_absent (c : MissionManager.Call) now (mm : gmap string Mission.t) :
  isCreate c = false → mm !! missionId = None →
  MissionManager.exec c now mm !! missionId = None.
Proof.
  intros Hc Hmm. destruct c as [uuid rnd|mid rid|mid|mid|mid|o]; [done|..]; cbn.
  - unfold MissionManager.assignMission.
    destruct (mm !! mid) as [m|] eqn:E; [|done]. case_decide; [done|]. cbn.
    rewrite lookup_insert_ne; [done|]. intros ->. congruence.
  - unfold MissionManager.startMission.
    destruct (mm !! mid) as [m|] eqn:E; [|done]. case_decide; [done|]. cbn.
    rewrite lookup_insert_ne; [done|]. intros ->. congruence.
  - unfold MissionManager.completeMission.
    destruct (mm !! mid) as [m|] eqn:E; [|done]. case_decide; [done|]. cbn.
    rewrite lookup_insert_ne; [done|]. intros ->. congruence.
  - unfold MissionManager.cancelMission.
    destruct (mm !! mid) as [m|] eqn:E; [|done]. case_decide; [done|]. cbn.
    rewrite lookup_insert_ne; [done|]. intros ->. congruence.
  - rewrite cleanup_lookup. cbv zeta. by rewrite Hmm.
Qed.

Lemma startBoth_orphaned mid slot' now e :
  slot' ≠ slot → orphaned slot key robot missionId e →
  orphaned slot key robot missionId (SimulationEngine.startBoth mid slot' now e).2.
Proof.
  intros Hne Ho. unfold SimulationEngine.startBoth.
  pose proof (callRobot_orphaned slot' _ _ now e (startMission_method now)
                ltac:(done) Hne Ho) as H.
  destruct (SimulationEngine.callRobot slot' (Robot.startMission now) now e)
    as [[[]|err] e']; [|done]. destruct H as [Hs Hmm].
  pose proof (transition_absent (MissionManager.StartMission mid) now _ eq_refl Hmm) as Ha.
  cbn in Ha.
  by destruct (MissionManager.startMission mid now (SimulationEngine.missionManager e')).
Qed.

Lemma completeBoth_orphaned mid slot' now e :
  slot' ≠ slot → orphaned slot key robot missionId e →
  orphaned slot key robot missionId (SimulationEngine.completeBoth mid slot' now e).2.
Proof.
  intros Hne Ho. unfold SimulationEngine.completeBoth.
  pose proof (callRobot_orphaned slot' _ _ now e (completeMission_method now)
                ltac:(done) Hne Ho) as H.
  destruct (SimulationEngine.callRobot slot' (Robot.completeMission now) now e)
    as [[[]|err] e']; [|done]. destruct H as [Hs Hmm].
  pose proof (transition_absent (MissionManager.CompleteMission mid) now _ eq_refl Hmm) as Ha.
  cbn in Ha.
  by destruct (MissionManager.completeMission mid now (SimulationEngine.missionManager e')).
Qed.

Lemma sweepRobot_orphaned since range advance rnd now slot' e :
  (∀ mid slot' now e, slot' ≠ slot → orphaned slot key robot missionId e →
     orphaned slot key robot missionId (advance mid slot' now e).2) →
  orphaned slot key robot missionId e →
  orphaned slot key robot missionId
    (SimulationEngine.sweepRobot since range advance rnd now slot' e).2.
Proof.
  intros Hadv Ho. unfold SimulationEngine.sweepRobot.
  destruct (SimulationEngine.fleetManager e !! slot') as [[k r]|] eqn:E; [|done].
  destruct (Robot.getCurrentMissionId r) as [mid|] eqn:Hc; [|done].
  case_decide; [done|].
  destruct (MissionManager.getMission mid (SimulationEngine.missionManager e))
    as [mission|] eqn:Hg; [|done].
  destruct (since mission) as [stamp|]; [|done].
  destruct (SimulationEngine.due range rnd stamp now); [|done].
  apply Hadv; [|done]. intros ->. destruct Ho as [Hs Hmm].
  rewrite Hs in E. injection E as <- <-.
  unfold Robot.getCurrentMissionId, MissionManager.getMission in *. congruence.
Qed.

Lemma forEachRobot_orphaned body rnd now slots : ∀ e,
  (∀ q now slot' e, orphaned slot key robot missionId e →
     orphaned slot key robot missionId (body q now slot' e).2) →
  orphaned slot key robot missionId e →
  orphaned slot key robot missionId (SimulationEngine.forEachRobot body rnd now slots e).2.
Proof.
  induction slots as [|s slots IH]; intros e Hbody Ho; [done|].
  cbn. pose proof (Hbody (rnd s) now s e Ho) as H.
  destruct (body (rnd s) now s e) as [[[]|err] e']; [|done].
  by apply IH.
Qed.

Lemma processStateTransitions_orphaned draws now e :
  orphaned slot key robot missionId e →
  orphaned slot key robot missionId (SimulationEngine.processStateTransitions draws now e).2.
Proof.
  unfold SimulationEngine.processStateTransitions.
  assert (∀ rnd e, orphaned slot key robot missionId e →
            orphaned slot key robot missionId
              (SimulationEngine.processAssignedRobots rnd now e).2) as H1.
  { intros rnd e0. apply forEachRobot_orphaned. intros.
    apply sweepRobot_orphaned; [|done]. apply startBoth_orphaned. }
  assert (∀ rnd e, orphaned slot key robot missionId e →
            orphaned slot key robot missionId
              (SimulationEngine.processEnRouteRobots rnd now e).2) as H2.
  { intros rnd e0. apply forEachRobot_orphaned. intros.
    apply sweepRobot_orphaned; [|done]. intros.
    by eapply callRobot_orphaned; [apply startDelivering_method|..]. }
  assert (∀ rnd e, orphaned slot key robot missionId e →
            orphaned slot key robot missionId
              (SimulationEngine.processDeliveringRobots rnd now e).2) as H3.
  { intros rnd e0. apply forEachRobot_orphaned. intros.
    apply sweepRobot_orphaned; [|done]. apply completeBoth_orphaned. }
  assert (∀ rnd e, orphaned slot key robot missionId e →
            orphaned slot key robot missionId
              (SimulationEngine.processCompletedRobots rnd now e).2) as H4.
  { intros rnd e0. apply forEachRobot_orphaned. intros.
    apply sweepRobot_orphaned; [|done]. intros.
    by eapply callRobot_orphaned; [apply returnToIdle_method|..]. }
  intros Ho.
  specialize (H1 (draws ASSIGNED) e Ho).
  destruct (SimulationEngine.processAssignedRobots (draws ASSIGNED) now e)
    as [[[]|err] e1]; [|done]. cbn in H1.
  specialize (H2 (draws EN_ROUTE) e1 H1).
  destruct (SimulationEngine.processEnRouteRobots (draws EN_ROUTE) now e1)
    as [[[]|err] e2]; [|done]. cbn in H2.
  specialize (H3 (draws DELIVERING) e2 H2).
  destruct (SimulationEngine.processDeliveringRobots (draws DELIVERING) now e2)
    as [[[]|err] e3]; [|done]. cbn in H3.
  specialize (H4 (draws COMPLETED) e3 H3).
  by destruct (SimulationEngine.processCompletedRobots (draws COMPLETED) now e3)
    as [[[]|err] e4].
Qed.

Lemma generateMission_orphaned uuid rnd now e :
  Mission.id (newMission uuid rnd now) ≠ missionId →
  orphaned slot key robot missionId e →
  orphaned slot key robot missionId (SimulationEngine.generateMission uuid rnd now e).2.
Proof.
  intros Hne [Hs Hmm].
  pose proof (generateMission_spec uuid rnd now e) as H. cbv zeta in H.
  destruct (list_find _ (SimulationEngine.fleetManager e)) as [[s1 [k1 r1]]|] eqn:E.
  - destruct H as (e' & -> & Hf & Hm). unfold orphaned. cbn. rewrite Hf, Hm.
    apply list_find_Some in E as (Hs1 & Hidle & _). cbn in Hidle.
    split; [|by rewrite lookup_insert_ne].
    rewrite list_lookup_insert_ne; [done|]. intros ->.
    rewrite Hs in Hs1. injection Hs1 as <- <-. done.
  - destruct H as (e' & -> & Hf & Hm). unfold orphaned. cbn. rewrite Hf, Hm.
    split; [done|]. by rewrite lookup_insert_ne.
Qed.

Lemma tick_orphaned k now e :
  leavesAlone missionId now k →
  orphaned slot key robot missionId e →
  orphaned slot key robot missionId (SimulationEngine.tick k now e).
Proof.
  intros Hk Ho. destruct k as [[c|c| |]|first second|draws|]; cbn in *; try done.
  - unfold SimulationEngine.start. by destruct (SimulationEngine.isSimulationRunning e).
  - unfold SimulationEngine.stop. by destruct (SimulationEngine.isSimulationRunning e).
  - destruct (SimulationEngine.missionGenerationTimer e); [|done].
    destruct Hk as [Hk1 Hk2]. unfold SimulationEngine.generateMissions.
    pose proof (generateMission_orphaned first.1 first.2 now e Hk1 Ho) as H1.
    destruct (SimulationEngine.generateMission first.1 first.2 now e) as [[a1|err] e1];
      [|done]. cbn in H1.
    pose proof (generateMission_orphaned second.1 second.2 now e1 Hk2 H1) as H2.
    by destruct (SimulationEngine.generateMission second.1 second.2 now e1)
      as [[a2|err] e2].
  - destruct (SimulationEngine.stateTransitionTimer e); [|done].
    by apply processStateTransitions_orphaned.
  - destruct (SimulationEngine.cleanupTimer e); [|done].
    destruct Ho as [Hs Hmm]. split; [done|].
    unfold SimulationEngine.performCleanup. cbn.
    apply (transition_absent (MissionManager.CleanupCompletedMissions _) now _ eq_refl Hmm).
Qed.

End Orphans.

(** X28. The sweeps never advance a busy robot whose mission the mission
    registry does not hold (a mission handed to the fleet registry only, or
    one that a cleanup has removed): through any sequence of
    state-transition sweeps, cleanups, starts and stops of the engine, and
    mission generations that do not create a mission of that very ID, the
    robot stays exactly as it is, in its status and bound to the mission,
    and the registry keeps lacking the mission. *)
Theorem orphaned_robot_is_stuck
    (e : SimulationEngine.t) (slot : nat) (key : string) (robot : Robot.t)
    (missionId : string) (ticks : list (Time * SimulationEngine.Tick)) :
  SimulationEngine.fleetManager e !! slot = Some (key, robot) →
  Robot.status robot ≠ IDLE →
  Robot.currentMissionId robot = Some missionId →
  SimulationEngine.missionManager e !! missionId = None →
  Forall (fun tk => leavesAlone missionId tk.1 tk.2) ticks →
  let e' := SimulationEngine.runTicks ticks e in
  SimulationEngine.fleetManager e' !! slot = Some (key, robot)
  ∧ SimulationEngine.missionManager e' !! missionId = None.
Proof.
  intros Hs Hbusy Hbound Hmm Hticks. cbv zeta.
  assert (orphaned slot key robot missionId e) as Ho by done.
  clear Hs Hmm. revert e Ho.
  induction Hticks as [|[now k] ticks Hk _ IH]; intros e Ho; [done|].
  cbn. apply IH. by apply tick_orphaned.
Qed.

Lemma orphaned_robot_is_stuck_witness :
  let e' := SimulationEngine.runTicks orphan_ticks orphan_engine in
  SimulationEngine.fleetManager e' !! 0%nat
    = Some ("robot-001", assigned_to mission1 1001 (Robot.constructor "robot-001" 900))
  ∧ SimulationEngine.missionManager e' !! "mission-3f2a9c1e" = None.
Proof.
  apply (orphaned_robot_is_stuck orphan_engine 0 "robot-001"
           (assigned_to mission1 1001 (Robot.constructor "robot-001" 900))
           "mission-3f2a9c1e" orphan_ticks).
  - by vm_compute.
  - by vm_compute.
  - by vm_compute.
  - by vm_compute.
  - repeat constructor; intros H; vm_compute in H; discriminate H.
Defined.

Section Sync.
Implicit Types (fm : list (string * Robot.t)) (mm : gmap string Mission.t).
Implicit Types (e : SimulationEngine.t) (now : Time).

Lemma in_step_ext mm mm' (robot : Robot.t) :
  (∀ k, Robot.currentMissionId robot = Some k → mm' !! k = mm !! k) →
  in_step mm robot → in_step mm' robot.
Proof.
  unfold in_step. intros Hext.
  destruct (Robot.currentMissionId robot) as [mid|]; [|done].
  by rewrite (Hext mid eq_refl).
Qed.

(** A change to the robot of one slot and to its mission only. *)
Lemma sync_update fm mm slot key (robot robot' : Robot.t) mm' mid :
  in_sync fm mm → fm !! slot = Some (key, robot) →
  Robot.currentMissionId robot = Some mid →
  (Robot.currentMissionId robot' = Some mid ∨ Robot.currentMissionId robot' = None) →
  (∀ k, k ≠ mid → mm' !! k = mm !! k) →
  in_step mm' robot' →
  (Robot.currentMissionId robot' = None → ∀ m, mm' !! mid = Some m → ¬ active m) →
  in_sync (<[slot := (key, robot')]> fm) mm'.
Proof.
  intros (HA & HB & HC) Hs Hc Hc' Hmm Hstep Hrel.
  assert (slot < length fm)%nat as Hlt by (by eapply lookup_lt_Some).
  assert (∀ s k r, s ≠ slot → fm !! s = Some (k, r) →
                   Robot.currentMissionId r ≠ Some mid) as Hother.
  { intros s k r Hne Hl Hcr. apply Hne. by eapply (HB s slot). }
  split; [|split].
  - intros s k r Hl. destruct (decide (s = slot)) as [->|Hne].
    + rewrite list_lookup_insert_eq in Hl by done. by injection Hl as <- <-.
    + rewrite list_lookup_insert_ne in Hl by done.
      eapply in_step_ext; [|by eapply HA]. intros k0 Hk0. apply Hmm.
      intros ->. by eapply Hother.
  - intros s1 s2 k1 k2 r1 r2 mid0 H1 H2 Hc1 Hc2.
    destruct (decide (s1 = slot)) as [->|Hne1]; destruct (decide (s2 = slot)) as [->|Hne2];
      [done|..].
    + rewrite list_lookup_insert_eq in H1 by done. injection H1 as <- <-.
      rewrite list_lookup_insert_ne in H2 by done.
      destruct Hc' as [Hc'|Hc']; [|congruence].
      assert (mid0 = mid) as -> by congruence. exfalso. by eapply Hother.
    + rewrite list_lookup_insert_eq in H2 by done. injection H2 as <- <-.
      rewrite list_lookup_insert_ne in H1 by done.
      destruct Hc' as [Hc'|Hc']; [|congruence].
      assert (mid0 = mid) as -> by congruence. exfalso. by eapply Hother.
    + rewrite list_lookup_insert_ne in H1, H2 by done. by eapply HB.
  - intros k m Hk Hact. destruct (decide (k = mid)) as [->|Hne].
    + destruct Hc' as [Hc'|Hc'].
      * exists slot, key, robot'. by rewrite list_lookup_insert_eq.
      * exfalso. by eapply Hrel.
    + rewrite Hmm in Hk by done.
      destruct (HC k m Hk Hact) as (s & k0 & r & Hl & Hcr).
      exists s, k0, r. split; [|done].
      rewrite list_lookup_insert_ne; [done|]. intros <-. congruence.
Qed.

(** A mission is stored under an ID that is in use nowhere, and possibly
    handed to an IDLE robot. *)
Lemma sync_create fm mm (m : Mission.t) mid :
  in_sync fm mm →
  (∀ slot key robot, fm !! slot = Some (key, robot) →
                     Robot.currentMissionId robot ≠ Some mid) →
  ¬ active m →
  in_sync fm (<[mid := m]> mm).
Proof.
  intros (HA & HB & HC) Hfresh Hm. split; [|split; [done|]].
  - intros s k r Hl. eapply in_step_ext; [|by eapply HA].
    intros k0 Hk0. rewrite lookup_insert_ne; [done|]. intros <-. by eapply Hfresh.
  - intros k m0 Hk Hact. destruct (decide (k = mid)) as [->|Hne].
    + rewrite lookup_insert_eq in Hk. by injection Hk as <-.
    + rewrite lookup_insert_ne in Hk by done. by eapply HC.
Qed.

Lemma sync_assign fm mm slot key (idle : Robot.t) (m : Mission.t) mid now :
  in_sync fm mm →
  (∀ slot key robot, fm !! slot = Some (key, robot) →
                     Robot.currentMissionId robot ≠ Some mid) →
  fm !! slot = Some (key, idle) → Robot.status idle = IDLE →
  Mission.id m = mid →
  in_sync (<[slot := (key, assigned_to m now idle)]> fm)
          (<[mid := assignedMission (Robot.id idle) now m]> mm).
Proof.
  intros (HA & HB & HC) Hfresh Hs Hidle Hid.
  assert (slot < length fm)%nat as Hlt by (by eapply lookup_lt_Some).
  pose proof (HA _ _ _ Hs) as Hstep. unfold in_step in Hstep.
  assert (Robot.currentMissionId idle = None) as Hnone.
  { destruct (Robot.currentMissionId idle); [by destruct Hstep|done]. }
  split; [|split].
  - intros s k r Hl. destruct (decide (s = slot)) as [->|Hne].
    + rewrite list_lookup_insert_eq in Hl by done. injection Hl as <- <-.
      unfold in_step. cbn. rewrite Hid, lookup_insert_eq. done.
    + rewrite list_lookup_insert_ne in Hl by done.
      eapply in_step_ext; [|by eapply HA]. intros k0 Hk0.
      rewrite lookup_insert_ne; [done|]. intros <-. by eapply Hfresh.
  - intros s1 s2 k1 k2 r1 r2 mid0 H1 H2 Hc1 Hc2.
    destruct (decide (s1 = slot)) as [->|Hne1]; destruct (decide (s2 = slot)) as [->|Hne2];
      [done|..].
    + rewrite list_lookup_insert_eq in H1 by done. injection H1 as <- <-.
      rewrite list_lookup_insert_ne in H2 by done. cbn in Hc1.
      exfalso. eapply Hfresh; [exact H2|]. congruence.
    + rewrite list_lookup_insert_eq in H2 by done. injection H2 as <- <-.
      rewrite list_lookup_insert_ne in H1 by done. cbn in Hc2.
      exfalso. eapply Hfresh; [exact H1|]. congruence.
    + rewrite list_lookup_insert_ne in H1, H2 by done. by eapply HB.
  - intros k m0 Hk Hact. destruct (decide (k = mid)) as [->|Hne].
    + exists slot, key, (assigned_to m now idle).
      rewrite list_lookup_insert_eq by done. split; [done|]. cbn. by rewrite Hid.
    + rewrite lookup_insert_ne in Hk by done.
      destruct (HC k m0 Hk Hact) as (s & k0 & r & Hl & Hcr).
      exists s, k0, r. split; [|done].
      rewrite list_lookup_insert_ne; [done|]. intros <-. congruence.
Qed.

Lemma sync_cleanup fm mm o now :
  in_sync fm mm →
  in_sync fm (MissionManager.cleanupCompletedMissions o now mm).2.
Proof.
  intros (HA & HB & HC).
  assert (∀ k m, (MissionManager.cleanupCompletedMissions o now mm).2 !! k = Some m →
                 mm !! k = Some m) as Hsub.
  { intros k m. rewrite cleanup_lookup. cbv zeta.
    destruct (mm !! k) as [m'|]; [|done]. by case_decide. }
  assert (∀ k m, mm !! k = Some m → Mission.status m ≠ completed →
                 Mission.status m ≠ cancelled →
                 (MissionManager.cleanupCompletedMissions o now mm).2 !! k = Some m) as Hkeep.
  { intros k m Hk H1 H2. rewrite cleanup_lookup. cbv zeta. rewrite Hk.
    rewrite decide_False; [done|]. intros [[?|?] _]; done. }
  split; [|split; [done|]].
  - intros s k r Hl. pose proof (HA _ _ _ Hl) as Hstep. unfold in_step in *.
    destruct (Robot.currentMissionId r) as [mid|]; [|done].
    destruct Hstep as [Hbusy Hstep]. split; [done|].
    destruct (mm !! mid) as [m|] eqn:Hm.
    + destruct Hstep as [Hst Hrid].
      destruct ((MissionManager.cleanupCompletedMissions o now mm).2 !! mid) as [m'|] eqn:Hm'.
      * apply Hsub in Hm'. by assert (m' = m) as -> by congruence.
      * destruct (Robot.status r) eqn:Hr; try done; cbn in Hst;
          rewrite (Hkeep _ _ Hm) in Hm' by congruence; done.
    + destruct ((MissionManager.cleanupCompletedMissions o now mm).2 !! mid) as [m'|] eqn:Hm';
        [|done]. apply Hsub in Hm'. congruence.
  - intros k m Hk Hact. apply Hsub in Hk. by eapply HC.
Qed.

Lemma fresh_spec mid e :
  fresh mid e = true
  ↔ SimulationEngine.missionManager e !! mid = None
    ∧ ∀ slot key robot, SimulationEngine.fleetManager e !! slot = Some (key, robot) →
                        Robot.currentMissionId robot ≠ Some mid.
Proof.
  unfold fresh. rewrite andb_true_iff, forallb_forall. split.
  - intros [Hm Hf]. split; [by destruct (SimulationEngine.missionManager e !! mid)|].
    intros slot key robot Hs Hc.
    assert (In (key, robot) (SimulationEngine.fleetManager e)) as Hin.
    { apply list_elem_of_In. by eapply list_elem_of_lookup_2. }
    specialize (Hf _ Hin). cbn in Hf. by rewrite bool_decide_eq_true_2 in Hf.
  - intros [Hm Hf]. split; [by rewrite Hm|].
    intros [key robot] Hin. apply list_elem_of_In, list_elem_of_lookup in Hin as [slot Hs].
    cbn. rewrite bool_decide_eq_false_2; [done|]. by eapply Hf.
Qed.

Lemma sync_update_engine e e' slot key (robot robot' : Robot.t) mid :
  in_sync (SimulationEngine.fleetManager e) (SimulationEngine.missionManager e) →
  SimulationEngine.fleetManager e !! slot = Some (key, robot) →
  Robot.currentMissionId robot = Some mid →
  SimulationEngine.fleetManager e'
    = <[slot := (key, robot')]> (SimulationEngine.fleetManager e) →
  (Robot.currentMissionId robot' = Some mid ∨ Robot.currentMissionId robot' = None) →
  (∀ k, k ≠ mid →
        SimulationEngine.missionManager e' !! k = SimulationEngine.missionManager e !! k) →
  in_step (SimulationEngine.missionManager e') robot' →
  (Robot.currentMissionId robot' = None →
   ∀ m, SimulationEngine.missionManager e' !! mid = Some m → ¬ active m) →
  in_sync (SimulationEngine.fleetManager e') (SimulationEngine.missionManager e')
  ∧ ∀ s, s ≠ slot →
         SimulationEngine.fleetManager e' !! s = SimulationEngine.fleetManager e !! s.
Proof.
  intros Hsync Hs Hc Hf Hc' Hmm Hstep Hrel. rewrite Hf. split.
  - by eapply sync_update.
  - intros s Hne. by rewrite list_lookup_insert_ne.
Qed.

Lemma in_step_mission mm (robot : Robot.t) mid m :
  in_step mm robot → Robot.currentMissionId robot = Some mid → mm !! mid = Some m →
  Mission.status m = stepOf (Robot.status robot)
  ∧ Mission.robotId m = Some (Robot.id robot).
Proof. unfold in_step. intros H Hc Hm. rewrite Hc, Hm in H. by destruct H. Qed.

Lemma startBoth_advances : advances ASSIGNED SimulationEngine.startBoth.
Proof.
  intros mid slot now e key robot m Hsync Hs Hst Hc Hm.
  pose proof Hsync as (HA & _).
  destruct (in_step_mission _ _ _ _ (HA _ _ _ Hs) Hc Hm) as [Hms Hrid].
  rewrite Hst in Hms. cbn in Hms.
  unfold SimulationEngine.startBoth.
  destruct (callRobot_registries slot (Robot.startMission now) Robot.StartMission now e
              (startMission_method now) ltac:(done)) as (Em & Ef & Er).
  assert (∃ evs, Robot.startMission now robot = (Return tt, Robot.updateTimestamp now (Robot.setStatus EN_ROUTE robot), evs)) as [evs Hmeth].
  { unfold Robot.startMission. rewrite decide_False by (by rewrite Hst; auto). by eexists. }
  rewrite Hs in Ef, Er. cbn [Robot.exec] in Ef. rewrite Hmeth in Ef, Er.
  cbn [fst snd] in Ef, Er.
  destruct (SimulationEngine.callRobot slot (Robot.startMission now) now e) as [res e1].
  cbn in Em, Ef, Er. subst res.
  unfold MissionManager.startMission. rewrite Em, Hm.
  rewrite decide_False by (by rewrite Hms; auto). cbn.
  eexists. split; [reflexivity|].
  eapply (sync_update_engine e _ slot key robot _ mid Hsync Hs Hc); cbn.
  - exact Ef.
  - by left.
  - intros k Hk. by rewrite lookup_insert_ne.
  - unfold in_step. cbn. rewrite Hc, lookup_insert_eq. cbn. done.
  - intros Hnone. cbn in Hnone. congruence.
Qed.

Lemma startDelivering_advances :
  advances EN_ROUTE
    (fun _ slot now e => SimulationEngine.callRobot slot (Robot.startDelivering now) now e).
Proof.
  intros mid slot now e key robot m Hsync Hs Hst Hc Hm.
  pose proof Hsync as (HA & _).
  destruct (in_step_mission _ _ _ _ (HA _ _ _ Hs) Hc Hm) as [Hms Hrid].
  rewrite Hst in Hms. cbn in Hms.
  destruct (callRobot_registries slot (Robot.startDelivering now) Robot.StartDelivering now e
              (startDelivering_method now) ltac:(done)) as (Em & Ef & Er).
  assert (∃ evs, Robot.startDelivering now robot = (Return tt, Robot.updateTimestamp now (Robot.setStatus DELIVERING robot), evs)) as [evs Hmeth].
  { unfold Robot.startDelivering. rewrite decide_False by (by rewrite Hst; auto). by eexists. }
  rewrite Hs in Ef, Er. cbn [Robot.exec] in Ef. rewrite Hmeth in Ef, Er.
  cbn [fst snd] in Ef, Er.
  destruct (SimulationEngine.callRobot slot (Robot.startDelivering now) now e) as [res e1].
  cbn in Em, Ef, Er. subst res.
  eexists. split; [reflexivity|].
  eapply (sync_update_engine e _ slot key robot _ mid Hsync Hs Hc); cbn.
  - exact Ef.
  - by left.
  - intros k Hk. by rewrite Em.
  - unfold in_step. cbn. rewrite Hc, Em, Hm. cbn. done.
  - intros Hnone. cbn in Hnone. congruence.
Qed.

Lemma completeBoth_advances : advances DELIVERING SimulationEngine.completeBoth.
Proof.
  intros mid slot now e key robot m Hsync Hs Hst Hc Hm.
  pose proof Hsync as (HA & _).
  destruct (in_step_mission _ _ _ _ (HA _ _ _ Hs) Hc Hm) as [Hms Hrid].
  rewrite Hst in Hms. cbn in Hms.
  unfold SimulationEngine.completeBoth.
  destruct (callRobot_registries slot (Robot.completeMission now) Robot.CompleteMission now e
              (completeMission_method now) ltac:(done)) as (Em & Ef & Er).
  assert (∃ evs, Robot.completeMission now robot = (Return tt, Robot.updateTimestamp now (Robot.setStatus COMPLETED robot), evs)) as [evs Hmeth].
  { unfold Robot.completeMission. rewrite decide_False by (by rewrite Hst; auto). by eexists. }
  rewrite Hs in Ef, Er. cbn [Robot.exec] in Ef. rewrite Hmeth in Ef, Er.
  cbn [fst snd] in Ef, Er.
  destruct (SimulationEngine.callRobot slot (Robot.completeMission now) now e) as [res e1].
  cbn in Em, Ef, Er. subst res.
  unfold MissionManager.completeMission. rewrite Em, Hm.
  rewrite decide_False by (by rewrite Hms; auto). cbn.
  eexists. split; [reflexivity|].
  eapply (sync_update_engine e _ slot key robot _ mid Hsync Hs Hc); cbn.
  - exact Ef.
  - by left.
  - intros k Hk. by rewrite lookup_insert_ne.
  - unfold in_step. cbn. rewrite Hc, lookup_insert_eq. cbn. done.
  - intros Hnone. cbn in Hnone. congruence.
Qed.

Lemma returnToIdle_advances :
  advances COMPLETED
    (fun _ slot now e => SimulationEngine.callRobot slot (Robot.returnToIdle now) now e).
Proof.
  intros mid slot now e key robot m Hsync Hs Hst Hc Hm.
  pose proof Hsync as (HA & _).
  destruct (in_step_mission _ _ _ _ (HA _ _ _ Hs) Hc Hm) as [Hms Hrid].
  rewrite Hst in Hms. cbn in Hms.
  destruct (callRobot_registries slot (Robot.returnToIdle now) Robot.ReturnToIdle now e
              (returnToIdle_method now) ltac:(done)) as (Em & Ef & Er).
  assert (∃ evs, Robot.returnToIdle now robot = (Return tt, Robot.updateTimestamp now (Robot.setCurrentMissionId None (Robot.setStatus IDLE robot)), evs)) as [evs Hmeth].
  { unfold Robot.returnToIdle. rewrite decide_False by (by rewrite Hst; auto). by eexists. }
  rewrite Hs in Ef, Er. cbn [Robot.exec] in Ef. rewrite Hmeth in Ef, Er.
  cbn [fst snd] in Ef, Er.
  destruct (SimulationEngine.callRobot slot (Robot.returnToIdle now) now e) as [res e1].
  cbn in Em, Ef, Er. subst res.
  eexists. split; [reflexivity|].
  eapply (sync_update_engine e _ slot key robot _ mid Hsync Hs Hc); cbn.
  - exact Ef.
  - by right.
  - intros k Hk. by rewrite Em.
  - unfold in_step. cbn. done.
  - intros _ m0 Hm0 [Hact|Hact]; rewrite Em, Hm in Hm0; injection Hm0 as <-; congruence.
Qed.

Lemma sweepRobot_sync phase since range advance rnd now slot e key (robot : Robot.t) :
  advances phase advance →
  in_sync (SimulationEngine.fleetManager e) (SimulationEngine.missionManager e) →
  SimulationEngine.fleetManager e !! slot = Some (key, robot) →
  Robot.status robot = phase →
  ∃ e', SimulationEngine.sweepRobot since range advance rnd now slot e = (Return tt, e')
        ∧ in_sync (SimulationEngine.fleetManager e') (SimulationEngine.missionManager e')
        ∧ ∀ s, s ≠ slot →
               SimulationEngine.fleetManager e' !! s = SimulationEngine.fleetManager e !! s.
Proof.
  intros Hadv Hsync Hs Hst. unfold SimulationEngine.sweepRobot. rewrite Hs.
  unfold Robot.getCurrentMissionId, MissionManager.getMission.
  destruct (Robot.currentMissionId robot) as [mid|] eqn:Hc; [|by exists e].
  case_decide; [by exists e|].
  destruct (SimulationEngine.missionManager e !! mid) as [m|] eqn:Hm; [|by exists e].
  destruct (since m) as [stamp|]; [|by exists e].
  destruct (SimulationEngine.due range rnd stamp now); [|by exists e].
  by eapply Hadv.
Qed.

Lemma forEachRobot_sync phase since range advance rnd now slots : ∀ e,
  advances phase advance → NoDup slots →
  in_sync (SimulationEngine.fleetManager e) (SimulationEngine.missionManager e) →
  (∀ s, s ∈ slots → ∃ key robot,
          SimulationEngine.fleetManager e !! s = Some (key, robot)
          ∧ Robot.status robot = phase) →
  ∃ e', SimulationEngine.forEachRobot (SimulationEngine.sweepRobot since range advance)
          rnd now slots e = (Return tt, e')
        ∧ in_sync (SimulationEngine.fleetManager e') (SimulationEngine.missionManager e').
Proof.
  induction slots as [|slot slots IH]; intros e Hadv Hnd Hsync Hslots; [by exists e|].
  apply NoDup_cons in Hnd as [Hnotin Hnd].
  destruct (Hslots slot ltac:(apply elem_of_cons; by left)) as (key & robot & Hs & Hst).
  destruct (sweepRobot_sync phase since range advance (rnd slot) now slot e key robot
              Hadv Hsync Hs Hst) as (e1 & E1 & Hsync1 & Hother).
  cbn. rewrite E1. apply IH; [done..|].
  intros s Hin. rewrite Hother by (intros ->; done).
  apply Hslots. apply elem_of_cons. by right.
Qed.

Lemma slotsFrom_NoDup status fm : ∀ i, NoDup (SimulationEngine.slotsFrom i status fm).
Proof.
  induction fm as [|[key robot] fm IH]; intros i; cbn; [constructor|].
  case_decide; [|apply IH]. apply NoDup_cons. split; [|apply IH].
  intros Hin. apply slotsFrom_spec in Hin as (_ & _ & _ & _ & Hle). lia.
Qed.

Lemma sweepStatus_sync phase since range advance rnd now e :
  advances phase advance →
  in_sync (SimulationEngine.fleetManager e) (SimulationEngine.missionManager e) →
  ∃ e', SimulationEngine.forEachRobot (SimulationEngine.sweepRobot since range advance)
          rnd now (SimulationEngine.slotsByStatus phase (SimulationEngine.fleetManager e)) e
        = (Return tt, e')
        ∧ in_sync (SimulationEngine.fleetManager e') (SimulationEngine.missionManager e').
Proof.
  intros Hadv Hsync. eapply forEachRobot_sync; [done|apply slotsFrom_NoDup|done|].
  intros s Hin. apply slotsFrom_spec in Hin as (key & robot & Hs & Hst & _).
  rewrite Nat.sub_0_r in Hs. by exists key, robot.
Qed.

Lemma processStateTransitions_sync draws now e :
  in_sync (SimulationEngine.fleetManager e) (SimulationEngine.missionManager e) →
  ∃ e', SimulationEngine.processStateTransitions draws now e = (None, e')
        ∧ in_sync (SimulationEngine.fleetManager e') (SimulationEngine.missionManager e').
Proof.
  intros Hsync. unfold SimulationEngine.processStateTransitions.
  unfold SimulationEngine.processAssignedRobots, SimulationEngine.processEnRouteRobots,
    SimulationEngine.processDeliveringRobots, SimulationEngine.processCompletedRobots.
  destruct (sweepStatus_sync ASSIGNED Mission.assignedAt
              SimulationEngine.ASSIGNED_TO_EN_ROUTE _ (draws ASSIGNED) now e
              startBoth_advances Hsync) as (e1 & -> & H1).
  destruct (sweepStatus_sync EN_ROUTE Mission.startedAt
              SimulationEngine.EN_ROUTE_TO_DELIVERING _ (draws EN_ROUTE) now e1
              startDelivering_advances H1) as (e2 & -> & H2).
  destruct (sweepStatus_sync DELIVERING Mission.startedAt
              SimulationEngine.DELIVERING_TO_COMPLETED _ (draws DELIVERING) now e2
              completeBoth_advances H2) as (e3 & -> & H3).
  destruct (sweepStatus_sync COMPLETED Mission.completedAt
              SimulationEngine.COMPLETED_TO_IDLE _ (draws COMPLETED) now e3
              returnToIdle_advances H3) as (e4 & -> & H4).
  by exists e4.
Qed.

Lemma generateMission_sync uuid rnd now e :
  in_sync (SimulationEngine.fleetManager e) (SimulationEngine.missionManager e) →
  fresh (Mission.id (newMission uuid rnd now)) e = true →
  let e' := (SimulationEngine.generateMission uuid rnd now e).2 in
  in_sync (SimulationEngine.fleetManager e') (SimulationEngine.missionManager e')
  ∧ ∀ mid, mid ≠ Mission.id (newMission uuid rnd now) →
           fresh mid e = true → fresh mid e' = true.
Proof.
  intros Hsync [Hm Hf]%fresh_spec. cbv zeta.
  pose proof (generateMission_spec uuid rnd now e) as H. cbv zeta in H.
  destruct (list_find _ (SimulationEngine.fleetManager e)) as [[s1 [k1 r1]]|] eqn:E.
  - destruct H as (e' & -> & Hfm & Hmm). cbn [snd]. rewrite Hfm, Hmm.
    apply list_find_Some in E as (Hs1 & Hidle & _). cbn in Hidle.
    assert (s1 < length (SimulationEngine.fleetManager e))%nat as Hlt
      by (by eapply lookup_lt_Some).
    split; [by apply sync_assign|].
    intros mid Hne [Hm' Hf']%fresh_spec. apply fresh_spec. rewrite Hfm, Hmm.
    split; [by rewrite lookup_insert_ne|].
    intros slot key robot Hs. destruct (decide (slot = s1)) as [->|Hslot].
    + rewrite list_lookup_insert_eq in Hs by done. injection Hs as <- <-.
      intros Heq. apply Hne. unfold assigned_to in Heq.
      cbn [Robot.currentMissionId Robot.updateTimestamp Robot.setCurrentMissionId] in Heq.
      by injection Heq.
    + rewrite list_lookup_insert_ne in Hs by done. by eapply Hf'.
  - destruct H as (e' & -> & Hfm & Hmm). cbn [snd]. rewrite Hfm, Hmm.
    split.
    + apply sync_create; [done|done|]. by intros [?|?].
    + intros mid Hne [Hm' Hf']%fresh_spec. apply fresh_spec. rewrite Hfm, Hmm.
      split; [by rewrite lookup_insert_ne|done].
Qed.

Lemma generateMissions_sync first second now e :
  in_sync (SimulationEngine.fleetManager e) (SimulationEngine.missionManager e) →
  Mission.id (newMission first.1 first.2 now) ≠ Mission.id (newMission second.1 second.2 now) →
  fresh (Mission.id (newMission first.1 first.2 now)) e = true →
  fresh (Mission.id (newMission second.1 second.2 now)) e = true →
  let e' := (SimulationEngine.generateMissions first second now e).1.2 in
  in_sync (SimulationEngine.fleetManager e') (SimulationEngine.missionManager e').
Proof.
  intros Hsync Hne Hf1 Hf2. cbv zeta. unfold SimulationEngine.generateMissions.
  destruct (generateMission_sync first.1 first.2 now e Hsync Hf1) as [H1 Hfresh].
  cbv zeta in H1, Hfresh. specialize (Hfresh _ (not_eq_sym Hne) Hf2).
  destruct (SimulationEngine.generateMission first.1 first.2 now e) as [[a1|err] e1];
    [|done]. cbn [snd] in H1, Hfresh.
  destruct (generateMission_sync second.1 second.2 now e1 H1 Hfresh) as [H2 _].
  cbv zeta in H2.
  by destruct (SimulationEngine.generateMission second.1 second.2 now e1) as [[a2|err] e2].
Qed.

Lemma cancel_sync robotId now e :
  NoDup (JsMap.keys (SimulationEngine.fleetManager e)) →
  in_sync (SimulationEngine.fleetManager e) (SimulationEngine.missionManager e) →
  let e' := SimulationEngine.exec
              (SimulationEngine.OnFleet (FleetManager.CancelRobotMission robotId)) now e in
  in_sync (SimulationEngine.fleetManager e') (SimulationEngine.missionManager e').
Proof.
  intros Hnd Hsync. cbv zeta. cbn. unfold FleetManager.cancelRobotMission.
  destruct (JsMap.get robotId (SimulationEngine.fleetManager e)) as [robot|] eqn:E;
    [|done].
  unfold Robot.cancelCurrentMission.
  destruct (decide (Robot.status robot = IDLE)) as [Hidle|Hbusy]; cbn.
  { by rewrite set_get_same. }
  pose proof (get_elem_of _ _ _ E) as Hin.
  apply list_elem_of_lookup in Hin as [slot Hs].
  rewrite <- (insert_slot_set _ slot robotId robot) by done.
  pose proof Hsync as (HA & _). pose proof (HA _ _ _ Hs) as Hstep.
  unfold in_step in Hstep.
  destruct (Robot.currentMissionId robot) as [mid|] eqn:Hc; [|done].
  destruct Hstep as [_ Hstep]. cbn.
  set (robot' := Robot.updateTimestamp now
                   (Robot.setCurrentMissionId None (Robot.setStatus IDLE robot))).
  assert (in_step (SimulationEngine.missionManager e) robot') as Hstep0 by done.
  unfold MissionManager.cancelMission.
  destruct (SimulationEngine.missionManager e !! mid) as [m|] eqn:Hm; cbn.
  - destruct Hstep as [Hms Hrid].
    destruct (decide (Mission.status m = completed ∨ Mission.status m = cancelled))
      as [Hsettled|Hopen]; cbn.
    + eapply (sync_update _ _ slot robotId robot robot' _ mid Hsync Hs Hc);
        [by right|done|done|].
      intros _ m0 Hm0 [Hact|Hact]; assert (m0 = m) as -> by congruence;
        destruct Hsettled; congruence.
    + eapply (sync_update _ _ slot robotId robot robot' _ mid Hsync Hs Hc);
        [by right|by intros k Hk; rewrite lookup_insert_ne|done|].
      intros _ m0 Hm0 [Hact|Hact]; rewrite lookup_insert_eq in Hm0;
        injection Hm0 as <-; done.
  - eapply (sync_update _ _ slot robotId robot robot' _ mid Hsync Hs Hc);
      [by right|done|done|]. intros _ m0 Hm0. congruence.
Qed.

Lemma tick_sync k now e :
  NoDup (JsMap.keys (SimulationEngine.fleetManager e)) →
  in_sync (SimulationEngine.fleetManager e) (SimulationEngine.missionManager e) →
  allowed now k e = true →
  let e' := SimulationEngine.tick k now e in
  in_sync (SimulationEngine.fleetManager e') (SimulationEngine.missionManager e').
Proof.
  intros Hnd Hsync Hk. cbv zeta.
  destruct k as [[[n|m|robotId|robotId c]|c| |]|first second|draws|]; try done.
  - by apply cancel_sync.
  - cbn. unfold SimulationEngine.start. by destruct (SimulationEngine.isSimulationRunning e).
  - cbn. unfold SimulationEngine.stop. by destruct (SimulationEngine.isSimulationRunning e).
  - cbn in *. destruct (SimulationEngine.missionGenerationTimer e); [|done].
    apply andb_true_iff in Hk as [Hk Hf2]. apply andb_true_iff in Hk as [Hne Hf1].
    apply negb_true_iff, bool_decide_eq_false in Hne.
    by apply generateMissions_sync.
  - cbn. destruct (SimulationEngine.stateTransitionTimer e); [|done].
    by destruct (processStateTransitions_sync draws now e Hsync) as (e' & -> & H).
  - cbn. destruct (SimulationEngine.cleanupTimer e); [|done].
    unfold SimulationEngine.performCleanup. cbn. by apply sync_cleanup.
Qed.

Lemma freshFleet_sync n now : in_sync (freshFleet n now) ∅.
Proof.
  assert (∀ slot key robot, freshFleet n now !! slot = Some (key, robot) →
            Robot.status robot = IDLE ∧ Robot.currentMissionId robot = None) as Hidle.
  { intros slot key robot Hs. unfold freshFleet in Hs. rewrite list_lookup_fmap in Hs.
    destruct (seq 1 n !! slot); [|done]. by injection Hs as <- <-. }
  split; [|split].
  - intros slot key robot Hs. destruct (Hidle _ _ _ Hs) as [Hst Hc].
    unfold in_step. by rewrite Hc.
  - intros s1 s2 k1 k2 r1 r2 mid H1 _ Hc1 _. destruct (Hidle _ _ _ H1). congruence.
  - intros mid m Hm. by rewrite lookup_empty in Hm.
Qed.

End Sync.

(** X29. Normal operation keeps robots and missions in step. Take an engine
    constructed over a fleet just initialized and an empty mission
    registry, whose clients only start and stop it and cancel the missions
    of robots through the fleet registry, whose timers fire at any times
    with any random outcomes, and whose generated missions get IDs that
    differ within a batch and are carried by no mission of the registry
    and no robot. Then at every point: a robot is IDLE exactly when it has
    no mission; the mission of an ASSIGNED robot is assigned, that of an
    EN_ROUTE or DELIVERING robot is in_progress, that of a COMPLETED robot
    is completed or has been cleaned up, and the mission names this robot
    as its robotId; no two robots are bound to the same mission; every
    assigned or in_progress mission is the mission of some robot; and a
    state-transition sweep, whenever it runs and whatever delays it draws,
    logs no error. *)
Theorem normal_operation_keeps_robots_and_missions_in_step
    (n : nat) (t0 : Time) (ticks : list (Time * SimulationEngine.Tick)) :
  let e0 := SimulationEngine.constructor
              (FleetManager.initializeFleet n t0 FleetManager.constructor)
              MissionManager.constructor in
  normalOperation ticks e0 = true →
  let e := SimulationEngine.runTicks ticks e0 in
  in_sync (SimulationEngine.fleetManager e) (SimulationEngine.missionManager e)
  ∧ ∀ draws now, (SimulationEngine.processStateTransitions draws now e).1 = None.
Proof.
  cbv zeta. intros Hnormal.
  assert (∀ e, registries_wf (registries e) →
            in_sync (SimulationEngine.fleetManager e) (SimulationEngine.missionManager e) →
            normalOperation ticks e = true →
            in_sync (SimulationEngine.fleetManager (SimulationEngine.runTicks ticks e))
                    (SimulationEngine.missionManager (SimulationEngine.runTicks ticks e)))
    as Hrun.
  { clear Hnormal. induction ticks as [|[now k] ticks IH]; intros e Hwf Hsync Hn; [done|].
    cbn in Hn. apply andb_true_iff in Hn as [Hk Hn]. cbn. apply IH; [|  |done].
    - eapply registries_wf_rtc; [apply tick_moves|done].
    - apply tick_sync; [|done|done]. destruct Hwf as [Hf _]. by apply fleet_inv_NoDup. }
  match goal with |- ?P ∧ _ => assert P as Hsync end.
  { apply Hrun; [| |done].
    - split; [|split].
      + apply fleet_inv_initializeFleet, fleet_inv_empty.
      + cbn. rewrite initializeFleet_fresh. unfold freshFleet.
        apply Forall_fmap, Forall_forall. intros i _. by cbn.
      + apply map_Forall_empty.
    - cbn. rewrite initializeFleet_fresh. apply freshFleet_sync. }
  split; [done|]. intros draws now.
  by destruct (processStateTransitions_sync draws now _ Hsync) as (e' & -> & _).
Qed.

Lemma normal_operation_keeps_robots_and_missions_in_step_witness :
  (SimulationEngine.processStateTransitions (fun _ _ => half) 4010000
     (SimulationEngine.runTicks normal_ticks
        (SimulationEngine.constructor
           (FleetManager.initializeFleet 2 900 FleetManager.constructor)
           MissionManager.constructor))).1 = None.
Proof.
  pose proof (normal_operation_keeps_robots_and_missions_in_step 2 900 normal_ticks) as H.
  cbv zeta in H. apply H. by vm_compute.
Defined.
